(** * Transit real-time pipeline: decoder, ingestion and query router

    A shallow embedding of the two Cloudflare workers of the repository

    - [workers/transit-gtfsrt-worker/src/index.js] (ingestion: [readVarint],
      [skipField], [parseHeaderTimestamp], [parseFeedMeta], [saveRT]) and
    - [gold/workers/transit-rt-api-worker/src/index.js] (query router:
      the entity parsers, [listHotRTFiles], [handleCurrentTripUpdates],
      [queryD1Historical], [handleHistorical]),

    together with the aggregate tables declared in
    [migrations/002_create_rt_aggregation_tables.sql].

    JavaScript values are modelled as the code uses them: a [Uint8Array] is a
    list of bytes, a BigInt is a [Z], a Number is an integer-valued double or
    [+Infinity] (type [Number] below, with the rounding of IEEE-754 binary64
    written out), [null] is [None]. *)

From Stdlib.Strings Require Import String Ascii Byte.
From Stdlib Require Import ZArith List Bool Lia Sorted DecimalString.
Import ListNotations.
Open Scope Z_scope.

(** ** JavaScript numbers *)

Module JS.

(** The Number values that occur in the workers' cursor arithmetic: integers
    that a double represents exactly, and [+Infinity].  (No fraction, NaN or
    negative zero is ever produced by the modelled code.) *)
Inductive Number : Type :=
| Fin (z : Z)
| PosInf.

(** Round a non-negative integer to the nearest double (53-bit significand,
    ties to even).  Below [2^53] every integer is a double. *)
Definition round_nearest_even (z : Z) : Z :=
  let e := Z.log2 z - 52 in
  if e <=? 0 then z
  else
    let q := Z.shiftr z e in
    let r := Z.land z (Z.ones e) in
    let half := Z.shiftl 1 (e - 1) in
    let q' := if (half <? r) || ((r =? half) && Z.odd q) then q + 1 else q in
    Z.shiftl q' e.

(** [Number(x)] for a BigInt [x >= 0], and the result of an exact integer sum:
    round to nearest, overflow to [+Infinity] from [2^1024] on. *)
Definition of_Z (z : Z) : Number :=
  let r := round_nearest_even z in
  if 2 ^ 1024 <=? r then PosInf else Fin r.

(** [a + b] on Numbers. *)
Definition add (a b : Number) : Number :=
  match a, b with
  | Fin x, Fin y => of_Z (x + y)
  | _, _ => PosInf
  end.

(** [a < b] on Numbers. *)
Definition ltb (a b : Number) : bool :=
  match a, b with
  | Fin x, Fin y => x <? y
  | Fin _, PosInf => true
  | PosInf, _ => false
  end.

(** [a >= b] on Numbers. *)
Definition geb (a b : Number) : bool :=
  match a, b with
  | Fin x, Fin y => y <=? x
  | PosInf, _ => true
  | Fin _, PosInf => false
  end.

(** The abstract operation ToInt32 that [>>] and [&] apply to their operands:
    reduce modulo [2^32] into the signed range; [Infinity] becomes [0]. *)
Definition ToInt32 (n : Number) : Z :=
  match n with
  | Fin z =>
      let m := z mod 2 ^ 32 in
      if 2 ^ 31 <=? m then m - 2 ^ 32 else m
  | PosInf => 0
  end.

(** [n >> k] (sign-propagating shift of the 32-bit value). *)
Definition sar (n : Number) (k : Z) : Z := Z.shiftr (ToInt32 n) k.

(** [n & m] for a small non-negative mask [m]. *)
Definition band (n : Number) (m : Z) : Z := Z.land (ToInt32 n) m.

End JS.

Import JS.

(** ** Byte buffers *)

Definition byteZ (b : byte) : Z := Z.of_N (Byte.to_N b).

(** [u8.length]. *)
Definition u8_length (u8 : list byte) : Number := Fin (Z.of_nat (length u8)).

(** [u8[pos]]: the element at an integer index inside the array, and
    [undefined] ([None]) at every other index. *)
Definition u8_get (u8 : list byte) (pos : Number) : option byte :=
  match pos with
  | Fin z => if 0 <=? z then nth_error u8 (Z.to_nat z) else None
  | PosInf => None
  end.

(** [b & m] where [b] is a byte or [undefined]; [undefined & m] is [0]. *)
Definition u8_and (b : option byte) (m : Z) : Z :=
  match b with
  | Some c => Z.land (byteZ c) m
  | None => 0
  end.

(** ** The protobuf reader of the ingestion worker *)

Record varint : Type := mkVarint { value : Number; next : Number }.

(** The body of [readVarint]'s [while (true)] loop.  [x] and [s] are the
    BigInt accumulator and shift.  The loop leaves at the first byte whose
    continuation bit is clear, and a read past the end yields [undefined],
    whose bits are all clear; the counter [n] therefore only has to cover the
    bytes of the buffer (see [readVarint_loop_budget]). *)
Fixpoint readVarint_loop (n : nat) (u8 : list byte) (x s : Z) (pos : Number)
  : Z * Number :=
  let b := u8_get u8 pos in
  let pos' := JS.add pos (Fin 1) in
  let x' := Z.lor x (Z.shiftl (u8_and b 127) s) in
  if u8_and b 128 =? 0 then (x', pos')
  else
    match n with
    | O => (x', pos')
    | S n' => readVarint_loop n' u8 x' (s + 7) pos'
    end.

Definition readVarint (u8 : list byte) (i : Number) : varint :=
  let (x, pos) := readVarint_loop (length u8) u8 0 0 i in
  mkVarint (JS.of_Z x) pos.

Definition skipField (u8 : list byte) (pos : Number) (wireType : Z) : Number :=
  if wireType =? 0 then next (readVarint u8 pos)
  else if wireType =? 1 then JS.add pos (Fin 8)
  else if wireType =? 2 then
    let r := readVarint u8 pos in
    JS.add (next r) (value r)
  else if wireType =? 5 then JS.add pos (Fin 4)
  else pos.

(** [parseHeaderTimestamp]'s [while (pos < end)] loop.  [fuel] bounds the
    number of turns; [None] means the loop has not finished within it. *)
Fixpoint parseHeaderTimestamp_loop (fuel : nat) (u8 : list byte)
    (pos end_ : Number) (ts : option Number) : option (option Number) :=
  match fuel with
  | O => None
  | S fuel' =>
      if JS.ltb pos end_ then
        let r := readVarint u8 pos in
        let pos := next r in
        let fieldNo := JS.sar (value r) 3 in
        let wireType := JS.band (value r) 7 in
        if (fieldNo =? 3) && (wireType =? 0) then
          let r := readVarint u8 pos in
          parseHeaderTimestamp_loop fuel' u8 (next r) end_ (Some (value r))
        else
          parseHeaderTimestamp_loop fuel' u8 (skipField u8 pos wireType) end_ ts
      else Some ts
  end.

Definition parseHeaderTimestamp (fuel : nat) (u8 : list byte)
    (start end_ : Number) : option (option Number) :=
  parseHeaderTimestamp_loop fuel u8 start end_ None.

Record FeedMeta : Type :=
  mkFeedMeta { entityCount : Number; headerTsSec : option Number }.

(** [parseFeedMeta]'s top-level loop. *)
Fixpoint parseFeedMeta_loop (fuel : nat) (u8 : list byte) (pos : Number)
    (entityCount : Number) (headerTsSec : option Number) : option FeedMeta :=
  match fuel with
  | O => None
  | S fuel' =>
      if JS.ltb pos (u8_length u8) then
        let r := readVarint u8 pos in
        let pos := next r in
        let fieldNo := JS.sar (value r) 3 in
        let wireType := JS.band (value r) 7 in
        if wireType =? 2 then
          let r2 := readVarint u8 pos in
          let subStart := next r2 in
          let subEnd := JS.add (next r2) (value r2) in
          if fieldNo =? 1 then
            match parseHeaderTimestamp fuel' u8 subStart subEnd with
            | None => None
            | Some ts =>
                let headerTsSec :=
                  match ts with Some t => Some t | None => headerTsSec end in
                parseFeedMeta_loop fuel' u8 subEnd entityCount headerTsSec
            end
          else if fieldNo =? 2 then
            parseFeedMeta_loop fuel' u8 subEnd
              (JS.add entityCount (Fin 1)) headerTsSec
          else parseFeedMeta_loop fuel' u8 subEnd entityCount headerTsSec
        else
          parseFeedMeta_loop fuel' u8 (skipField u8 pos wireType)
            entityCount headerTsSec
      else Some (mkFeedMeta entityCount headerTsSec)
  end.

Definition parseFeedMeta (fuel : nat) (ab : list byte) : option FeedMeta :=
  parseFeedMeta_loop fuel ab (Fin 0) (Fin 0) None.



(** ** The wire format, as the reader consumes it

    A description of well-formed streams, used to state what the reader
    returns on them.  A varint is a run of bytes with the continuation bit
    set, closed by one byte with the bit clear. *)

Fixpoint varint_ok (bs : list byte) : bool :=
  match bs with
  | [] => false
  | b :: bs' =>
      if Z.land (byteZ b) 128 =? 0
      then match bs' with [] => true | _ :: _ => false end
      else varint_ok bs'
  end.

(** The unsigned value a varint denotes: seven payload bits per byte, least
    significant group first. *)
Fixpoint varint_value (bs : list byte) : Z :=
  match bs with
  | [] => 0
  | b :: bs' => Z.lor (Z.land (byteZ b) 127) (Z.shiftl (varint_value bs') 7)
  end.

(** One top-level record: the bytes of its tag, of its length prefix (wire
    type 2 only) and of its payload. *)
Record field : Type :=
  mkField { f_key : list byte; f_len : list byte; f_body : list byte }.

Definition field_key (f : field) : Z := varint_value (f_key f).
Definition field_wire (f : field) : Z := Z.land (field_key f) 7.
Definition field_no (f : field) : Z := Z.shiftr (field_key f) 3.

Definition is_nil {A : Type} (l : list A) : bool :=
  match l with [] => true | _ :: _ => false end.

(** A record is well formed when its tag is a varint below [2^32] (field
    numbers below [2^29]) and its payload has the extent its wire type
    announces: a varint (0), eight bytes (1), as many bytes as the length
    prefix says (2), four bytes (5).  A tag of any other wire type carries no
    payload, which is how [skipField] treats it. *)
Definition field_ok (f : field) : bool :=
  varint_ok (f_key f) && (field_key f <? 2 ^ 32) &&
  (if field_wire f =? 0 then is_nil (f_len f) && varint_ok (f_body f)
   else if field_wire f =? 1 then
     is_nil (f_len f) && (Z.of_nat (length (f_body f)) =? 8)
   else if field_wire f =? 2 then
     varint_ok (f_len f)
     && (varint_value (f_len f) =? Z.of_nat (length (f_body f)))
   else if field_wire f =? 5 then
     is_nil (f_len f) && (Z.of_nat (length (f_body f)) =? 4)
   else is_nil (f_len f) && is_nil (f_body f)).

Definition field_bytes (f : field) : list byte :=
  f_key f ++ f_len f ++ f_body f.

Definition envelope_bytes (fs : list field) : list byte :=
  concat (map field_bytes fs).

(** The records that are entities: length-delimited, field number 2. *)
Definition is_entity (f : field) : bool :=
  (field_wire f =? 2) && (field_no f =? 2).

Definition count_entities (fs : list field) : nat :=
  length (filter is_entity fs).

(** Every [ArrayBuffer] is far shorter than [2^53] bytes, the range on which
    cursor arithmetic on Numbers is exact. *)
Definition safe_length (u8 : list byte) : Prop :=
  Z.of_nat (length u8) + 16 <= 2 ^ 53.

(** ** Stores shared by the workers

    The D1 database and the R2 bucket, as far as the modelled code reads and
    writes them.  Instants are milliseconds since the epoch. *)

(** A row of [rt_trip_updates_raw] / [rt_vehicle_positions_raw]. *)
Record RawRow : Type := mkRawRow {
  provider_key : string;
  feed_id : Z;
  feed_ts : option string;
  ingested_at : string;
  hash_sha256 : string;
  entity_count : Number
}.

(** The [detail] object that [saveRT] logs. *)
Record LogDetail : Type := mkLogDetail {
  r2_key : string;
  bytes : Z;
  log_entity_count : Number;
  feed_ts_local : option string
}.

(** A row of [ingest_log]. *)
Record LogRow : Type := mkLogRow {
  log_ts : string;
  log_provider_key : string;
  log_feed_id : Z;
  level : string;
  message : string;
  detail_json : option LogDetail
}.

(** An object of the bucket. *)
Record R2Object : Type := mkR2Object {
  key : string;
  uploaded : Z;
  body : list byte
}.

(** A row of the aggregate tables [rt_delays_hourly] / [rt_delays_daily]
    ([hour] is absent in the daily table).  Averages are exact rationals
    [numerator, denominator]. *)
Record DelayRow : Type := mkDelayRow {
  d_provider_key : string;
  d_date : string;
  d_hour : option Z;
  d_route_id : option string;
  d_stop_id : option string;
  d_trip_id : option string;
  avg_arrival_delay : option (Z * Z);
  max_arrival_delay : option Z;
  min_arrival_delay : option Z;
  avg_departure_delay : option (Z * Z);
  max_departure_delay : option Z;
  min_departure_delay : option Z;
  trip_count : Z;
  route_count : option Z;
  stop_count : option Z
}.

(** A row of [rt_positions_hourly] / [rt_positions_daily]. *)
Record PositionRow : Type := mkPositionRow {
  p_provider_key : string;
  p_date : string;
  p_hour : option Z;
  p_route_id : option string;
  p_vehicle_id : option string;
  p_trip_id : option string;
  avg_latitude : option (Z * Z);
  avg_longitude : option (Z * Z);
  avg_bearing : option (Z * Z);
  avg_speed : option (Z * Z);
  max_speed : option (Z * Z);
  vehicle_count : Z;
  p_route_count : option Z
}.

(** The aggregate tables of the database. *)
Record AggTables : Type := mkAggTables {
  rt_delays_hourly : list DelayRow;
  rt_delays_daily : list DelayRow;
  rt_positions_hourly : list PositionRow;
  rt_positions_daily : list PositionRow
}.

Record Env : Type := mkEnv {
  rt_trip_updates_raw : list RawRow;
  rt_vehicle_positions_raw : list RawRow;
  ingest_log : list LogRow;
  R2 : list R2Object;
  DB : AggTables
}.

Definition empty_env : Env := mkEnv [] [] [] [] (mkAggTables [] [] [] []).

(** [R2.put(path, ab)] at instant [now]: the object replaces any object of
    the same key. *)
Definition R2_put (objs : list R2Object) (path : string) (ab : list byte)
    (now : Z) : list R2Object :=
  mkR2Object path now ab
    :: filter (fun o => negb (String.eqb (key o) path)) objs.

(** [R2.get(key)]. *)
Definition R2_get (objs : list R2Object) (k : string) : option R2Object :=
  find (fun o => String.eqb (key o) k) objs.

(** A stable insertion sort: [x] is placed before the first element it may
    precede, so elements that compare equal keep their order. *)
Fixpoint insert_by {A : Type} (may_precede : A -> A -> bool) (x : A)
    (l : list A) : list A :=
  match l with
  | [] => [x]
  | y :: l' =>
      if may_precede x y then x :: y :: l'
      else y :: insert_by may_precede x l'
  end.

Definition sort_by {A : Type} (may_precede : A -> A -> bool) (l : list A)
  : list A :=
  fold_right (insert_by may_precede) [] l.

(** [R2.list({ prefix })]: the objects under the prefix in key order, taken
    as one untruncated page. *)
Definition R2_list (objs : list R2Object) (prefix : string) : list R2Object :=
  sort_by (fun a b => String.leb (key a) (key b))
    (filter (fun o => String.prefix prefix (key o)) objs).

(** ** Local time of the feed (America/Toronto)

    The workers format instants with [toLocaleString('en-CA', { timeZone:
    'America/Toronto', ... })].  The general statements below take the
    formatters as parameters; this module gives the zone for the worked
    examples, with the rules of the time zone database from 1957 on:
    daylight time from the last Sunday of April (from the first Sunday of
    April since 1987, from the second Sunday of March since 2007), 07:00
    UTC, to the last Sunday of October (to the first Sunday of November
    since 2007), 06:00 UTC.  Instants before 1957 are outside the model;
    the workers format no instant before 1970. *)
Module Toronto.

Definition ms_per_hour : Z := 3600000.
Definition ms_per_day : Z := 86400000.

(** Days since 1970-01-01 to a civil date (proleptic Gregorian). *)
Definition civil_from_days (days : Z) : Z * Z * Z :=
  let z := days + 719468 in
  let era := z / 146097 in
  let doe := z - era * 146097 in
  let yoe := (doe - doe / 1460 + doe / 36524 - doe / 146096) / 365 in
  let doy := doe - (365 * yoe + yoe / 4 - yoe / 100) in
  let mp := (5 * doy + 2) / 153 in
  let d := doy - (153 * mp + 2) / 5 + 1 in
  let m := if mp <? 10 then mp + 3 else mp - 9 in
  let y := yoe + era * 400 in
  (if m <=? 2 then y + 1 else y, m, d).

Definition days_from_civil (y m d : Z) : Z :=
  let y := if m <=? 2 then y - 1 else y in
  let era := y / 400 in
  let yoe := y - era * 400 in
  let doy := (153 * (if 2 <? m then m - 3 else m + 9) + 2) / 5 + d - 1 in
  let doe := yoe * 365 + yoe / 4 - yoe / 100 + doy in
  era * 146097 + doe - 719468.

(** Day of the week, [0] for Sunday (1970-01-01 was a Thursday). *)
Definition weekday (days : Z) : Z := (days + 4) mod 7.

(** The [n]-th Sunday of month [m] of year [y], in days since the epoch. *)
Definition nth_sunday (y m n : Z) : Z :=
  let d1 := days_from_civil y m 1 in
  d1 + (7 - weekday d1) mod 7 + 7 * (n - 1).

(** The last Sunday of month [m] (before December) of year [y]. *)
Definition last_sunday (y m : Z) : Z := nth_sunday y (m + 1) 1 - 7.

Definition dst_start (y : Z) : Z :=
  (if 2007 <=? y then nth_sunday y 3 2
   else if 1987 <=? y then nth_sunday y 4 1
   else last_sunday y 4) * ms_per_day + 7 * ms_per_hour.

Definition dst_end (y : Z) : Z :=
  (if 2007 <=? y then nth_sunday y 11 1 else last_sunday y 10) * ms_per_day
  + 6 * ms_per_hour.

(** Offset from UTC at instant [t]. *)
Definition utc_offset (t : Z) : Z :=
  let '(y, _, _) := civil_from_days (t / ms_per_day) in
  if (dst_start y <=? t) && (t <? dst_end y)
  then - 4 * ms_per_hour else - 5 * ms_per_hour.

Definition digit (d : Z) : ascii := ascii_of_nat (48 + Z.to_nat d).

Definition pad2 (n : Z) : string :=
  String (digit (n / 10 mod 10)) (String (digit (n mod 10)) EmptyString).

Definition pad4 (n : Z) : string := (pad2 (n / 100) ++ pad2 (n mod 100))%string.

(** ["YYYY-MM-DD"] of instant [t] in Toronto. *)
Definition fmtYMD (t : Z) : string :=
  let local := t + utc_offset t in
  let '(y, m, d) := civil_from_days (local / ms_per_day) in
  (pad4 y ++ "-" ++ pad2 m ++ "-" ++ pad2 d)%string.

(** ["YYYY-MM-DDTHH-MM-SS"] of instant [t] in Toronto. *)
Definition fmtISO (t : Z) : string :=
  let local := t + utc_offset t in
  let secs := (local mod ms_per_day) / 1000 in
  (fmtYMD t ++ "T" ++ pad2 (secs / 3600) ++ "-" ++ pad2 (secs / 60 mod 60)
   ++ "-" ++ pad2 (secs mod 60))%string.

(** An instant given as a UTC civil date and time. *)
Definition utc (y m d hh mm ss : Z) : Z :=
  days_from_civil y m d * ms_per_day + (hh * 3600 + mm * 60 + ss) * 1000.

End Toronto.

(** ** Hashing *)

Definition hex_digit (n : Z) : ascii :=
  if n <? 10 then ascii_of_nat (48 + Z.to_nat n)
  else ascii_of_nat (87 + Z.to_nat n).

(** [[...new Uint8Array(h)].map(b => b.toString(16).padStart(2, "0")).join("")]. *)
Fixpoint hex_of_bytes (h : list byte) : string :=
  match h with
  | [] => EmptyString
  | b :: h' =>
      String (hex_digit (byteZ b / 16))
        (String (hex_digit (byteZ b mod 16)) (hex_of_bytes h'))
  end.

(** ** [saveRT] of the ingestion worker *)

Inductive RawTable : Type := TripUpdatesRaw | VehiclePositionsRaw.

Definition RawTable_eq_dec (a b : RawTable) : {a = b} + {a <> b}.
Proof. decide equality. Defined.

Definition raw_rows (t : RawTable) (env : Env) : list RawRow :=
  match t with
  | TripUpdatesRaw => rt_trip_updates_raw env
  | VehiclePositionsRaw => rt_vehicle_positions_raw env
  end.

Definition insert_raw (t : RawTable) (r : RawRow) (env : Env) : Env :=
  match t with
  | TripUpdatesRaw =>
      mkEnv (rt_trip_updates_raw env ++ [r]) (rt_vehicle_positions_raw env)
        (ingest_log env) (R2 env) (DB env)
  | VehiclePositionsRaw =>
      mkEnv (rt_trip_updates_raw env) (rt_vehicle_positions_raw env ++ [r])
        (ingest_log env) (R2 env) (DB env)
  end.

Definition with_R2 (objs : list R2Object) (env : Env) : Env :=
  mkEnv (rt_trip_updates_raw env) (rt_vehicle_positions_raw env)
    (ingest_log env) objs (DB env).

Definition with_log (l : LogRow) (env : Env) : Env :=
  mkEnv (rt_trip_updates_raw env) (rt_vehicle_positions_raw env)
    (ingest_log env ++ [l]) (R2 env) (DB env).

Record SaveResult : Type := mkSaveResult { skipped : bool; path : option string }.

(** The largest time value of a [Date]; beyond it the date is invalid. *)
Definition max_time_value : Z := 8640000000000000.

Section Ingestion.

(** [crypto.subtle.digest("SHA-256", ab)]. *)
Variable sha256_digest : list byte -> list byte.
(** The two Montreal-time formatters, functions of the instant alone. *)
Variable fmtYMD_Montreal : Z -> string.
Variable fmtISO_Montreal : Z -> string.
(** SQLite's [datetime('now','localtime')] at an instant. *)
Variable datetime_localtime : Z -> string.

Definition sha256Hex (ab : list byte) : string :=
  hex_of_bytes (sha256_digest ab).

Definition table_of_kind (kind : string) : RawTable :=
  if String.eqb kind "gtfsrt_trip_updates" then TripUpdatesRaw
  else VehiclePositionsRaw.

(** [SELECT 1 FROM table WHERE provider_key=?1 AND hash_sha256=?2]. *)
Definition hash_exists (t : RawTable) (env : Env) (pkey hash : string) : bool :=
  existsb (fun r => String.eqb (provider_key r) pkey
                    && String.eqb (hash_sha256 r) hash)
    (raw_rows t env).

(** [fmtISO_Montreal(new Date(headerTsSec * 1000))] when the header carried a
    positive timestamp; an out-of-range date formats as ["Invalid Date"],
    whose first blank the formatter turns into ["T"]. *)
Definition feed_ts_text (headerTsSec : option Number) : option string :=
  match headerTsSec with
  | Some (Fin v) =>
      if 0 <? v then
        Some (if v * 1000 <=? max_time_value then fmtISO_Montreal (v * 1000)
              else "InvalidTDate"%string)
      else None
  | Some PosInf => Some "InvalidTDate"%string
  | None => None
  end.

Definition storage_path (pkey kind : string) (now : Z) : string :=
  let date := fmtYMD_Montreal now in
  let isoLocal := fmtISO_Montreal now in
  let fname := (kind ++ "_" ++ isoLocal ++ ".pb")%string in
  ("gtfs-rt/" ++ pkey ++ "/" ++ kind ++ "/dt=" ++ date ++ "/" ++ fname)%string.

(** [saveRT(env, pkey, feed_id, kind, ab)] run at instant [now].  The result
    is the store afterwards and the returned object; [None] when the decode
    of [ab] has not finished within [fuel] (nothing is written then: the
    decode precedes every write). *)
Definition saveRT (fuel : nat) (env : Env) (now : Z) (pkey : string)
    (feed_id : Z) (kind : string) (ab : list byte)
  : option (Env * SaveResult) :=
  let hash := sha256Hex ab in
  let table := table_of_kind kind in
  if hash_exists table env pkey hash then Some (env, mkSaveResult true None)
  else
    match parseFeedMeta fuel ab with
    | None => None
    | Some meta =>
        let path := storage_path pkey kind now in
        let env := with_R2 (R2_put (R2 env) path ab now) env in
        let feedTsLocal := feed_ts_text (headerTsSec meta) in
        let env :=
          insert_raw table
            (mkRawRow pkey feed_id feedTsLocal (datetime_localtime now) hash
               (entityCount meta)) env in
        let env :=
          with_log
            (mkLogRow (datetime_localtime now) pkey feed_id "INFO"
               ("Saved " ++ path)
               (Some (mkLogDetail path (Z.of_nat (length ab))
                        (entityCount meta) feedTsLocal))) env in
        Some (env, mkSaveResult false (Some path))
    end.

End Ingestion.

(** ** What the snapshot store holds *)

(** The rows of a raw table that carry a given source key and fingerprint. *)
Definition has_fingerprint (pkey hash : string) (r : RawRow) : bool :=
  String.eqb (provider_key r) pkey && String.eqb (hash_sha256 r) hash.

Definition stored_count (t : RawTable) (env : Env) (pkey hash : string) : nat :=
  length (filter (has_fingerprint pkey hash) (raw_rows t env)).

(** No source key and fingerprint occurs twice in a raw table. *)
Definition unique_fingerprints (env : Env) : Prop :=
  forall (t : RawTable) (pkey hash : string),
    (stored_count t env pkey hash <= 1)%nat.

(** The storage key as the specification words it:
    [{feedKind}/{sourceKey}/{feedKind}/date={YYYY-MM-DD}/{feedKind}_{local-timestamp}]. *)
Definition spec_storage_key (feedKind sourceKey date local_timestamp : string)
  : string :=
  (feedKind ++ "/" ++ sourceKey ++ "/" ++ feedKind ++ "/date=" ++ date ++ "/"
   ++ feedKind ++ "_" ++ local_timestamp)%string.

(** ["YYYY-MM-DD HH:MM:SS"] in UTC, the local time of the database. *)
Definition datetime_utc (t : Z) : string :=
  let '(y, m, d) := Toronto.civil_from_days (t / Toronto.ms_per_day) in
  let secs := (t mod Toronto.ms_per_day) / 1000 in
  (Toronto.pad4 y ++ "-" ++ Toronto.pad2 m ++ "-" ++ Toronto.pad2 d ++ " "
   ++ Toronto.pad2 (secs / 3600) ++ ":" ++ Toronto.pad2 (secs / 60 mod 60)
   ++ ":" ++ Toronto.pad2 (secs mod 60))%string.

(** In the worked examples the digest of a buffer is the buffer itself; the
    general statements hold for every digest function. *)
Definition sample_digest (ab : list byte) : list byte := ab.

(** [saveRT] with the concrete zone and clock of the worked examples. *)
Definition saveRT_at : nat -> Env -> Z -> string -> Z -> string -> list byte
                       -> option (Env * SaveResult) :=
  saveRT sample_digest Toronto.fmtYMD Toronto.fmtISO datetime_utc.



(** ** The query router (RT API worker)

    Its [readVarint], [skipField] and [parseHeaderTimestamp] are the same
    functions as the ingestion worker's ("reused from RT worker"), so the
    definitions above serve both. *)

Module Api.

(** Outcome of code that may throw. *)
Inductive result (A : Type) : Type :=
| Ret (a : A)
| Throw (error : string).
Arguments Ret {A} a.
Arguments Throw {A} error.

(** An IEEE-754 single, kept as its four little-endian bytes. *)
Definition float32 : Type := list byte.

Record TripDescriptor : Type :=
  mkTripDescriptor { trip_id : option string; route_id : option string }.

Record VehicleDescriptor : Type := mkVehicleDescriptor { id : option string }.

Record Position : Type := mkPosition {
  latitude : option float32;
  longitude : option float32;
  bearing : option float32;
  speed : option float32
}.

Record StopTimeEvent : Type :=
  mkStopTimeEvent { delay : option Number; time : option Number }.

(** [arrival] and [departure] start as the empty object [{}], here [None]. *)
Record StopTimeUpdate : Type := mkStopTimeUpdate {
  stop_id : option string;
  stop_sequence : option Number;
  arrival : option StopTimeEvent;
  departure : option StopTimeEvent
}.

Record TripUpdate : Type := mkTripUpdate {
  trip : TripDescriptor;
  stop_time_update : list StopTimeUpdate
}.

Record VehiclePosition : Type := mkVehiclePosition {
  vp_trip : TripDescriptor;
  vp_vehicle : VehicleDescriptor;
  vp_position : option Position;
  vp_timestamp : option Number
}.

Record Entity : Type := mkEntity {
  entity_id : option string;
  trip_update : option TripUpdate;
  vehicle : option VehiclePosition
}.

Record FeedMessage : Type := mkFeedMessage {
  header_timestamp : option Number;
  entity : list Entity
}.

(** An index argument of [subarray], clamped to the array. *)
Definition clamp_index (p : Number) (len : Z) : Z :=
  match p with
  | Fin z => if z <? 0 then Z.max (len + z) 0 else Z.min z len
  | PosInf => len
  end.

(** [u8.subarray(begin, end)]. *)
Definition subarray (u8 : list byte) (b e : Number) : list byte :=
  let len := Z.of_nat (length u8) in
  let bi := clamp_index b len in
  let ei := clamp_index e len in
  firstn (Z.to_nat (ei - bi)) (skipn (Z.to_nat bi) u8).

(** [new DataView(u8.buffer, u8.byteOffset + pos, 4).getFloat32(pos, true)]:
    the view covers four bytes from [pos], and the read is at offset [pos]
    inside the view.  The constructor throws unless the four bytes lie in the
    buffer; the read throws unless it ends within the view. *)
Definition view_getFloat32 (u8 : list byte) (pos : Number) : result float32 :=
  match pos with
  | Fin z =>
      if z + 4 <=? Z.of_nat (length u8) then
        if z + 4 <=? 4 then Ret (firstn 4 (skipn (Z.to_nat (z + z)) u8))
        else Throw "RangeError"
      else Throw "RangeError"
  | PosInf => Throw "RangeError"
  end.

Section Parsers.

(** [new TextDecoder().decode(bytes)]. *)
Variable TextDecoder_decode : list byte -> string.

Fixpoint parseTripDescriptor_loop (fuel : nat) (u8 : list byte)
    (pos end_ : Number) (td : TripDescriptor) : option TripDescriptor :=
  match fuel with
  | O => None
  | S fuel' =>
      if JS.ltb pos end_ then
        let r := readVarint u8 pos in
        let pos := next r in
        let fieldNo := JS.sar (value r) 3 in
        let wireType := JS.band (value r) 7 in
        if wireType =? 2 then
          let r2 := readVarint u8 pos in
          let next2 := next r2 in
          let str :=
            TextDecoder_decode (subarray u8 next2 (JS.add next2 (value r2))) in
          let td :=
            if fieldNo =? 1 then mkTripDescriptor (Some str) (route_id td)
            else if fieldNo =? 3 then mkTripDescriptor (trip_id td) (Some str)
            else td in
          parseTripDescriptor_loop fuel' u8 (JS.add next2 (value r2)) end_ td
        else
          parseTripDescriptor_loop fuel' u8 (skipField u8 pos wireType) end_ td
      else Some td
  end.

Definition parseTripDescriptor (fuel : nat) (u8 : list byte)
    (start end_ : Number) : option TripDescriptor :=
  parseTripDescriptor_loop fuel u8 start end_ (mkTripDescriptor None None).

Fixpoint parseVehicleDescriptor_loop (fuel : nat) (u8 : list byte)
    (pos end_ : Number) (vd : VehicleDescriptor) : option VehicleDescriptor :=
  match fuel with
  | O => None
  | S fuel' =>
      if JS.ltb pos end_ then
        let r := readVarint u8 pos in
        let pos := next r in
        let fieldNo := JS.sar (value r) 3 in
        let wireType := JS.band (value r) 7 in
        if wireType =? 2 then
          let r2 := readVarint u8 pos in
          let next2 := next r2 in
          let str :=
            TextDecoder_decode (subarray u8 next2 (JS.add next2 (value r2))) in
          let vd := if fieldNo =? 1 then mkVehicleDescriptor (Some str) else vd in
          parseVehicleDescriptor_loop fuel' u8 (JS.add next2 (value r2)) end_ vd
        else
          parseVehicleDescriptor_loop fuel' u8 (skipField u8 pos wireType)
            end_ vd
      else Some vd
  end.

Definition parseVehicleDescriptor (fuel : nat) (u8 : list byte)
    (start end_ : Number) : option VehicleDescriptor :=
  parseVehicleDescriptor_loop fuel u8 start end_ (mkVehicleDescriptor None).

Fixpoint parsePosition_loop (fuel : nat) (u8 : list byte)
    (pos end_ : Number) (p : Position) : option (result Position) :=
  match fuel with
  | O => None
  | S fuel' =>
      if JS.ltb pos end_ then
        let r := readVarint u8 pos in
        let pos := next r in
        let fieldNo := JS.sar (value r) 3 in
        let wireType := JS.band (value r) 7 in
        if (fieldNo =? 1) && (wireType =? 5) then
          match view_getFloat32 u8 pos with
          | Throw e => Some (Throw e)
          | Ret f =>
              parsePosition_loop fuel' u8 (JS.add pos (Fin 4)) end_
                (mkPosition (Some f) (longitude p) (bearing p) (speed p))
          end
        else if (fieldNo =? 2) && (wireType =? 5) then
          match view_getFloat32 u8 pos with
          | Throw e => Some (Throw e)
          | Ret f =>
              parsePosition_loop fuel' u8 (JS.add pos (Fin 4)) end_
                (mkPosition (latitude p) (Some f) (bearing p) (speed p))
          end
        else if (fieldNo =? 3) && (wireType =? 5) then
          match view_getFloat32 u8 pos with
          | Throw e => Some (Throw e)
          | Ret f =>
              parsePosition_loop fuel' u8 (JS.add pos (Fin 4)) end_
                (mkPosition (latitude p) (longitude p) (Some f) (speed p))
          end
        else if (fieldNo =? 4) && (wireType =? 5) then
          match view_getFloat32 u8 pos with
          | Throw e => Some (Throw e)
          | Ret f =>
              parsePosition_loop fuel' u8 (JS.add pos (Fin 4)) end_
                (mkPosition (latitude p) (longitude p) (bearing p) (Some f))
          end
        else
          parsePosition_loop fuel' u8 (skipField u8 pos wireType) end_ p
      else Some (Ret p)
  end.

Definition parsePosition (fuel : nat) (u8 : list byte) (start end_ : Number)
  : option (result Position) :=
  parsePosition_loop fuel u8 start end_ (mkPosition None None None None).

Fixpoint parseStopTimeEvent_loop (fuel : nat) (u8 : list byte)
    (pos end_ : Number) (ste : StopTimeEvent) : option StopTimeEvent :=
  match fuel with
  | O => None
  | S fuel' =>
      if JS.ltb pos end_ then
        let r0 := readVarint u8 pos in
        let pos := next r0 in
        let fieldNo := JS.sar (value r0) 3 in
        let wireType := JS.band (value r0) 7 in
        if (fieldNo =? 1) && (wireType =? 0) then
          let r := readVarint u8 pos in
          parseStopTimeEvent_loop fuel' u8 (next r) end_
            (mkStopTimeEvent (Some (value r)) (time ste))
        else if (fieldNo =? 2) && (wireType =? 0) then
          let r := readVarint u8 pos in
          parseStopTimeEvent_loop fuel' u8 (next r) end_
            (mkStopTimeEvent (delay ste) (Some (value r)))
        else
          parseStopTimeEvent_loop fuel' u8 (skipField u8 pos wireType) end_ ste
      else Some ste
  end.

Definition parseStopTimeEvent (fuel : nat) (u8 : list byte)
    (start end_ : Number) : option StopTimeEvent :=
  parseStopTimeEvent_loop fuel u8 start end_ (mkStopTimeEvent None None).

Fixpoint parseStopTimeUpdate_loop (fuel : nat) (u8 : list byte)
    (pos end_ : Number) (stu : StopTimeUpdate) : option StopTimeUpdate :=
  match fuel with
  | O => None
  | S fuel' =>
      if JS.ltb pos end_ then
        let r := readVarint u8 pos in
        let pos := next r in
        let fieldNo := JS.sar (value r) 3 in
        let wireType := JS.band (value r) 7 in
        if wireType =? 2 then
          let r2 := readVarint u8 pos in
          let subStart := next r2 in
          let subEnd := JS.add (next r2) (value r2) in
          if fieldNo =? 1 then
            parseStopTimeUpdate_loop fuel' u8 subEnd end_
              (mkStopTimeUpdate
                 (Some (TextDecoder_decode (subarray u8 subStart subEnd)))
                 (stop_sequence stu) (arrival stu) (departure stu))
          else if fieldNo =? 2 then
            match parseStopTimeEvent fuel' u8 subStart subEnd with
            | None => None
            | Some ev =>
                parseStopTimeUpdate_loop fuel' u8 subEnd end_
                  (mkStopTimeUpdate (stop_id stu) (stop_sequence stu)
                     (Some ev) (departure stu))
            end
          else if fieldNo =? 3 then
            match parseStopTimeEvent fuel' u8 subStart subEnd with
            | None => None
            | Some ev =>
                parseStopTimeUpdate_loop fuel' u8 subEnd end_
                  (mkStopTimeUpdate (stop_id stu) (stop_sequence stu)
                     (arrival stu) (Some ev))
            end
          else parseStopTimeUpdate_loop fuel' u8 subEnd end_ stu
        else if (fieldNo =? 4) && (wireType =? 0) then
          let r := readVarint u8 pos in
          parseStopTimeUpdate_loop fuel' u8 (next r) end_
            (mkStopTimeUpdate (stop_id stu) (Some (value r)) (arrival stu)
               (departure stu))
        else
          parseStopTimeUpdate_loop fuel' u8 (skipField u8 pos wireType) end_ stu
      else Some stu
  end.

Definition parseStopTimeUpdate (fuel : nat) (u8 : list byte)
    (start end_ : Number) : option StopTimeUpdate :=
  parseStopTimeUpdate_loop fuel u8 start end_
    (mkStopTimeUpdate None None None None).

Fixpoint parseTripUpdate_loop (fuel : nat) (u8 : list byte)
    (pos end_ : Number) (tu : TripUpdate) : option TripUpdate :=
  match fuel with
  | O => None
  | S fuel' =>
      if JS.ltb pos end_ then
        let r := readVarint u8 pos in
        let pos := next r in
        let fieldNo := JS.sar (value r) 3 in
        let wireType := JS.band (value r) 7 in
        if wireType =? 2 then
          let r2 := readVarint u8 pos in
          let subStart := next r2 in
          let subEnd := JS.add (next r2) (value r2) in
          if fieldNo =? 1 then
            match parseTripDescriptor fuel' u8 subStart subEnd with
            | None => None
            | Some td =>
                parseTripUpdate_loop fuel' u8 subEnd end_
                  (mkTripUpdate td (stop_time_update tu))
            end
          else if fieldNo =? 2 then
            match parseStopTimeUpdate fuel' u8 subStart subEnd with
            | None => None
            | Some stu =>
                parseTripUpdate_loop fuel' u8 subEnd end_
                  (mkTripUpdate (trip tu) (stop_time_update tu ++ [stu]))
            end
          else parseTripUpdate_loop fuel' u8 subEnd end_ tu
        else
          parseTripUpdate_loop fuel' u8 (skipField u8 pos wireType) end_ tu
      else Some tu
  end.

Definition parseTripUpdate (fuel : nat) (u8 : list byte)
    (start end_ : Number) : option TripUpdate :=
  parseTripUpdate_loop fuel u8 start end_
    (mkTripUpdate (mkTripDescriptor None None) []).

Fixpoint parseVehiclePosition_loop (fuel : nat) (u8 : list byte)
    (pos end_ : Number) (vp : VehiclePosition)
  : option (result VehiclePosition) :=
  match fuel with
  | O => None
  | S fuel' =>
      if JS.ltb pos end_ then
        let r := readVarint u8 pos in
        let pos := next r in
        let fieldNo := JS.sar (value r) 3 in
        let wireType := JS.band (value r) 7 in
        if wireType =? 2 then
          let r2 := readVarint u8 pos in
          let subStart := next r2 in
          let subEnd := JS.add (next r2) (value r2) in
          if fieldNo =? 1 then
            match parseTripDescriptor fuel' u8 subStart subEnd with
            | None => None
            | Some td =>
                parseVehiclePosition_loop fuel' u8 subEnd end_
                  (mkVehiclePosition td (vp_vehicle vp) (vp_position vp)
                     (vp_timestamp vp))
            end
          else if fieldNo =? 2 then
            match parseVehicleDescriptor fuel' u8 subStart subEnd with
            | None => None
            | Some vd =>
                parseVehiclePosition_loop fuel' u8 subEnd end_
                  (mkVehiclePosition (vp_trip vp) vd (vp_position vp)
                     (vp_timestamp vp))
            end
          else if fieldNo =? 3 then
            match parsePosition fuel' u8 subStart subEnd with
            | None => None
            | Some (Throw e) => Some (Throw e)
            | Some (Ret p) =>
                parseVehiclePosition_loop fuel' u8 subEnd end_
                  (mkVehiclePosition (vp_trip vp) (vp_vehicle vp) (Some p)
                     (vp_timestamp vp))
            end
          else parseVehiclePosition_loop fuel' u8 subEnd end_ vp
        else if (fieldNo =? 4) && (wireType =? 0) then
          let r := readVarint u8 pos in
          parseVehiclePosition_loop fuel' u8 (next r) end_
            (mkVehiclePosition (vp_trip vp) (vp_vehicle vp) (vp_position vp)
               (Some (value r)))
        else
          parseVehiclePosition_loop fuel' u8 (skipField u8 pos wireType)
            end_ vp
      else Some (Ret vp)
  end.

Definition parseVehiclePosition (fuel : nat) (u8 : list byte)
    (start end_ : Number) : option (result VehiclePosition) :=
  parseVehiclePosition_loop fuel u8 start end_
    (mkVehiclePosition (mkTripDescriptor None None) (mkVehicleDescriptor None)
       None None).

Fixpoint parseEntity_loop (fuel : nat) (u8 : list byte)
    (pos end_ : Number) (en : Entity) : option (result Entity) :=
  match fuel with
  | O => None
  | S fuel' =>
      if JS.ltb pos end_ then
        let r := readVarint u8 pos in
        let pos := next r in
        let fieldNo := JS.sar (value r) 3 in
        let wireType := JS.band (value r) 7 in
        if wireType =? 2 then
          let r2 := readVarint u8 pos in
          let subStart := next r2 in
          let subEnd := JS.add (next r2) (value r2) in
          if fieldNo =? 1 then
            parseEntity_loop fuel' u8 subEnd end_
              (mkEntity
                 (Some (TextDecoder_decode (subarray u8 subStart subEnd)))
                 (trip_update en) (vehicle en))
          else if fieldNo =? 3 then
            match parseTripUpdate fuel' u8 subStart subEnd with
            | None => None
            | Some tu =>
                parseEntity_loop fuel' u8 subEnd end_
                  (mkEntity (entity_id en) (Some tu) (vehicle en))
            end
          else if fieldNo =? 4 then
            match parseVehiclePosition fuel' u8 subStart subEnd with
            | None => None
            | Some (Throw e) => Some (Throw e)
            | Some (Ret vp) =>
                parseEntity_loop fuel' u8 subEnd end_
                  (mkEntity (entity_id en) (trip_update en) (Some vp))
            end
          else parseEntity_loop fuel' u8 subEnd end_ en
        else
          parseEntity_loop fuel' u8 (skipField u8 pos wireType) end_ en
      else Some (Ret en)
  end.

Definition parseEntity (fuel : nat) (u8 : list byte) (start end_ : Number)
  : option (result Entity) :=
  parseEntity_loop fuel u8 start end_ (mkEntity None None None).

Fixpoint parseFeedMessage_loop (fuel : nat) (u8 : list byte) (pos : Number)
    (feed : FeedMessage) : option (result FeedMessage) :=
  match fuel with
  | O => None
  | S fuel' =>
      if JS.ltb pos (u8_length u8) then
        let r := readVarint u8 pos in
        let pos := next r in
        let fieldNo := JS.sar (value r) 3 in
        let wireType := JS.band (value r) 7 in
        if wireType =? 2 then
          let r2 := readVarint u8 pos in
          let subStart := next r2 in
          let subEnd := JS.add (next r2) (value r2) in
          if fieldNo =? 1 then
            match parseHeaderTimestamp fuel' u8 subStart subEnd with
            | None => None
            | Some ts =>
                parseFeedMessage_loop fuel' u8 subEnd
                  (mkFeedMessage ts (entity feed))
            end
          else if fieldNo =? 2 then
            match parseEntity fuel' u8 subStart subEnd with
            | None => None
            | Some (Throw e) => Some (Throw e)
            | Some (Ret en) =>
                parseFeedMessage_loop fuel' u8 subEnd
                  (mkFeedMessage (header_timestamp feed) (entity feed ++ [en]))
            end
          else parseFeedMessage_loop fuel' u8 subEnd feed
        else
          parseFeedMessage_loop fuel' u8 (skipField u8 pos wireType) feed
      else Some (Ret feed)
  end.

Definition parseFeedMessage (fuel : nat) (ab : list byte)
  : option (result FeedMessage) :=
  parseFeedMessage_loop fuel ab (Fin 0) (mkFeedMessage None []).

End Parsers.

(** *** Hot files *)

Record HotFile : Type := mkHotFile { file_key : string; file_uploaded : Z }.

(** [getHoursAgo(hours)] called at instant [now].  [setHours] works on the
    process's local time; the Workers runtime runs in UTC, where moving the
    hour field moves the instant by whole hours. *)
Definition getHoursAgo (now hours : Z) : Z := now - hours * 3600000.

Definition hot_prefix (provider feedKind date : string) : string :=
  ("gtfs-rt/" ++ provider ++ "/" ++ feedKind ++ "/dt=" ++ date ++ "/")%string.

(** A query parameter is used when it is present and not the empty string. *)
Definition truthy (p : option string) : bool :=
  match p with
  | Some s => negb (String.eqb s "")
  | None => false
  end.

(** [p || dflt]. *)
Definition or_default (p : option string) (dflt : string) : string :=
  match p with
  | Some s => if String.eqb s "" then dflt else s
  | None => dflt
  end.

(** [a !== b] for a possibly undefined string [a] and a string [b]. *)
Definition differs (a : option string) (b : string) : bool :=
  match a with
  | Some s => negb (String.eqb s b)
  | None => true
  end.

(** A numeric property that may be missing ([undefined]) or [null]. *)
Inductive JsNumber : Type :=
| Undefined
| Null
| Num (n : Number).

Definition event_delay (ev : option StopTimeEvent) : JsNumber :=
  match ev with
  | None => Undefined
  | Some e => match delay e with Some n => Num n | None => Null end
  end.

Definition event_time (ev : option StopTimeEvent) : JsNumber :=
  match ev with
  | None => Undefined
  | Some e => match time e with Some n => Num n | None => Null end
  end.

Record TripUpdateOut : Type := mkTripUpdateOut {
  out_trip_id : option string;
  out_route_id : option string;
  out_stop_id : option string;
  out_stop_sequence : option Number;
  arrival_delay : JsNumber;
  departure_delay : JsNumber;
  arrival_time : JsNumber;
  departure_time : JsNumber
}.

Inductive Rows : Type :=
| DelayRows (rows : list DelayRow)
| PositionRows (rows : list PositionRow).

Definition rows_length (r : Rows) : Z :=
  match r with
  | DelayRows l => Z.of_nat (length l)
  | PositionRows l => Z.of_nat (length l)
  end.

(** The JSON bodies of the modelled handlers. *)
Inductive Body : Type :=
| TripUpdatesBody (trip_updates : list TripUpdateOut)
    (feed_timestamp : option Number)
| NoRecentBody (message : string)
| ErrorBody (error : string)
| HistoricalBody (aggregation : string) (date : string) (hour : option string)
    (feed_kind : string) (count : Z) (data : Rows).

Record Response : Type := mkResponse { status : Z; resp_body : Body }.

Definition jsonResponse (data : Body) : Response := mkResponse 200 data.

Definition errorResponse (message : string) (status : Z) : Response :=
  mkResponse status (ErrorBody message).

(** The rows that [handleCurrentTripUpdates] pushes for one feed. *)
Definition trip_update_rows (routeId stopId : option string)
    (feed : FeedMessage) : list TripUpdateOut :=
  flat_map
    (fun en =>
       match trip_update en with
       | None => []
       | Some tu =>
           if truthy routeId
              && differs (route_id (trip tu)) (or_default routeId "")
           then []
           else
             flat_map
               (fun stu =>
                  if truthy stopId
                     && differs (stop_id stu) (or_default stopId "")
                  then []
                  else
                    [mkTripUpdateOut (trip_id (trip tu)) (route_id (trip tu))
                       (stop_id stu) (stop_sequence stu)
                       (event_delay (arrival stu))
                       (event_delay (departure stu))
                       (event_time (arrival stu))
                       (event_time (departure stu))])
               (stop_time_update tu)
       end)
    (entity feed).

Definition opt_string_eqb (a : option string) (b : string) : bool :=
  match a with
  | Some s => String.eqb s b
  | None => false
  end.



Section Historical.

(** The platform's [parseInt], as the integer value of the Number it
    returns; [None] when that is no finite number ([NaN]). *)
Variable parseInt : string -> option Z.

(** Whether the database takes such a value as a bound parameter (it is
    then stored as NULL, which no hour equals) or rejects the statement. *)
Variable binds_NaN : bool.



End Historical.

Section Router.

Variable TextDecoder_decode : list byte -> string.
Variable fmtYMD_Montreal : Z -> string.

(** [listHotRTFiles(env, provider, feedKind, hoursBack)] called at [now]. *)
Definition listHotRTFiles (env : Env) (now : Z) (provider feedKind : string)
    (hoursBack : Z) : list HotFile :=
  let threshold := getHoursAgo now hoursBack in
  let thresholdDate := fmtYMD_Montreal threshold in
  let today := fmtYMD_Montreal now in
  let dates := [thresholdDate; today] in
  let files :=
    flat_map
      (fun date =>
         let prefix := hot_prefix provider feedKind date in
         flat_map
           (fun obj =>
              if threshold <=? uploaded obj
              then [mkHotFile (key obj) (uploaded obj)] else [])
           (R2_list (R2 env) prefix))
      dates in
  sort_by (fun a b => file_uploaded b <=? file_uploaded a) files.

(** [readHotRTFile(env, key)]. *)
Definition readHotRTFile (env : Env) (k : string) : option (list byte) :=
  option_map body (R2_get (R2 env) k).

(** [handleCurrentTripUpdates], given the query parameters of the URL and
    run at instant [now].  [None]: the decode has not finished within
    [fuel]; [Throw]: it threw. *)
Definition handleCurrentTripUpdates (fuel : nat) (env : Env) (now : Z)
    (provider route_id stop_id : option string) : option (result Response) :=
  let provider := or_default provider "stm" in
  match listHotRTFiles env now provider "gtfsrt_trip_updates" 24 with
  | [] => Some (Ret (jsonResponse (NoRecentBody "No recent trip updates found")))
  | latest :: _ =>
      match readHotRTFile env (file_key latest) with
      | None => Some (Ret (errorResponse "Failed to read RT file" 500))
      | Some ab =>
          match parseFeedMessage TextDecoder_decode fuel ab with
          | None => None
          | Some (Throw e) => Some (Throw e)
          | Some (Ret feed) =>
              Some (Ret (jsonResponse
                           (TripUpdatesBody
                              (trip_update_rows route_id stop_id feed)
                              (header_timestamp feed))))
          end
      end
  end.

End Router.

End Api.

(** ** The aggregate operation *)

Module Aggregation.

(** The primary key of a delay row, after the [PRIMARY KEY] clauses of
    [rt_delays_hourly] and [rt_delays_daily] (the daily table has no hour). *)
Definition PrimaryKey : Type :=
  (string * string * option Z * option string * option string
   * option string)%type.

Definition pk (r : DelayRow) : PrimaryKey :=
  (d_provider_key r, d_date r, d_hour r, d_route_id r, d_stop_id r,
   d_trip_id r).

Definition PrimaryKey_eq_dec (a b : PrimaryKey) : {a = b} + {a <> b}.
Proof. repeat decide equality; apply Z.eq_dec || apply string_dec. Defined.

(** A row whose [route_id], [stop_id] and [trip_id] are all present. *)
Definition complete (r : DelayRow) : bool :=
  match d_route_id r, d_stop_id r, d_trip_id r with
  | Some _, Some _, Some _ => true
  | _, _, _ => false
  end.

(** Whether two rows collide on the primary key of the migration.  The
    tables are ordinary (rowid) tables and [route_id], [stop_id] and
    [trip_id] are declared without NOT NULL, so the key admits NULL there,
    and the uniqueness check takes two NULLs as distinct: two rows collide
    when their keys are equal and hold no NULL.  ([hour] is NOT NULL in the
    hourly table and is no column of the daily table, whose rows have
    [d_hour = None].) *)
Definition same_key (a b : DelayRow) : bool :=
  (if PrimaryKey_eq_dec (pk a) (pk b) then true else false) && complete a.

(** Modelled from the spec: the upsert of the structured store ("upsert by
    primary key, not insert-only"); the statement that writes the aggregate
    tables is not among the sources.  A row that collides with a stored row
    on the primary key replaces it, any other row is added. *)
Fixpoint upsert (r : DelayRow) (rows : list DelayRow) : list DelayRow :=
  match rows with
  | [] => [r]
  | x :: rows' =>
      if same_key x r then r :: rows' else x :: upsert r rows'
  end.

(** The stored row of a given key. *)
Definition lookup (k : PrimaryKey) (rows : list DelayRow) : option DelayRow :=
  find (fun x => if PrimaryKey_eq_dec (pk x) k then true else false) rows.

Definition upsert_all (rs : list DelayRow) (rows : list DelayRow)
  : list DelayRow :=
  fold_left (fun t r => upsert r t) rs rows.

(** Modelled from the spec: one per-stop delay of a decoded trip-delay
    entity (route, stop, trip, arrival and departure delay, each possibly
    absent), with the hour of the snapshot it came from. *)
Record Observation : Type := mkObservation {
  obs_hour : Z;
  obs_route_id : option string;
  obs_stop_id : option string;
  obs_trip_id : option string;
  obs_arrival_delay : option Z;
  obs_departure_delay : option Z
}.

(** An observation that names its route, its stop and its trip. *)
Definition named (o : Observation) : bool :=
  match obs_route_id o, obs_stop_id o, obs_trip_id o with
  | Some _, Some _, Some _ => true
  | _, _, _ => false
  end.

(** Modelled from the spec: running statistics (count, sum, max, min) of one
    numeric field. *)
Record Stat : Type := mkStat { samples : Z; total : Z; hi : Z; lo : Z }.

(** Modelled from the spec: "entities with missing numeric fields are
    excluded from that specific statistic's count". *)
Definition add_sample (s : option Stat) (v : option Z) : option Stat :=
  match v with
  | None => s
  | Some x =>
      Some (match s with
            | None => mkStat 1 x x x
            | Some t =>
                mkStat (samples t + 1) (total t + x) (Z.max (hi t) x)
                  (Z.min (lo t) x)
            end)
  end.

Record Running : Type := mkRunning {
  entities : Z;
  arrival_stat : option Stat;
  departure_stat : option Stat
}.

Definition step (r : Running) (o : Observation) : Running :=
  mkRunning (entities r + 1)
    (add_sample (arrival_stat r) (obs_arrival_delay o))
    (add_sample (departure_stat r) (obs_departure_delay o)).

Definition start : Running := mkRunning 0 None None.

Inductive Grain : Type := Hourly | Daily.

Definition BucketKey : Type :=
  (option Z * option string * option string * option string)%type.

Definition BucketKey_eq_dec (a b : BucketKey) : {a = b} + {a <> b}.
Proof. repeat decide equality; apply Z.eq_dec || apply string_dec. Defined.

Definition bucket_of (g : Grain) (o : Observation) : BucketKey :=
  (match g with Hourly => Some (obs_hour o) | Daily => None end,
   obs_route_id o, obs_stop_id o, obs_trip_id o).

(** Modelled from the spec: add an observation to the running statistics of
    its bucket. *)
Fixpoint bump (k : BucketKey) (o : Observation)
    (acc : list (BucketKey * Running)) : list (BucketKey * Running) :=
  match acc with
  | [] => [(k, step start o)]
  | (k', r) :: acc' =>
      if BucketKey_eq_dec k k' then (k', step r o) :: acc'
      else (k', r) :: bump k o acc'
  end.

Definition accumulate (g : Grain) (obs : list Observation)
  : list (BucketKey * Running) :=
  fold_left (fun acc o => bump (bucket_of g o) o acc) obs [].

(** Modelled from the spec: the "true mean over all contributing entities",
    as the exact fraction [total / samples]. *)
Definition mean (s : option Stat) : option (Z * Z) :=
  option_map (fun t => (total t, samples t)) s.

Definition row_of (provider date : string) (b : BucketKey * Running)
  : DelayRow :=
  let '((hour, route, stop, trip), r) := b in
  mkDelayRow provider date hour route stop trip
    (mean (arrival_stat r)) (option_map hi (arrival_stat r))
    (option_map lo (arrival_stat r))
    (mean (departure_stat r)) (option_map hi (departure_stat r))
    (option_map lo (departure_stat r))
    (entities r) None None.

(** Modelled from the spec: the Aggregation Engine's [aggregate] for one
    (source, trip-delay, date) partition, given the per-stop delays decoded
    from the partition's snapshots; the engine itself is not among the
    sources.  Every observation is accumulated into the running statistics
    of its bucket, at hourly and at daily grain, and one row per bucket is
    upserted into the hourly and the daily table.  The result is the tables
    afterwards and the number of rows upserted. *)
Definition aggregate (provider date : string) (obs : list Observation)
    (db : AggTables) : AggTables * Z :=
  let hourly := map (row_of provider date) (accumulate Hourly obs) in
  let daily := map (row_of provider date) (accumulate Daily obs) in
  (mkAggTables (upsert_all hourly (rt_delays_hourly db))
     (upsert_all daily (rt_delays_daily db))
     (rt_positions_hourly db) (rt_positions_daily db),
   Z.of_nat (length hourly + length daily)).

End Aggregation.
(** ** Concrete inputs *)

(** A 148-byte buffer: the tag of field 1 with wire type 2, followed by a
    length varint of 147 bytes whose value is [2^1024]. *)
Definition overlong_header : list byte :=
  x0a :: repeat x80 146 ++ [x04].



(** An envelope with a header, two entities and unknown fields of every wire
    type in between. *)
Definition sample_fields : list field :=
  [ mkField [x0a] [x02] [x18; x05];
    mkField [x38] [] [xac; x02];
    mkField [x12] [x03] [x0a; x01; x41];
    mkField [x4d] [] [x00; x00; x80; x3f];
    mkField [x51] [] [x01; x02; x03; x04; x05; x06; x07; x08];
    mkField [x12] [x00] [];
    mkField [x5b] [] [];
    mkField [x7a] [x01] [xff] ].

(** Builders for small messages: one-byte tags and one-byte lengths. *)
Definition byte_of_Z (z : Z) : byte :=
  match Byte.of_N (Z.to_N z) with
  | Some b => b
  | None => x00
  end.

Definition tag (fieldNo wireType : Z) : byte := byte_of_Z (fieldNo * 8 + wireType).

Definition bytes_field (fieldNo : Z) (payload : list byte) : list byte :=
  tag fieldNo 2 :: byte_of_Z (Z.of_nat (length payload)) :: payload.

Definition varint_field (fieldNo : Z) (v : list byte) : list byte :=
  tag fieldNo 0 :: v.

(** A stop-time event whose delay is [-1] (one second early): an [int32] on
    the wire is the ten-byte varint of its 64-bit two's complement. *)
Definition early_event : list byte :=
  varint_field 1 [xff; xff; xff; xff; xff; xff; xff; xff; xff; x01].

(** A stop-time event with delay [0], and one with delay [60]. *)
Definition on_time_event : list byte := varint_field 1 [x00].
Definition late_event : list byte := varint_field 1 [x3c].

(** A trip-update feed in the field numbering of the parsers: a header with
    timestamp 1741579140 and one entity ["e1"] for trip ["T1"] on route
    ["10"], late by 60 s at stop ["S1"], stop sequence 5. *)
Definition sample_feed : list byte :=
  bytes_field 1 (varint_field 3 [x84; xc7; xb9; xbe; x06])
  ++ bytes_field 2
       (bytes_field 1 (list_byte_of_string "e1")
        ++ bytes_field 3
             (bytes_field 1
                (bytes_field 1 (list_byte_of_string "T1")
                 ++ bytes_field 3 (list_byte_of_string "10"))
              ++ bytes_field 2
                   (bytes_field 1 (list_byte_of_string "S1")
                    ++ bytes_field 2 late_event
                    ++ varint_field 4 [x05]))).

(** Two instants of the night after daylight time began in 2025 (Sunday
    9 March): 23:59:00 on the 9th and 00:00:30 on the 10th, Montreal time. *)
Definition evening_of_9_march : Z := Toronto.utc 2025 3 10 3 59 0.
Definition after_midnight_10_march : Z := Toronto.utc 2025 3 10 4 0 30.

(** The store after the ingestion of [sample_feed] at 23:59:00. *)
Definition first_save : option (Env * SaveResult) :=
  saveRT_at 100 empty_env evening_of_9_march "stm" 7 "gtfsrt_trip_updates"
    sample_feed.

Definition env_after_first_save : Env :=
  match first_save with
  | Some (env, _) => env
  | None => empty_env
  end.

(** The router of the worked examples: concrete zone, bytes read as text. *)
Definition handleCurrentTripUpdates_at :=
  Api.handleCurrentTripUpdates string_of_list_byte Toronto.fmtYMD.


(** One day later to the millisecond: the first snapshot lies exactly on the
    boundary of the hot window. *)
Definition one_day_later : Z := evening_of_9_march + 24 * 3600000.


(** Three per-stop delays of one day: two for the same trip and stop in hour
    8 (one early, one late), one without an arrival delay in hour 9. *)
Definition sample_observations : list Aggregation.Observation :=
  [ Aggregation.mkObservation 8 (Some "10"%string) (Some "S1"%string)
      (Some "T1"%string) (Some (-30)) (Some 0);
    Aggregation.mkObservation 8 (Some "10"%string) (Some "S1"%string)
      (Some "T1"%string) (Some 90) None;
    Aggregation.mkObservation 9 (Some "10"%string) (Some "S2"%string)
      (Some "T1"%string) None (Some 15) ].


(** ** Further notions for the reader *)

(** The standard base-128 encoding of a non-negative integer below [2^70]:
    seven bits per byte, least significant group first, the continuation bit
    set on every byte but the last.  (The workers only read varints; the
    encoder is the reference against which the reader is checked.) *)
Fixpoint encode_varint_upto (k : nat) (n : Z) : list byte :=
  match k with
  | O => [byte_of_Z (n mod 128)]
  | S k' =>
      if n <? 128 then [byte_of_Z n]
      else byte_of_Z (128 + n mod 128) :: encode_varint_upto k' (n / 128)
  end.

Definition encode_varint (n : Z) : list byte := encode_varint_upto 9 n.

(** Bytes that all announce a further byte. *)
Definition all_continue (bs : list byte) : bool :=
  forallb (fun b => negb (Z.land (byteZ b) 128 =? 0)) bs.

(** The header timestamp of a header body given as records: the value of the
    last record of field 3 with wire type 0, if there is one. *)
Definition is_timestamp (f : field) : bool :=
  (field_no f =? 3) && (field_wire f =? 0).

Definition last_timestamp (fs : list field) (ts : option Number)
  : option Number :=
  fold_left
    (fun acc f =>
       if is_timestamp f then Some (JS.of_Z (varint_value (f_body f)))
       else acc)
    fs ts.

(** [n] increments of a counter that starts at [0]. *)
Definition counted (n : nat) : Number :=
  Nat.iter n (fun c => JS.add c (Fin 1)) (Fin 0).

(** A header alone: field 1 holding a timestamp record (field 3) of value 5. *)
Definition header_only : list byte := [x0a; x02; x18; x05].

(** A header body of three records: an unknown string (field 1), a timestamp
    (field 3, value 300) and an unknown fixed32 (field 9). *)
Definition sample_header_fields : list field :=
  [ mkField [x0a] [x03] [x32; x2e; x30];
    mkField [x18] [] [xac; x02];
    mkField [x4d] [] [x00; x00; x80; x3f] ].

(** ** The rest of the ingestion worker *)

(** [s.replace(c, r)] for a one-character string pattern [c], and
    [s.replace(/c/, r)]: the first occurrence is replaced. *)
Fixpoint replace_first (c : ascii) (r : string) (s : string) : string :=
  match s with
  | EmptyString => EmptyString
  | String a s' =>
      if Ascii.eqb a c then (r ++ s')%string
      else String a (replace_first c r s')
  end.

(** [s.replace(/c/g, r)]: every occurrence is replaced. *)
Fixpoint replace_all (c : ascii) (r : string) (s : string) : string :=
  match s with
  | EmptyString => EmptyString
  | String a s' =>
      if Ascii.eqb a c then (r ++ replace_all c r s')%string
      else String a (replace_all c r s')
  end.

(** The body of [fmtISO_Montreal], given the platform's rendering
    [d.toLocaleString('en-CA', { timeZone, year, ..., hour12: false })]. *)
Definition fmtISO_Montreal_of (toLocaleString : Z -> string) (d : Z) : string :=
  let s := toLocaleString d in
  let s := replace_first "," "" s in
  let s := replace_all "/" "-" s in
  let s := replace_first " " "T" s in
  replace_all ":" "-" s.

(** Whether a character occurs in a string. *)
Fixpoint occurs (c : ascii) (s : string) : bool :=
  match s with
  | EmptyString => false
  | String a s' => Ascii.eqb a c || occurs c s'
  end.

(** A row of [feed_endpoints], as far as the worker reads it. *)
Record FeedEndpoint : Type := mkFeedEndpoint {
  fe_feed_id : Z;
  fe_provider_key : string;
  fe_feed_kind : string;
  fe_url : string;
  fe_is_active : Z
}.

(** What [fetch(url, { headers })] does: it throws (an error with a message
    and a string form), or it delivers a response, whose body
    [res.arrayBuffer()] is taken to read. *)
Inductive FetchOutcome : Type :=
| FetchThrows (message : string) (as_string : string)
| FetchResponse (ok : bool) (status : Z) (statusText : string)
    (arrayBuffer : list byte).

(** [buildHeaders(env, provider_key)]: the value of the [apikey] header, or
    no header. *)
Definition buildHeaders (STM_API_KEY : option string) (provider_key : string)
  : option string :=
  if String.eqb provider_key "stm" && Api.truthy STM_API_KEY
  then STM_API_KEY else None.

(** ASCII lower case, as SQLite's [LIKE] folds it. *)
Definition lower (c : ascii) : ascii :=
  let n := nat_of_ascii c in
  if ((65 <=? n) && (n <=? 90))%nat then ascii_of_nat (n + 32) else c.

Fixpoint lower_string (s : string) : string :=
  match s with
  | EmptyString => EmptyString
  | String a s' => String (lower a) (lower_string s')
  end.

(** [feed_kind LIKE 'gtfsrt_%']: the letters [gtfsrt] in either case, one
    character of any kind, then anything. *)
Definition like_gtfsrt (s : string) : bool :=
  String.eqb (lower_string (String.substring 0 6 s)) "gtfsrt"
  && (7 <=? String.length s)%nat.

(** [SELECT ... FROM feed_endpoints WHERE is_active = 1 AND feed_kind LIKE
    'gtfsrt_%']. *)
Definition active_rt_feeds (feed_endpoints : list FeedEndpoint)
  : list FeedEndpoint :=
  filter (fun f => (fe_is_active f =? 1) && like_gtfsrt (fe_feed_kind f))
    feed_endpoints.

(** The decimal form of a status code in a template literal. *)
Definition decimal (z : Z) : string := NilZero.string_of_int (Z.to_int z).

Section Scheduled.

Variable sha256_digest : list byte -> list byte.
Variable fmtYMD_Montreal : Z -> string.
Variable fmtISO_Montreal : Z -> string.
Variable datetime_localtime : Z -> string.
(** The network: the outcome of the [i]-th fetch of the run, for its URL
    and [apikey] header. *)
Variable fetch : nat -> string -> option string -> FetchOutcome.
(** [env.STM_API_KEY]. *)
Variable STM_API_KEY : option string.

(** [log(env, level, msg, provider_key, feed_id, detail)] at instant [now]. *)
Definition log (env : Env) (now : Z) (level msg provider_key : string)
    (feed_id : Z) (detail : option LogDetail) : Env :=
  with_log (mkLogRow (datetime_localtime now) provider_key feed_id level msg
              detail) env.

(** The [for] loop of [scheduled] over the selected feeds; [clock i] is the
    instant at which the [i]-th feed is handled.  Writes to the stores are
    taken to succeed, so the [catch] clause only sees a throwing [fetch].
    [None]: a decode has not finished within [fuel]. *)
Fixpoint scheduled_loop (fuel : nat) (clock : nat -> Z) (i : nat) (env : Env)
    (feeds : list FeedEndpoint) : option Env :=
  match feeds with
  | [] => Some env
  | f :: rest =>
      let now := clock i in
      match fetch i (fe_url f) (buildHeaders STM_API_KEY (fe_provider_key f)) with
      | FetchThrows message as_string =>
          scheduled_loop fuel clock (S i)
            (log env now "ERROR"
               (if String.eqb message "" then as_string else message)
               (fe_provider_key f) (fe_feed_id f) None)
            rest
      | FetchResponse ok status statusText ab =>
          if negb ok then
            scheduled_loop fuel clock (S i)
              (log env now "ERROR"
                 ("HTTP " ++ decimal status ++ " " ++ statusText)
                 (fe_provider_key f) (fe_feed_id f) None)
              rest
          else
            match saveRT sha256_digest fmtYMD_Montreal fmtISO_Montreal
                    datetime_localtime fuel env now (fe_provider_key f)
                    (fe_feed_id f) (fe_feed_kind f) ab with
            | None => None
            | Some (env', _) => scheduled_loop fuel clock (S i) env' rest
            end
      end
  end.

(** [scheduled(_evt, env)], given the table [feed_endpoints]. *)
Definition scheduled (fuel : nat) (clock : nat -> Z) (env : Env)
    (feed_endpoints : list FeedEndpoint) : option Env :=
  scheduled_loop fuel clock 0 env (active_rt_feeds feed_endpoints).

End Scheduled.

(** Two feed endpoints of the worked examples, a second feed that differs
    from [sample_feed] in its header timestamp, and a network on which the
    first endpoint answers 503 and the second delivers [sample_feed]. *)
Definition sample_endpoints : list FeedEndpoint :=
  [ mkFeedEndpoint 1 "stm" "gtfsrt_vehicle_positions" "https://a.example/vp" 1;
    mkFeedEndpoint 7 "stm" "gtfsrt_trip_updates" "https://a.example/tu" 1;
    mkFeedEndpoint 9 "stm" "gtfs_static" "https://a.example/static" 1;
    mkFeedEndpoint 8 "exo" "GTFSRT_alerts" "https://b.example/alerts" 0 ].

Definition sample_fetch (i : nat) (url : string) (apikey : option string)
  : FetchOutcome :=
  if String.eqb url "https://a.example/tu"
  then FetchResponse true 200 "OK" sample_feed
  else FetchResponse false 503 "Service Unavailable" [].

Definition second_feed : list byte :=
  bytes_field 1 (varint_field 3 [x85; xc7; xb9; xbe; x06])
  ++ bytes_field 2 (bytes_field 1 (list_byte_of_string "e2")).

Definition sample_clock (i : nat) : Z := evening_of_9_march + 1000 * Z.of_nat i.

(** The body a fetch delivers to [saveRT], if it does. *)
Definition delivered (o : FetchOutcome) : option (list byte) :=
  match o with
  | FetchResponse true _ _ ab => Some ab
  | _ => None
  end.

(** None of the characters [cs] occurs in [s]. *)
Definition free_of (cs : list ascii) (s : string) : bool :=
  forallb (fun c => negb (occurs c s)) cs.

(** Reading the fingerprint text back: the value of a hexadecimal digit and
    the bytes of a string of digit pairs. *)
Definition hex_value (c : ascii) : Z :=
  let n := Z.of_nat (nat_of_ascii c) in
  if n <? 58 then n - 48 else n - 87.

Fixpoint bytes_of_hex (s : string) : list byte :=
  match s with
  | String hi (String lo s') =>
      byte_of_Z (16 * hex_value hi + hex_value lo) :: bytes_of_hex s'
  | _ => []
  end.

(** The store after [second_feed] is ingested half a second after
    [sample_feed], for the same source and feed kind. *)
Definition second_save : option (Env * SaveResult) :=
  saveRT_at 100 env_after_first_save (evening_of_9_march + 500) "stm" 7
    "gtfsrt_trip_updates" second_feed.

Definition env_after_second_save : Env :=
  match second_save with
  | Some (env, _) => env
  | None => empty_env
  end.

(** [scheduled] with the concrete zone and clock of the worked examples. *)
Definition scheduled_at :=
  scheduled sample_digest Toronto.fmtYMD Toronto.fmtISO datetime_utc.

Definition sample_run : option Env :=
  scheduled_at sample_fetch (Some "k"%string) 100 sample_clock empty_env
    sample_endpoints.

Definition env_after_sample_run : Env :=
  match sample_run with
  | Some env => env
  | None => empty_env
  end.

(** A network on which nothing is delivered: every other fetch throws, the
    others answer 503. *)
Definition failing_fetch (i : nat) (url : string) (apikey : option string)
  : FetchOutcome :=
  if Nat.even i then FetchThrows "" "TypeError: fetch failed"
  else FetchResponse false 503 "Service Unavailable" [].

(** Endpoints of another source than [stm]. *)
Definition other_endpoints : list FeedEndpoint :=
  [ mkFeedEndpoint 3 "exo" "gtfsrt_trip_updates" "https://b.example/tu" 1;
    mkFeedEndpoint 4 "exo" "gtfsrt_vehicle_positions" "https://b.example/vp" 1 ].

(** ** Montreal time helpers *)

Module Intl.

(** The members of the options of [toLocaleString] that the workers set. *)
Record DateTimeFormatOptions : Type := mkDateTimeFormatOptions {
  timeZone : option string;
  year : option string;
  month : option string;
  day : option string;
  hour : option string;
  minute : option string;
  second : option string;
  hour12 : option bool
}.

End Intl.

Module Montreal.

Import Intl.

Definition tz : string := "America/Toronto".

(** [{ timeZone: tz, year: 'numeric' }], [{ timeZone: tz, month: '2-digit' }]
    and [{ timeZone: tz, day: '2-digit' }]. *)
Definition year_options : DateTimeFormatOptions :=
  mkDateTimeFormatOptions (Some tz) (Some "numeric"%string) None None None
    None None None.

Definition month_options : DateTimeFormatOptions :=
  mkDateTimeFormatOptions (Some tz) None (Some "2-digit"%string) None None
    None None None.

Definition day_options : DateTimeFormatOptions :=
  mkDateTimeFormatOptions (Some tz) None None (Some "2-digit"%string) None
    None None None.

(** The options of [fmtISO_Montreal]. *)
Definition full_options : DateTimeFormatOptions :=
  mkDateTimeFormatOptions (Some tz) (Some "numeric"%string)
    (Some "2-digit"%string) (Some "2-digit"%string) (Some "2-digit"%string)
    (Some "2-digit"%string) (Some "2-digit"%string) (Some false).

Section Helpers.

(** [d.toLocaleString(locale, options)] for the date of time value [d], in
    a process whose own time zone is the first argument. *)
Variable toLocaleString :
  string -> string -> DateTimeFormatOptions -> Z -> string.

(** The time zone of the executing process. *)
Variable process_zone : string.

(** [fmtYMD_Montreal(d)]. *)
Definition fmtYMD_Montreal (d : Z) : string :=
  let y := toLocaleString process_zone "en-CA" year_options d in
  let m := toLocaleString process_zone "en-CA" month_options d in
  let day := toLocaleString process_zone "en-CA" day_options d in
  (y ++ "-" ++ m ++ "-" ++ day)%string.

(** [fmtISO_Montreal(d)]. *)
Definition fmtISO_Montreal (d : Z) : string :=
  fmtISO_Montreal_of (toLocaleString process_zone "en-CA" full_options) d.

End Helpers.

End Montreal.

(** The platform of the worked examples: the en-CA renderings of the civil
    date and time in the zone that the options name, or in the zone of the
    process when they name none ([year-month-day, hour:minute:second] with
    an hour, else the one field asked for).  America/Toronto follows its
    rules, Asia/Tokyo is nine hours ahead of UTC, every other zone is read
    as UTC. *)
Definition sample_toLocaleString (process_zone locale : string)
    (o : Intl.DateTimeFormatOptions) (d : Z) : string :=
  let zone :=
    match Intl.timeZone o with Some z => z | None => process_zone end in
  let local :=
    d + (if String.eqb zone "America/Toronto" then Toronto.utc_offset d
         else if String.eqb zone "Asia/Tokyo" then 9 * Toronto.ms_per_hour
         else 0) in
  let '(y, m, dd) := Toronto.civil_from_days (local / Toronto.ms_per_day) in
  let secs := (local mod Toronto.ms_per_day) / 1000 in
  match Intl.hour o, Intl.year o, Intl.month o with
  | Some _, _, _ =>
      (Toronto.pad4 y ++ "-" ++ Toronto.pad2 m ++ "-" ++ Toronto.pad2 dd
       ++ ", " ++ Toronto.pad2 (secs / 3600) ++ ":"
       ++ Toronto.pad2 (secs / 60 mod 60) ++ ":" ++ Toronto.pad2 (secs mod 60))%string
  | None, Some _, _ => Toronto.pad4 y
  | None, None, Some _ => Toronto.pad2 m
  | None, None, None => Toronto.pad2 dd
  end.

(** [saveRT] with the formatters of the source on that platform, in a
    process of the given zone. *)
Definition saveRT_on_platform (process_zone : string) :=
  saveRT sample_digest
    (Montreal.fmtYMD_Montreal sample_toLocaleString process_zone)
    (Montreal.fmtISO_Montreal sample_toLocaleString process_zone)
    datetime_utc.

(** ** The other handlers of the query router *)

Module Handlers.

Import Api.

(** The 32 bits of a single, from its little-endian bytes. *)
Definition float32_bits (f : float32) : Z :=
  fold_right (fun b acc => byteZ b + 256 * acc) 0 f.

(** Truthiness of a single: every value but the two zeros and the NaNs
    (exponent all ones, fraction not zero). *)
Definition float32_truthy (f : float32) : bool :=
  let m := Z.land (float32_bits f) (2 ^ 31 - 1) in
  (0 <? m) && (m <=? 255 * 2 ^ 23).

(** A float property read off [vp.position], which is the empty object or
    the object of [parsePosition]. *)
Inductive JsFloat : Type :=
| FUndefined
| FNull
| FNum (f : float32).

Definition position_field (get : Position -> option float32)
    (p : option Position) : JsFloat :=
  match p with
  | None => FUndefined
  | Some q => match get q with Some f => FNum f | None => FNull end
  end.

Definition js_truthy (v : JsFloat) : bool :=
  match v with
  | FNum f => float32_truthy f
  | _ => false
  end.

Record PositionOut : Type := mkPositionOut {
  out_vehicle_id : option string;
  out_trip_id : option string;
  out_route_id : option string;
  out_latitude : JsFloat;
  out_longitude : JsFloat;
  out_bearing : JsFloat;
  out_speed : JsFloat;
  out_timestamp : option Number
}.

(** A GeoJSON point feature: [coordinates] is [[longitude, latitude]]. *)
Record Feature : Type := mkFeature {
  coordinates : JsFloat * JsFloat;
  f_vehicle_id : option string;
  f_trip_id : option string;
  f_route_id : option string;
  f_bearing : JsFloat;
  f_speed : JsFloat;
  f_timestamp : option Number
}.

(** One side of the [hot_data] object of [handleStatus]. *)
Record HotSummary : Type := mkHotSummary {
  latest_file : option string;
  latest_timestamp : option Z;
  file_count : Z
}.

(** The bodies of the handlers below ([StatusBody] holds the two sides of
    [hot_data]; the other members of that answer are constants). *)
Inductive Body : Type :=
| PositionsBody (positions : list PositionOut) (feed_timestamp : option Number)
| NoRecentBody (message : string)
| FeatureCollection (features : list Feature)
| ErrorBody (error : string)
| RangeBody (aggregation start_date end_date feed_kind : string) (count : Z)
    (data : Rows)
| StatusBody (trip_updates vehicle_positions : HotSummary).

Record Response : Type :=
  mkResponse { status : Z; content_type : string; resp_body : Body }.

Definition jsonResponse (data : Body) : Response :=
  mkResponse 200 "application/json" data.

Definition geojsonResponse (features : list Feature) : Response :=
  mkResponse 200 "application/geo+json" (FeatureCollection features).

Definition errorResponse (message : string) (status : Z) : Response :=
  mkResponse status "application/json" (ErrorBody message).

(** The rows that [handleCurrentPositions] pushes for one feed. *)
Definition position_rows (routeId vehicleId : option string)
    (feed : FeedMessage) : list PositionOut :=
  flat_map
    (fun en =>
       match vehicle en with
       | None => []
       | Some vp =>
           if truthy routeId
              && differs (route_id (vp_trip vp)) (or_default routeId "")
           then []
           else if truthy vehicleId
                   && differs (id (vp_vehicle vp)) (or_default vehicleId "")
           then []
           else
             [mkPositionOut (id (vp_vehicle vp)) (trip_id (vp_trip vp))
                (route_id (vp_trip vp))
                (position_field latitude (vp_position vp))
                (position_field longitude (vp_position vp))
                (position_field bearing (vp_position vp))
                (position_field speed (vp_position vp))
                (vp_timestamp vp)]
       end)
    (entity feed).

(** The features that [handleGeoJSONPositions] pushes for one feed. *)
Definition position_features (routeId : option string) (feed : FeedMessage)
  : list Feature :=
  flat_map
    (fun en =>
       match vehicle en with
       | None => []
       | Some vp =>
           if truthy routeId
              && differs (route_id (vp_trip vp)) (or_default routeId "")
           then []
           else if js_truthy (position_field latitude (vp_position vp))
                   && js_truthy (position_field longitude (vp_position vp))
           then
             [mkFeature
                (position_field longitude (vp_position vp),
                 position_field latitude (vp_position vp))
                (id (vp_vehicle vp)) (trip_id (vp_trip vp))
                (route_id (vp_trip vp))
                (position_field bearing (vp_position vp))
                (position_field speed (vp_position vp))
                (vp_timestamp vp)]
           else []
       end)
    (entity feed).

(** [SELECT * FROM table WHERE provider_key = ? AND date >= ? AND date <= ?
    ... ORDER BY date] of [handleHistoricalRange]; [keep] stands for the
    optional conditions on route and stop.  Dates are TEXT and compare as
    strings. *)
Definition range_rows {R : Type} (provider_of date_of : R -> string)
    (keep : R -> bool) (provider startDate endDate : string) (table : list R)
  : list R :=
  sort_by (fun a b => String.leb (date_of a) (date_of b))
    (filter
       (fun r =>
          String.eqb (provider_of r) provider
          && String.leb startDate (date_of r)
          && String.leb (date_of r) endDate
          && keep r)
       table).

(** [handleHistoricalRange], given the query parameters of the URL; the
    statement is taken to run, so the [catch] clause is not entered. *)
Definition handleHistoricalRange (env : Env)
    (provider feed_kind start end_ route_id stop_id : option string)
  : Response :=
  let provider := or_default provider "stm" in
  let feedKind := or_default feed_kind "gtfsrt_trip_updates" in
  if negb (truthy start) || negb (truthy end_)
  then errorResponse "start and end date parameters required" 400
  else
    let startDate := or_default start "" in
    let endDate := or_default end_ "" in
    let data :=
      if String.eqb feedKind "gtfsrt_trip_updates" then
        DelayRows
          (range_rows d_provider_key d_date
             (fun r =>
                (if truthy route_id
                 then opt_string_eqb (d_route_id r) (or_default route_id "")
                 else true)
                && (if truthy stop_id
                    then opt_string_eqb (d_stop_id r) (or_default stop_id "")
                    else true))
             provider startDate endDate (rt_delays_daily (DB env)))
      else
        PositionRows
          (range_rows p_provider_key p_date
             (fun r =>
                if truthy route_id
                then opt_string_eqb (p_route_id r) (or_default route_id "")
                else true)
             provider startDate endDate (rt_positions_daily (DB env))) in
    jsonResponse
      (RangeBody "daily" startDate endDate feedKind (rows_length data) data).

(** The dates of the rows of an answer, in the order of the answer. *)
Definition row_dates (data : Rows) : list string :=
  match data with
  | DelayRows l => map d_date l
  | PositionRows l => map p_date l
  end.

Definition hot_summary (files : list HotFile) : HotSummary :=
  match files with
  | [] => mkHotSummary None None 0
  | f :: _ =>
      mkHotSummary
        (if String.eqb (file_key f) "" then None else Some (file_key f))
        (Some (file_uploaded f)) (Z.of_nat (length files))
  end.

Section Current.

Variable TextDecoder_decode : list byte -> string.
Variable fmtYMD_Montreal : Z -> string.

(** [handleCurrentPositions], given the query parameters of the URL and run
    at instant [now].  [None]: the decode has not finished within [fuel];
    [Throw]: it threw. *)
Definition handleCurrentPositions (fuel : nat) (env : Env) (now : Z)
    (provider route_id vehicle_id : option string)
  : option (result Response) :=
  let provider := or_default provider "stm" in
  match listHotRTFiles fmtYMD_Montreal env now provider
          "gtfsrt_vehicle_positions" 24 with
  | [] =>
      Some (Ret (jsonResponse (NoRecentBody "No recent vehicle positions found")))
  | latest :: _ =>
      match readHotRTFile env (file_key latest) with
      | None => Some (Ret (errorResponse "Failed to read RT file" 500))
      | Some ab =>
          match parseFeedMessage TextDecoder_decode fuel ab with
          | None => None
          | Some (Throw e) => Some (Throw e)
          | Some (Ret feed) =>
              Some (Ret (jsonResponse
                           (PositionsBody
                              (position_rows route_id vehicle_id feed)
                              (header_timestamp feed))))
          end
      end
  end.

(** [handleGeoJSONPositions]. *)
Definition handleGeoJSONPositions (fuel : nat) (env : Env) (now : Z)
    (provider route_id : option string) : option (result Response) :=
  let provider := or_default provider "stm" in
  match listHotRTFiles fmtYMD_Montreal env now provider
          "gtfsrt_vehicle_positions" 24 with
  | [] => Some (Ret (geojsonResponse []))
  | latest :: _ =>
      match readHotRTFile env (file_key latest) with
      | None => Some (Ret (errorResponse "Failed to read RT file" 500))
      | Some ab =>
          match parseFeedMessage TextDecoder_decode fuel ab with
          | None => None
          | Some (Throw e) => Some (Throw e)
          | Some (Ret feed) =>
              Some (Ret (geojsonResponse (position_features route_id feed)))
          end
      end
  end.

(** [handleStatus] run at instant [now]. *)
Definition handleStatus (env : Env) (now : Z) : Response :=
  let provider := "stm"%string in
  let tripFiles :=
    listHotRTFiles fmtYMD_Montreal env now provider "gtfsrt_trip_updates" 24 in
  let posFiles :=
    listHotRTFiles fmtYMD_Montreal env now provider
      "gtfsrt_vehicle_positions" 24 in
  jsonResponse (StatusBody (hot_summary tripFiles) (hot_summary posFiles)).

End Current.

(** A vehicle whose position object carries no coordinate. *)
Definition without_coordinate (p : option Position) : Prop :=
  match p with
  | None => True
  | Some q => q = mkPosition None None None None
  end.

Definition vehicle_without_coordinate (en : Entity) : Prop :=
  match vehicle en with
  | None => True
  | Some vp => without_coordinate (vp_position vp)
  end.

(** A float property that holds no number. *)
Definition no_number (v : JsFloat) : Prop :=
  match v with
  | FNum _ => False
  | _ => True
  end.

End Handlers.

(** A position message of one [double] field (the odometer, field 5), one
    that begins with a latitude, and a vehicle feed that carries the
    latter. *)
Definition odometer_position : list byte :=
  [x29; x00; x00; x00; x00; x00; x00; x00; x00].

Definition latitude_position : list byte := [x0d; x00; x00; x36; x42].

Definition vehicle_feed (position : list byte) : list byte :=
  bytes_field 2
    (bytes_field 1 (list_byte_of_string "v1")
     ++ bytes_field 4
          (bytes_field 2 (bytes_field 1 (list_byte_of_string "bus"))
           ++ bytes_field 3 position)).

(** The night of the return to standard time in 2025 (Sunday 2 November, a
    day of 25 hours): 23:30 on the 2nd, Montreal time, and a snapshot
    ingested half an hour earlier. *)
Definition late_on_2_november : Z := Toronto.utc 2025 11 3 4 30 0.

Definition env_on_2_november : Env :=
  match saveRT_at 100 empty_env (late_on_2_november - 1800000) "stm" 7
          "gtfsrt_trip_updates" sample_feed with
  | Some (env, _) => env
  | None => empty_env
  end.

(** A database whose daily delay table holds three days of one source. *)
Definition three_days : Env :=
  mkEnv [] [] [] []
    (mkAggTables []
       [mkDelayRow "stm" "2025-03-09" None (Some "10"%string)
          (Some "S1"%string) None (Some (120, 2)) (Some 90) (Some 30) None
          None None 2 None None;
        mkDelayRow "stm" "2025-03-07" None (Some "10"%string)
          (Some "S1"%string) None (Some (60, 1)) (Some 60) (Some 60) None
          None None 1 None None;
        mkDelayRow "stm" "2025-03-08" None (Some "11"%string)
          (Some "S2"%string) None (Some (30, 1)) (Some 30) (Some 30) None
          None None 1 None None]
       [] []).

(** The store after a vehicle snapshot without coordinates is ingested at
    23:59:00 on 9 March 2025. *)
Definition env_with_vehicles : Env :=
  match saveRT_at 100 empty_env evening_of_9_march "stm" 8
          "gtfsrt_vehicle_positions" (vehicle_feed odometer_position) with
  | Some (env, _) => env
  | None => empty_env
  end.

(** The router's feed timestamp, when it reports one, is the timestamp the
    ingestion worker holds. *)
Definition timestamp_agrees (reported stored : option Number) : Prop :=
  match reported with
  | Some t => stored = Some t
  | None => True
  end.

(** ** Notions used in the proofs *)

(** [z] is at most the Number [p]. *)
Inductive Nle (z : Z) : Number -> Prop :=
| Nle_fin (w : Z) : z <= w -> Nle z (Fin w)
| Nle_inf : Nle z PosInf.

(** Turns left before a cursor reaches [e]. *)
Definition gap (pos : Number) (e : Z) : nat :=
  match pos with
  | Fin z => Z.to_nat (e - z)
  | PosInf => O
  end.

(** The head of a list may precede every other element. *)
Definition head_first {A : Type} (le : A -> A -> bool) (l : list A) : Prop :=
  match l with
  | [] => True
  | x :: r => forall y, In y r -> le x y = true
  end.

(** The position at which the top-level loop of [parseFeedMeta] goes on
    after the turn that starts at [pos]: the declared end of a
    length-delimited record, the end of any other field as [skipField] gives
    it. *)
Definition turn (u8 : list byte) (pos : Number) : Number :=
  let r := readVarint u8 pos in
  if JS.band (value r) 7 =? 2 then
    JS.add (next (readVarint u8 (next r))) (value (readVarint u8 (next r)))
  else skipField u8 (next r) (JS.band (value r) 7).

(** The positions at which the top-level loop of [parseFeedMeta] reads a
    tag: the start of the buffer, and where a turn started inside the buffer
    leads. *)
Inductive met (u8 : list byte) : Number -> Prop :=
| met_start : met u8 (Fin 0)
| met_turn (pos : Number) :
    met u8 pos -> JS.ltb pos (u8_length u8) = true -> met u8 (turn u8 pos).

(** Every header record that the top-level loop meets (a tag of field 1 with
    wire type 2, read at a position the loop reaches) declares an end inside
    the buffer.  Bytes that the loop skips, inside other records, are not
    looked at. *)
Definition headers_end_inside (u8 : list byte) : Prop :=
  forall z : Z,
    met u8 (Fin z) ->
    0 <= z < Z.of_nat (length u8) ->
    JS.band (value (readVarint u8 (Fin z))) 7 = 2 ->
    JS.sar (value (readVarint u8 (Fin z))) 3 = 1 ->
    exists e : Z,
      JS.add (next (readVarint u8 (next (readVarint u8 (Fin z)))))
        (value (readVarint u8 (next (readVarint u8 (Fin z)))))
      = Fin e
      /\ e <= Z.of_nat (length u8).
(** ** Number arithmetic on the safe-integer range *)

Lemma round_nearest_even_small (z : Z) :
  0 <= z < 2 ^ 53 -> round_nearest_even z = z.
Proof.
  intros Hz. unfold round_nearest_even.
  assert (Hlog : Z.log2 z < 53).
  { destruct (Z.eq_dec z 0) as [->|Hnz]; [reflexivity|].
    apply Z.log2_lt_pow2; lia. }
  destruct (Z.leb_spec (Z.log2 z - 52) 0); [reflexivity|lia].
Qed.

Lemma of_Z_small (z : Z) : 0 <= z <= 2 ^ 53 -> JS.of_Z z = Fin z.
Proof.
  intros Hz. destruct (Z.eq_dec z (2 ^ 53)) as [->|Hne].
  { vm_compute. reflexivity. }
  unfold JS.of_Z. rewrite round_nearest_even_small by lia.
  destruct (Z.leb_spec (2 ^ 1024) z) as [Hbig|_]; [|reflexivity].
  exfalso. assert (2 ^ 53 < 2 ^ 1024) by (apply Z.pow_lt_mono_r; lia). lia.
Qed.

Lemma add_small (a b : Z) :
  0 <= a + b <= 2 ^ 53 -> JS.add (Fin a) (Fin b) = Fin (a + b).
Proof. intros H. simpl. now apply of_Z_small. Qed.

(** Past [2^53] the increment [pos++] no longer moves the cursor. *)
Lemma add_one_stalls : JS.add (Fin (2 ^ 53)) (Fin 1) = Fin (2 ^ 53).
Proof. vm_compute. reflexivity. Qed.

Lemma add_one_below_stall (z : Z) :
  0 <= z <= 2 ^ 53 ->
  exists z', JS.add (Fin z) (Fin 1) = Fin z' /\ z <= z' <= 2 ^ 53.
Proof.
  intros Hz. destruct (Z.eq_dec z (2 ^ 53)) as [->|Hne].
  - exists (2 ^ 53). rewrite add_one_stalls. split; [reflexivity|lia].
  - exists (z + 1). rewrite add_small by lia. split; [reflexivity|lia].
Qed.

(** ** Reading at and past the end of the buffer *)

Lemma u8_get_past_end (u8 : list byte) (z : Z) :
  Z.of_nat (length u8) <= z -> u8_get u8 (Fin z) = None.
Proof.
  intros Hz. unfold u8_get. destruct (0 <=? z); [|reflexivity].
  apply nth_error_None. lia.
Qed.

Lemma readVarint_loop_undefined (n : nat) (u8 : list byte) (x s : Z)
    (pos : Number) :
  u8_get u8 pos = None ->
  readVarint_loop n u8 x s pos = (Z.lor x 0, JS.add pos (Fin 1)).
Proof.
  intros Hget. destruct n; cbn [readVarint_loop]; rewrite Hget;
    cbn [u8_and]; rewrite Z.shiftl_0_l; reflexivity.
Qed.

(** A varint read that starts past the end sees [undefined] at once: it
    yields the value [0] and a cursor one further. *)
Lemma readVarint_past_end (u8 : list byte) (z : Z) :
  Z.of_nat (length u8) <= z ->
  readVarint u8 (Fin z) = mkVarint (Fin 0) (JS.add (Fin z) (Fin 1)).
Proof.
  intros Hz. unfold readVarint.
  rewrite readVarint_loop_undefined by (now apply u8_get_past_end).
  reflexivity.
Qed.

Lemma ltb_below_stall (z : Z) (end_ : Number) :
  z <= 2 ^ 53 -> JS.ltb (Fin (2 ^ 53)) end_ = true ->
  JS.ltb (Fin z) end_ = true.
Proof.
  intros Hz. destruct end_ as [e|]; cbn [JS.ltb]; [|reflexivity].
  rewrite !Z.ltb_lt. lia.
Qed.

(** Once the cursor of [parseHeaderTimestamp] is past the end of the buffer
    and the declared end lies beyond [2^53], the loop never leaves: every
    turn reads two [undefined] bytes, and the cursor stops moving at [2^53]. *)
Lemma parseHeaderTimestamp_loop_stalls (u8 : list byte) (end_ : Number) :
  JS.ltb (Fin (2 ^ 53)) end_ = true ->
  forall (fuel : nat) (z : Z) (ts : option Number),
    Z.of_nat (length u8) <= z <= 2 ^ 53 ->
    parseHeaderTimestamp_loop fuel u8 (Fin z) end_ ts = None.
Proof.
  intros Hend. induction fuel as [|fuel IH]; intros z ts Hz; [reflexivity|].
  cbn [parseHeaderTimestamp_loop].
  rewrite ltb_below_stall by (lia || exact Hend).
  rewrite readVarint_past_end by lia. cbn [next value].
  destruct (add_one_below_stall z) as (z1 & E1 & Hz1); [lia|].
  rewrite E1.
  change (JS.sar (Fin 0) 3 =? 3) with false.
  change (JS.band (Fin 0) 7) with 0.
  cbn [andb skipField Z.eqb].
  rewrite readVarint_past_end by lia. cbn [next].
  destruct (add_one_below_stall z1) as (z2 & E2 & Hz2); [lia|].
  rewrite E2. apply IH. lia.
Qed.

Lemma round_nearest_even_ge (y : Z) :
  0 <= y -> Z.min y (2 ^ 53) <= round_nearest_even y.
Proof.
  intros Hy. destruct (Z.lt_ge_cases y (2 ^ 53)) as [Hlt|Hge].
  { rewrite round_nearest_even_small by lia. lia. }
  unfold round_nearest_even.
  assert (Hlog : 53 <= Z.log2 y) by (apply Z.log2_le_pow2; lia).
  destruct (Z.leb_spec (Z.log2 y - 52) 0) as [Hle|He]; [lia|].
  set (e := Z.log2 y - 52) in *.
  assert (Hq : 2 ^ 52 <= Z.shiftr y e).
  { rewrite Z.shiftr_div_pow2 by lia.
    apply Z.div_le_lower_bound; [apply Z.pow_pos_nonneg; lia|].
    rewrite <- Z.pow_add_r by lia.
    replace (e + 52) with (Z.log2 y) by (unfold e; lia).
    apply Z.log2_spec. lia. }
  set (q := Z.shiftr y e) in *.
  assert (Hq' : q <= (if (Z.shiftl 1 (e - 1) <? Z.land y (Z.ones e))
                          || ((Z.land y (Z.ones e) =? Z.shiftl 1 (e - 1)) && Z.odd q)
                      then q + 1 else q)).
  { destruct (_ || _); lia. }
  rewrite Z.shiftl_mul_pow2 by lia.
  assert (H2 : 2 ^ 1 <= 2 ^ e) by (apply Z.pow_le_mono_r; lia).
  change (2 ^ 1) with 2 in H2.
  change (2 ^ 53) with (2 ^ 52 * 2).
  apply Z.le_trans with (2 ^ 52 * 2); [lia|].
  apply Z.mul_le_mono_nonneg; lia.
Qed.

(** ** Facts about [readVarint] *)


Lemma round_nearest_even_nonneg (y : Z) : 0 <= y -> 0 <= round_nearest_even y.
Proof.
  intros Hy. pose proof (round_nearest_even_ge y Hy) as H.
  assert (0 < 2 ^ 53) by (apply Z.pow_pos_nonneg; lia). lia.
Qed.

Lemma of_Z_lower (z y : Z) :
  0 <= y -> z <= y -> z <= 2 ^ 53 -> Nle z (JS.of_Z y).
Proof.
  intros Hy Hzy Hz. unfold JS.of_Z.
  destruct (2 ^ 1024 <=? round_nearest_even y); [constructor|].
  constructor. pose proof (round_nearest_even_ge y Hy). lia.
Qed.

Lemma of_Z_nonneg (y : Z) : 0 <= y -> Nle 0 (JS.of_Z y).
Proof.
  intros Hy. apply of_Z_lower; lia.
Qed.

Lemma byteZ_range (b : byte) : 0 <= byteZ b < 256.
Proof.
  unfold byteZ. pose proof (Byte.to_N_bounded b) as H.
  split; [apply N2Z.is_nonneg|]. lia.
Qed.

Lemma u8_and_nonneg (b : option byte) (m : Z) : 0 <= m -> 0 <= u8_and b m.
Proof.
  intros Hm. destruct b as [c|]; cbn [u8_and]; [|lia].
  apply Z.land_nonneg. now right.
Qed.

Lemma u8_get_some_range (u8 : list byte) (z : Z) (b : byte) :
  u8_get u8 (Fin z) = Some b -> 0 <= z < Z.of_nat (length u8).
Proof.
  unfold u8_get. destruct (Z.leb_spec 0 z) as [Hz|Hz]; [|discriminate].
  intros H. assert (Hn : nth_error u8 (Z.to_nat z) <> None) by congruence.
  apply nth_error_Some in Hn. lia.
Qed.

Lemma u8_get_app (pre post : list byte) (b : byte) :
  u8_get (pre ++ b :: post) (Fin (Z.of_nat (length pre))) = Some b.
Proof.
  unfold u8_get. destruct (Z.leb_spec 0 (Z.of_nat (length pre))); [|lia].
  rewrite Nat2Z.id, nth_error_app2 by lia.
  now rewrite Nat.sub_diag.
Qed.

(** The loop moves the cursor strictly forward, never further than one past
    the end of the buffer (or one past its start, when that lies beyond), and
    its accumulator stays non-negative. *)
Lemma readVarint_loop_progress (u8 : list byte) :
  safe_length u8 ->
  forall (n : nat) (x s z : Z),
    0 <= x -> 0 <= s -> 0 <= z -> z + 1 <= 2 ^ 53 ->
    exists x' z',
      readVarint_loop n u8 x s (Fin z) = (x', Fin z')
      /\ 0 <= x' /\ z < z' <= Z.max z (Z.of_nat (length u8)) + 1.
Proof.
  unfold safe_length. intros Hsafe.
  induction n as [|n IH]; intros x s z Hx Hs Hz Hz53; cbn [readVarint_loop];
    rewrite add_small by lia;
    assert (Hx' : 0 <= Z.lor x (Z.shiftl (u8_and (u8_get u8 (Fin z)) 127) s))
      by (apply Z.lor_nonneg; split; [lia|];
          apply Z.shiftl_nonneg, u8_and_nonneg; lia).
  - destruct (_ =? 0); eexists _, _; (split; [reflexivity|split; [exact Hx'|lia]]).
  - destruct (u8_and (u8_get u8 (Fin z)) 128 =? 0) eqn:Hc.
    + eexists _, _; (split; [reflexivity|split; [exact Hx'|lia]]).
    + destruct (u8_get u8 (Fin z)) as [b|] eqn:Hb; [|discriminate].
      apply u8_get_some_range in Hb.
      destruct (IH (Z.lor x (Z.shiftl (u8_and (Some b) 127) s)) (s + 7) (z + 1))
        as (x' & z' & E & Hx'' & Hz'); try lia.
      exists x', z'. split; [exact E|]. split; [exact Hx''|lia].
Qed.

Lemma readVarint_progress (u8 : list byte) (z : Z) :
  safe_length u8 -> 0 <= z -> z + 1 <= 2 ^ 53 ->
  exists z',
    next (readVarint u8 (Fin z)) = Fin z'
    /\ z < z' <= Z.max z (Z.of_nat (length u8)) + 1
    /\ Nle 0 (value (readVarint u8 (Fin z))).
Proof.
  intros Hsafe Hz Hz53. unfold readVarint.
  destruct (readVarint_loop_progress u8 Hsafe (length u8) 0 0 z)
    as (x' & z' & E & Hx' & Hz'); try lia.
  rewrite E. exists z'. cbn [next value].
  split; [reflexivity|]. split; [exact Hz'|]. now apply of_Z_nonneg.
Qed.

(** The counter of [readVarint_loop] is never exhausted: any two counters
    that cover the bytes from the cursor on give the same result. *)
Lemma readVarint_loop_budget (u8 : list byte) :
  safe_length u8 ->
  forall (n m : nat) (x s z : Z),
    0 <= z ->
    Z.of_nat (length u8) - z <= Z.of_nat n ->
    Z.of_nat (length u8) - z <= Z.of_nat m ->
    readVarint_loop n u8 x s (Fin z) = readVarint_loop m u8 x s (Fin z).
Proof.
  unfold safe_length. intros Hsafe.
  induction n as [|n IH]; intros m x s z Hz Hn Hm.
  - rewrite !readVarint_loop_undefined by (apply u8_get_past_end; lia).
    reflexivity.
  - destruct m as [|m].
    + rewrite !readVarint_loop_undefined by (apply u8_get_past_end; lia).
      reflexivity.
    + cbn [readVarint_loop].
      destruct (u8_and (u8_get u8 (Fin z)) 128 =? 0) eqn:Hc; [reflexivity|].
      destruct (u8_get u8 (Fin z)) as [b|] eqn:Hb; [|discriminate].
      apply u8_get_some_range in Hb.
      rewrite add_small by lia. apply IH; lia.
Qed.

Lemma varint_value_nonneg (bs : list byte) : 0 <= varint_value bs.
Proof.
  induction bs as [|b bs IH]; cbn [varint_value]; [lia|].
  apply Z.lor_nonneg. split.
  - apply Z.land_nonneg. now right.
  - now apply Z.shiftl_nonneg.
Qed.

Lemma varint_ok_nonempty (bs : list byte) :
  varint_ok bs = true -> (1 <= length bs)%nat.
Proof. destruct bs; [discriminate|cbn; lia]. Qed.

(** Reading a well-formed varint that sits in the buffer after [pre]. *)
Lemma readVarint_loop_app (bs : list byte) :
  forall (n : nat) (pre post : list byte) (x s : Z),
    varint_ok bs = true ->
    (length bs <= S n)%nat ->
    0 <= s ->
    Z.of_nat (length pre) + Z.of_nat (length bs) <= 2 ^ 53 ->
    readVarint_loop n (pre ++ bs ++ post) x s (Fin (Z.of_nat (length pre)))
    = (Z.lor x (Z.shiftl (varint_value bs) s),
       Fin (Z.of_nat (length pre) + Z.of_nat (length bs))).
Proof.
  induction bs as [|b bs IH]; intros n pre post x s Hok Hlen Hs Hsafe;
    [discriminate|].
  cbn [varint_ok] in Hok. cbn [length] in Hlen, Hsafe.
  assert (Hget : u8_get (pre ++ (b :: bs) ++ post)
                   (Fin (Z.of_nat (length pre))) = Some b)
    by (cbn [app]; apply u8_get_app).
  assert (Hstep : forall k,
             readVarint_loop k (pre ++ (b :: bs) ++ post) x s
               (Fin (Z.of_nat (length pre)))
             = let x' := Z.lor x (Z.shiftl (Z.land (byteZ b) 127) s) in
               if Z.land (byteZ b) 128 =? 0
               then (x', Fin (Z.of_nat (length pre) + 1))
               else match k with
                    | O => (x', Fin (Z.of_nat (length pre) + 1))
                    | S k' =>
                        readVarint_loop k' (pre ++ (b :: bs) ++ post) x'
                          (s + 7) (Fin (Z.of_nat (length pre) + 1))
                    end).
  { intros k. destruct k; cbn [readVarint_loop]; rewrite Hget; cbn [u8_and];
      rewrite add_small by lia; reflexivity. }
  rewrite Hstep. cbv zeta.
  destruct (Z.land (byteZ b) 128 =? 0) eqn:Hc.
  - destruct bs; [|discriminate]. cbn [varint_value length].
    rewrite Z.shiftl_0_l, Z.lor_0_r. reflexivity.
  - pose proof (varint_ok_nonempty bs Hok) as Hne.
    destruct n as [|n]; [lia|].
    replace (pre ++ (b :: bs) ++ post) with ((pre ++ [b]) ++ bs ++ post)
      by (rewrite <- app_assoc; reflexivity).
    replace (Z.of_nat (length pre) + 1) with (Z.of_nat (length (pre ++ [b])))
      by (rewrite length_app; cbn [length]; lia).
    rewrite IH; try assumption; try lia.
    2:{ rewrite length_app; cbn [length]; lia. }
    rewrite length_app. cbn [length varint_value].
    f_equal.
    + rewrite Z.shiftl_lor, Z.shiftl_shiftl by lia.
      rewrite Z.lor_assoc. do 2 f_equal. lia.
    + f_equal. lia.
Qed.

Lemma readVarint_app (pre bs post : list byte) :
  varint_ok bs = true ->
  Z.of_nat (length pre) + Z.of_nat (length bs) <= 2 ^ 53 ->
  readVarint (pre ++ bs ++ post) (Fin (Z.of_nat (length pre)))
  = mkVarint (JS.of_Z (varint_value bs))
      (Fin (Z.of_nat (length pre) + Z.of_nat (length bs))).
Proof.
  intros Hok Hsafe. unfold readVarint.
  rewrite readVarint_loop_app; try assumption; try lia.
  - rewrite Z.shiftl_0_r, Z.lor_0_l. reflexivity.
  - rewrite !length_app. lia.
Qed.

(** ** The header loop returns whenever its end lies inside the buffer *)

Lemma skipField_lower (u8 : list byte) (z wt : Z) :
  safe_length u8 -> 0 <= z <= Z.of_nat (length u8) + 1 ->
  Nle z (skipField u8 (Fin z) wt).
Proof.
  intros Hsafe Hz. pose proof Hsafe as Hlen. unfold safe_length in Hlen.
  unfold skipField.
  destruct (readVarint_progress u8 z Hsafe) as (z' & En & Hz' & Hv); try lia.
  destruct (wt =? 0).
  { rewrite En. constructor. lia. }
  destruct (wt =? 1).
  { rewrite add_small by lia. constructor. lia. }
  destruct (wt =? 2).
  { rewrite En. inversion Hv as [v Hv0 Ev|Ev]; cbn [JS.add]; [|constructor].
    apply of_Z_lower; lia. }
  destruct (wt =? 5).
  { rewrite add_small by lia. constructor. lia. }
  constructor. lia.
Qed.

Lemma parseHeaderTimestamp_loop_returns (u8 : list byte) (e : Z) :
  safe_length u8 -> e <= Z.of_nat (length u8) ->
  forall (fuel : nat) (pos : Number) (ts : option Number),
    Nle 0 pos -> (gap pos e < fuel)%nat ->
    exists r, parseHeaderTimestamp_loop fuel u8 pos (Fin e) ts = Some r.
Proof.
  intros Hsafe He. pose proof Hsafe as Hlen. unfold safe_length in Hlen.
  induction fuel as [|fuel IH]; intros pos ts Hpos Hgap; [lia|].
  cbn [parseHeaderTimestamp_loop].
  destruct pos as [z|]; cbn [JS.ltb]; [|eexists; reflexivity].
  inversion Hpos as [w Hz0 Ew|]; subst.
  destruct (Z.ltb_spec z e) as [Hlt|Hge]; [|eexists; reflexivity].
  cbn [gap] in Hgap.
  destruct (readVarint_progress u8 z Hsafe) as (z1 & E1 & Hz1 & _); try lia.
  rewrite E1.
  destruct ((JS.sar (value (readVarint u8 (Fin z))) 3 =? 3)
            && (JS.band (value (readVarint u8 (Fin z))) 7 =? 0)).
  - destruct (readVarint_progress u8 z1 Hsafe) as (z2 & E2 & Hz2 & _);
      try lia.
    rewrite E2. apply IH; [constructor; lia|]. cbn [gap]. lia.
  - pose proof (skipField_lower u8 z1
                  (JS.band (value (readVarint u8 (Fin z))) 7) Hsafe) as Hs.
    destruct Hs as [w Hw|]; [lia| |].
    + apply IH; [constructor; lia|]. cbn [gap]. lia.
    + apply IH; [constructor|]. cbn [gap]. lia.
Qed.

(** ** Tags: field number and wire type of a key below [2^32] *)

Lemma band_key (k : Z) : 0 <= k < 2 ^ 32 -> JS.band (Fin k) 7 = Z.land k 7.
Proof.
  intros Hk. unfold JS.band, JS.ToInt32. rewrite Z.mod_small by lia.
  destruct (Z.leb_spec (2 ^ 31) k); [|reflexivity].
  change 7 with (Z.ones 3). rewrite !Z.land_ones by lia.
  replace (k - 2 ^ 32) with (k + (- 2 ^ 29) * 2 ^ 3) by lia.
  apply Z.mod_add. lia.
Qed.

Lemma sar_key_eqb (k c : Z) :
  0 <= k < 2 ^ 32 -> 0 <= c < 2 ^ 28 ->
  (JS.sar (Fin k) 3 =? c) = (Z.shiftr k 3 =? c).
Proof.
  intros Hk Hc. unfold JS.sar, JS.ToInt32. rewrite Z.mod_small by lia.
  destruct (Z.leb_spec (2 ^ 31) k); [|reflexivity].
  rewrite !Z.shiftr_div_pow2 by lia. change (2 ^ 3) with 8.
  destruct (Z.eqb_spec ((k - 2 ^ 32) / 8) c), (Z.eqb_spec (k / 8) c);
    try reflexivity; exfalso.
  - assert ((k - 2 ^ 32) / 8 < 0) by (apply Z.div_lt_upper_bound; lia). lia.
  - assert (2 ^ 28 <= k / 8) by (apply Z.div_le_lower_bound; lia). lia.
Qed.

(** ** The top-level loop of [parseFeedMeta] *)

(** Every turn of the top-level loop that completes moves the cursor
    forward, so the loop returns as soon as the header loops it starts do:
    on a buffer whose header records, those that the loop meets, end inside
    it, the decode returns. *)
Lemma parseFeedMeta_loop_returns (u8 : list byte) :
  safe_length u8 -> headers_end_inside u8 ->
  forall (fuel : nat) (pos cnt : Number) (ts : option Number),
    met u8 pos ->
    Nle 0 pos ->
    (gap pos (Z.of_nat (length u8)) + length u8 + 1 < fuel)%nat ->
    exists meta, parseFeedMeta_loop fuel u8 pos cnt ts = Some meta.
Proof.
  intros Hsafe Hhdr. pose proof Hsafe as Hlen. unfold safe_length in Hlen.
  induction fuel as [|fuel IH]; intros pos cnt ts Hmet Hpos Hfuel; [lia|].
  cbn [parseFeedMeta_loop]. unfold u8_length.
  destruct pos as [z|]; cbn [JS.ltb]; [|eexists; reflexivity].
  inversion Hpos as [w Hz0 Ew|]; subst.
  destruct (Z.ltb_spec z (Z.of_nat (length u8))) as [Hlt|Hge];
    [|eexists; reflexivity].
  cbn [gap] in Hfuel.
  assert (Hmet' : met u8 (turn u8 (Fin z))).
  { apply met_turn; [assumption|]. unfold u8_length. cbn [JS.ltb].
    apply Z.ltb_lt. lia. }
  unfold turn in Hmet'. cbv zeta in Hmet'.
  destruct (readVarint_progress u8 z Hsafe) as (z1 & E1 & Hz1 & _); try lia.
  assert (Hnext : forall p, Nle z1 p ->
             Nle 0 p /\ (gap p (Z.of_nat (length u8)) + length u8 + 1 < fuel)%nat).
  { intros p Hp. destruct Hp as [w Hw|]; (split; [constructor; lia|]);
      cbn [gap]; lia. }
  assert (Hsub : Nle z1
                   (JS.add (next (readVarint u8 (Fin z1)))
                      (value (readVarint u8 (Fin z1)))))
    by (apply (skipField_lower u8 z1 2 Hsafe); lia).
  destruct (Z.eqb_spec (JS.band (value (readVarint u8 (Fin z))) 7) 2)
    as [Hwt|Hwt].
  - rewrite E1 in Hmet'.
    rewrite E1.
    destruct (Z.eqb_spec (JS.sar (value (readVarint u8 (Fin z))) 3) 1)
      as [Hfn|Hfn].
    + destruct (Hhdr z Hmet ltac:(lia) Hwt Hfn) as (e & Ee & He).
      rewrite E1 in Ee. rewrite Ee in *.
      destruct (readVarint_progress u8 z1 Hsafe) as (z2 & E2 & Hz2 & _);
        try lia.
      unfold parseHeaderTimestamp. rewrite E2.
      destruct (parseHeaderTimestamp_loop_returns u8 e Hsafe He fuel (Fin z2)
                  None) as [r Er].
      { constructor. lia. }
      { cbn [gap]. lia. }
      rewrite Er. apply IH; [assumption|now apply Hnext..].
    + destruct (_ =? 2); (apply IH; [assumption|now apply Hnext..]).
  - rewrite E1 in Hmet'.
    rewrite E1.
    apply IH; [assumption|..]; apply Hnext;
      (apply skipField_lower; [assumption|lia]).
Qed.

Lemma parseFeedMeta_returns (u8 : list byte) (fuel : nat) :
  safe_length u8 -> headers_end_inside u8 ->
  (2 * length u8 + 1 < fuel)%nat ->
  exists meta, parseFeedMeta fuel u8 = Some meta.
Proof.
  intros Hsafe Hhdr Hfuel. unfold parseFeedMeta.
  apply parseFeedMeta_loop_returns; try assumption.
  - apply met_start.
  - constructor. lia.
  - cbn [gap]. lia.
Qed.
(** ** Termination of the decode (C10) *)

(** C10 (code evaluated at the failing input).  On the buffer
    [overlong_header] the decode never returns: whatever number of loop turns
    is allowed, [parseFeedMeta] has not finished.  The declared header length
    converts to [Infinity], so [parseHeaderTimestamp] runs with
    [end = Infinity] and its cursor, fed by reads past the end of the buffer,
    can never reach it. *)
Theorem parseFeedMeta_overlong_header_never_returns :
  forall fuel : nat, parseFeedMeta fuel overlong_header = None.
Proof.
  intros [|fuel]; [reflexivity|].
  assert (E0 : JS.ltb (Fin 0) (u8_length overlong_header) = true)
    by reflexivity.
  assert (E1 : readVarint overlong_header (Fin 0) = mkVarint (Fin 10) (Fin 1))
    by (vm_compute; reflexivity).
  assert (E2 : readVarint overlong_header (Fin 1) = mkVarint PosInf (Fin 148))
    by (vm_compute; reflexivity).
  unfold parseFeedMeta. cbn [parseFeedMeta_loop].
  rewrite E0, E1. cbn [next value].
  change (JS.band (Fin 10) 7 =? 2) with true.
  change (JS.sar (Fin 10) 3 =? 1) with true.
  cbv beta iota. rewrite E2. cbn [next value JS.add].
  unfold parseHeaderTimestamp.
  rewrite parseHeaderTimestamp_loop_stalls; [reflexivity|reflexivity|].
  change (Z.of_nat (length overlong_header)) with 148. lia.
Qed.


(** ** Entity count of a well-formed envelope (C2) *)

Lemma count_entities_cons (f : field) (fs : list field) :
  count_entities (f :: fs)
  = ((if is_entity f then 1 else 0) + count_entities fs)%nat.
Proof. unfold count_entities. cbn [filter]. now destruct (is_entity f). Qed.

Lemma envelope_bytes_cons (f : field) (fs : list field) :
  envelope_bytes (f :: fs) = field_bytes f ++ envelope_bytes fs.
Proof. reflexivity. Qed.

(** Close a case of the proof below: the loop goes on after the record. *)
Local Ltac resume Hcont cnt ts :=
  let ts' := fresh "ts'" in
  let E := fresh "E" in
  destruct (Hcont cnt ts ltac:(lia)) as [ts' E];
  exists ts'; rewrite <- E; do 2 f_equal; lia.

Lemma parseFeedMeta_loop_fields :
  forall (fs : list field) (pre : list byte) (fuel : nat) (cnt : Z)
         (ts : option Number),
    forallb field_ok fs = true ->
    safe_length (pre ++ envelope_bytes fs) ->
    0 <= cnt <= Z.of_nat (length pre) ->
    (length (envelope_bytes fs) + 1 < fuel)%nat ->
    exists ts',
      parseFeedMeta_loop fuel (pre ++ envelope_bytes fs)
        (Fin (Z.of_nat (length pre))) (Fin cnt) ts
      = Some (mkFeedMeta (Fin (cnt + Z.of_nat (count_entities fs))) ts').
Proof.
  induction fs as [|f fs IH]; intros pre fuel cnt ts Hok Hsafe Hcnt Hfuel.
  - destruct fuel as [|fuel]; [lia|]. cbn [parseFeedMeta_loop].
    cbn [envelope_bytes map concat]. rewrite app_nil_r.
    cbn [u8_length JS.ltb]. rewrite Z.ltb_irrefl.
    exists ts. cbn [count_entities filter length]. now rewrite Z.add_0_r.
  - cbn [forallb] in Hok. apply andb_true_iff in Hok as [Hf Hfs].
    rewrite envelope_bytes_cons in *.
    destruct f as [kb lb body]. unfold field_ok in Hf.
    cbn [f_key f_len f_body] in Hf.
    apply andb_true_iff in Hf as [Hf Hpay].
    apply andb_true_iff in Hf as [Hkb Hk32]. apply Z.ltb_lt in Hk32.
    unfold field_wire, field_key in *. cbn [f_key] in *.
    pose proof (varint_value_nonneg kb) as Hk0.
    pose proof (varint_ok_nonempty kb Hkb) as Hkne.
    unfold field_bytes in *. cbn [f_key f_len f_body] in *.
    set (rest := envelope_bytes fs) in *.
    set (u8 := pre ++ (kb ++ lb ++ body) ++ rest) in *.
    pose proof Hsafe as Hlen. unfold safe_length in Hlen.
    assert (Hu8len : length u8
                     = (length pre + length kb + length lb + length body
                        + length rest)%nat).
    { unfold u8. rewrite !length_app. lia. }
    rewrite !length_app in Hfuel.
    destruct fuel as [|fuel]; [lia|]. cbn [parseFeedMeta_loop].
    cbn [u8_length JS.ltb].
    destruct (Z.ltb_spec (Z.of_nat (length pre)) (Z.of_nat (length u8)));
      [|lia].
    (* the tag *)
    assert (Ekey : readVarint u8 (Fin (Z.of_nat (length pre)))
                   = mkVarint (Fin (varint_value kb))
                       (Fin (Z.of_nat (length pre) + Z.of_nat (length kb)))).
    { unfold u8. rewrite <- !app_assoc. rewrite readVarint_app by (assumption || lia).
      rewrite of_Z_small by lia. reflexivity. }
    rewrite Ekey. cbn [next value].
    rewrite band_key by lia.
    rewrite !sar_key_eqb by lia.
    (* what the loop does after this record *)
    assert (Hcont : forall cnt' ts0,
               0 <= cnt' <= Z.of_nat (length pre) + 1 ->
               exists ts',
                 parseFeedMeta_loop fuel u8
                   (Fin (Z.of_nat (length pre) + Z.of_nat (length kb)
                         + Z.of_nat (length lb) + Z.of_nat (length body)))
                   (Fin cnt') ts0
                 = Some (mkFeedMeta
                           (Fin (cnt' + Z.of_nat (count_entities fs))) ts')).
    { intros cnt' ts0 Hc'.
      replace u8 with ((pre ++ kb ++ lb ++ body) ++ rest)
        by (unfold u8; rewrite <- !app_assoc; reflexivity).
      replace (Z.of_nat (length pre) + Z.of_nat (length kb)
               + Z.of_nat (length lb) + Z.of_nat (length body))
        with (Z.of_nat (length (pre ++ kb ++ lb ++ body)))
        by (rewrite !length_app; lia).
      apply IH; try assumption.
      - unfold safe_length. rewrite !length_app in *. lia.
      - rewrite !length_app. lia.
      - lia. }
    rewrite count_entities_cons. unfold is_entity, field_wire, field_no, field_key.
    cbn [f_key].
    set (wt := Z.land (varint_value kb) 7) in *.
    set (fno := Z.shiftr (varint_value kb) 3) in *.
    destruct (Z.eqb_spec wt 2) as [Hwt2|Hwt2].
    + (* length-delimited *)
      rewrite Hwt2 in Hpay. cbn in Hpay.
      apply andb_true_iff in Hpay as [Hlb Hlv]. apply Z.eqb_eq in Hlv.
      assert (Elen : readVarint u8
                       (Fin (Z.of_nat (length pre) + Z.of_nat (length kb)))
                     = mkVarint (Fin (Z.of_nat (length body)))
                         (Fin (Z.of_nat (length pre) + Z.of_nat (length kb)
                               + Z.of_nat (length lb)))).
      { replace u8 with ((pre ++ kb) ++ lb ++ (body ++ rest))
          by (unfold u8; rewrite <- !app_assoc; reflexivity).
        replace (Z.of_nat (length pre) + Z.of_nat (length kb))
          with (Z.of_nat (length (pre ++ kb))) by (rewrite length_app; lia).
        rewrite readVarint_app by (assumption || rewrite length_app; lia).
        rewrite Hlv, of_Z_small by lia. reflexivity. }
      rewrite Elen. cbn [next value]. rewrite add_small by lia.
      cbn [andb].
      destruct (Z.eqb_spec fno 1) as [Hf1|Hf1].
      * (* header *)
        unfold parseHeaderTimestamp.
        destruct (parseHeaderTimestamp_loop_returns u8
                    (Z.of_nat (length pre) + Z.of_nat (length kb)
                     + Z.of_nat (length lb) + Z.of_nat (length body))
                    Hsafe ltac:(lia) fuel
                    (Fin (Z.of_nat (length pre) + Z.of_nat (length kb)
                          + Z.of_nat (length lb))) None) as [r Er].
        { constructor. lia. }
        { cbn [gap]. lia. }
        rewrite Er.
        destruct (Z.eqb_spec fno 2); [lia|].
        cbn [Nat.add]. apply Hcont. lia.
      * destruct (Z.eqb_spec fno 2) as [Hf2|Hf2].
        -- (* entity *)
           rewrite add_small by lia.
           destruct (Hcont (cnt + 1) ts ltac:(lia)) as [ts' Ets'].
           exists ts'. rewrite Ets'. do 3 f_equal. lia.
        -- cbn [Nat.add]. apply Hcont. lia.
    + (* every other wire type: skipField *)
      cbn [andb Nat.add]. unfold skipField.
      destruct (Z.eqb_spec wt 0) as [Hwt0|Hwt0].
      { apply andb_true_iff in Hpay as [Hlb Hbody].
        destruct lb; [|discriminate]. cbn [length] in *.
        assert (Eb : readVarint u8
                       (Fin (Z.of_nat (length pre) + Z.of_nat (length kb)))
                     = mkVarint (JS.of_Z (varint_value body))
                         (Fin (Z.of_nat (length pre) + Z.of_nat (length kb)
                               + Z.of_nat (length body)))).
        { replace u8 with ((pre ++ kb) ++ body ++ rest)
            by (unfold u8; rewrite <- !app_assoc; reflexivity).
          replace (Z.of_nat (length pre) + Z.of_nat (length kb))
            with (Z.of_nat (length (pre ++ kb))) by (rewrite length_app; lia).
          rewrite readVarint_app by (assumption || rewrite length_app; lia).
          reflexivity. }
        rewrite Eb. cbn [next].
        resume Hcont cnt ts. }
      destruct (Z.eqb_spec wt 1) as [Hwt1|Hwt1].
      { apply andb_true_iff in Hpay as [Hlb Hbody]. apply Z.eqb_eq in Hbody.
        destruct lb; [|discriminate]. cbn [length] in *.
        rewrite add_small by lia.
        resume Hcont cnt ts. }
      destruct (Z.eqb_spec wt 2) as [Hwt2'|_]; [lia|].
      destruct (Z.eqb_spec wt 5) as [Hwt5|Hwt5].
      { apply andb_true_iff in Hpay as [Hlb Hbody]. apply Z.eqb_eq in Hbody.
        destruct lb; [|discriminate]. cbn [length] in *.
        rewrite add_small by lia.
        resume Hcont cnt ts. }
      apply andb_true_iff in Hpay as [Hlb Hbody].
      destruct lb; [|discriminate]. destruct body; [|discriminate].
      cbn [length] in *.
      resume Hcont cnt ts.
Qed.

(** C2.  For every well-formed envelope (any sequence of well-formed
    top-level records, of any field numbers and wire types), the decode
    returns, and the entity count it returns is the number of top-level
    length-delimited records with field number 2. *)
Theorem parseFeedMeta_counts_entities (fs : list field) (fuel : nat) :
  forallb field_ok fs = true ->
  safe_length (envelope_bytes fs) ->
  (length (envelope_bytes fs) + 1 < fuel)%nat ->
  exists meta,
    parseFeedMeta fuel (envelope_bytes fs) = Some meta
    /\ entityCount meta = Fin (Z.of_nat (count_entities fs)).
Proof.
  intros Hok Hsafe Hfuel.
  destruct (parseFeedMeta_loop_fields fs [] fuel 0 None Hok Hsafe)
    as [ts' E]; cbn [length]; try lia.
  exists (mkFeedMeta (Fin (Z.of_nat (count_entities fs))) ts').
  split; [exact E|reflexivity].
Qed.

Lemma parseFeedMeta_counts_entities_witness :
  forallb field_ok sample_fields = true
  /\ (length (envelope_bytes sample_fields) + 1 < 40)%nat
  /\ count_entities sample_fields = 2%nat
  /\ exists meta,
       parseFeedMeta 40 (envelope_bytes sample_fields) = Some meta
       /\ entityCount meta = Fin (Z.of_nat (count_entities sample_fields)).
Proof.
  split; [reflexivity|]. split; [cbn; lia|]. split; [reflexivity|].
  apply (parseFeedMeta_counts_entities sample_fields 40).
  - reflexivity.
  - unfold safe_length. cbn. lia.
  - cbn. lia.
Defined.

(** ** The snapshot store under [saveRT] (C1, C4, C9) *)

Lemma prefix_app_cancel (a b c : string) :
  String.prefix (a ++ b) (a ++ c) = String.prefix b c.
Proof.
  induction a as [|x a IH]; cbn [String.append String.prefix]; [reflexivity|].
  destruct (ascii_dec x x) as [_|Hne]; [exact IH|now elim Hne].
Qed.

Lemma prefix_app (a b : string) : String.prefix a (a ++ b) = true.
Proof.
  induction a as [|x a IH]; cbn [String.append String.prefix];
    [now destruct b|].
  destruct (ascii_dec x x) as [_|Hne]; [exact IH|now elim Hne].
Qed.

Lemma hash_exists_count (t : RawTable) (env : Env) (pkey hash : string) :
  hash_exists t env pkey hash = true
  <-> (1 <= stored_count t env pkey hash)%nat.
Proof.
  unfold hash_exists, stored_count.
  change (fun r : RawRow =>
            String.eqb (provider_key r) pkey && String.eqb (hash_sha256 r) hash)
    with (has_fingerprint pkey hash).
  induction (raw_rows t env) as [|r rows IH]; cbn [existsb filter length].
  - split; [discriminate|lia].
  - destruct (has_fingerprint pkey hash r); cbn [orb length]; [|exact IH].
    split; [lia|reflexivity].
Qed.

Lemma hash_exists_false_count (t : RawTable) (env : Env) (pkey hash : string) :
  hash_exists t env pkey hash = false -> stored_count t env pkey hash = 0%nat.
Proof.
  intros H. pose proof (hash_exists_count t env pkey hash) as [_ Hc].
  destruct (stored_count t env pkey hash); [reflexivity|].
  rewrite Hc in H by lia. discriminate.
Qed.

Lemma has_fingerprint_true (pkey hash : string) (r : RawRow) :
  has_fingerprint pkey hash r = true
  <-> provider_key r = pkey /\ hash_sha256 r = hash.
Proof.
  unfold has_fingerprint. rewrite andb_true_iff, !String.eqb_eq. tauto.
Qed.

Lemma raw_rows_insert_same (t : RawTable) (r : RawRow) (env : Env) :
  raw_rows t (insert_raw t r env) = raw_rows t env ++ [r].
Proof. now destruct t. Qed.

Lemma raw_rows_insert_other (t t' : RawTable) (r : RawRow) (env : Env) :
  t' <> t -> raw_rows t' (insert_raw t r env) = raw_rows t' env.
Proof. destruct t, t'; intros H; try reflexivity; now elim H. Qed.

Lemma raw_rows_with_R2 (t : RawTable) (objs : list R2Object) (env : Env) :
  raw_rows t (with_R2 objs env) = raw_rows t env.
Proof. now destruct t. Qed.

Lemma raw_rows_with_log (t : RawTable) (l : LogRow) (env : Env) :
  raw_rows t (with_log l env) = raw_rows t env.
Proof. now destruct t. Qed.

Lemma stored_count_insert (t t' : RawTable) (r : RawRow) (env : Env)
    (pkey hash : string) :
  stored_count t' (insert_raw t r env) pkey hash
  = (stored_count t' env pkey hash
     + (if RawTable_eq_dec t' t
        then (if has_fingerprint pkey hash r then 1 else 0) else 0))%nat.
Proof.
  unfold stored_count. destruct (RawTable_eq_dec t' t) as [->|Hne].
  - rewrite raw_rows_insert_same, filter_app, length_app. cbn [filter].
    now destruct (has_fingerprint pkey hash r).
  - rewrite raw_rows_insert_other by assumption. lia.
Qed.

Lemma R2_get_put (objs : list R2Object) (k : string) (ab : list byte)
    (now : Z) :
  R2_get (R2_put objs k ab now) k = Some (mkR2Object k now ab).
Proof.
  unfold R2_get, R2_put. cbn [find key]. now rewrite String.eqb_refl.
Qed.

Lemma R2_get_put_other (objs : list R2Object) (path k : string)
    (ab : list byte) (now : Z) :
  k <> path -> R2_get (R2_put objs path ab now) k = R2_get objs k.
Proof.
  intros Hne. unfold R2_get, R2_put. cbn [find key].
  destruct (String.eqb path k) eqn:E;
    [apply String.eqb_eq in E; now elim Hne|].
  induction objs as [|o objs IH]; cbn [filter find]; [reflexivity|].
  destruct (String.eqb (key o) path) eqn:Eo; cbn [negb find].
  - apply String.eqb_eq in Eo. rewrite Eo, E. exact IH.
  - destruct (String.eqb (key o) k); [reflexivity|exact IH].
Qed.

Lemma R2_put_one_object (objs : list R2Object) (path : string)
    (ab : list byte) (now : Z) :
  filter (fun o => String.eqb (key o) path) (R2_put objs path ab now)
  = [mkR2Object path now ab].
Proof.
  unfold R2_put. cbn [filter key]. rewrite String.eqb_refl. f_equal.
  induction objs as [|o objs IH]; cbn [filter]; [reflexivity|].
  destruct (String.eqb (key o) path) eqn:Eo; cbn [negb filter];
    [exact IH|]. now rewrite Eo.
Qed.

Section IngestionProofs.

Variable sha256_digest : list byte -> list byte.
Variable fmtYMD_Montreal : Z -> string.
Variable fmtISO_Montreal : Z -> string.
Variable datetime_localtime : Z -> string.

Local Abbreviation save :=
  (saveRT sha256_digest fmtYMD_Montreal fmtISO_Montreal datetime_localtime).
Local Abbreviation fingerprint := (sha256Hex sha256_digest).
Local Abbreviation path_of := (storage_path fmtYMD_Montreal fmtISO_Montreal).

(** The raw tables after a [saveRT] that stored: one new row, carrying the
    source key and the fingerprint, in the table of the feed kind. *)
Lemma saveRT_raw_rows (fuel : nat) (env : Env) (now : Z) (pkey : string)
    (fid : Z) (kind : string) (ab : list byte) (env1 : Env) (r1 : SaveResult) :
  hash_exists (table_of_kind kind) env pkey (fingerprint ab) = false ->
  save fuel env now pkey fid kind ab = Some (env1, r1) ->
  exists row,
    provider_key row = pkey /\ hash_sha256 row = fingerprint ab
    /\ forall t',
         raw_rows t' env1
         = raw_rows t' env
             ++ (if RawTable_eq_dec t' (table_of_kind kind) then [row] else []).
Proof.
  intros Hex Hsave. unfold saveRT in Hsave. rewrite Hex in Hsave.
  destruct (parseFeedMeta fuel ab) as [meta|]; [|discriminate].
  injection Hsave as <- <-.
  eexists. split; [|split]; [| |intros t'].
  3:{ rewrite raw_rows_with_log.
      destruct (RawTable_eq_dec t' (table_of_kind kind)) as [->|Hne].
      - rewrite raw_rows_insert_same, raw_rows_with_R2. reflexivity.
      - rewrite raw_rows_insert_other by assumption.
        rewrite raw_rows_with_R2, app_nil_r. reflexivity. }
  all: reflexivity.
Qed.

(** [saveRT] returns whenever the decode of the blob does. *)
Lemma saveRT_returns (fuel : nat) (env : Env) (now : Z) (pkey : string)
    (fid : Z) (kind : string) (ab : list byte) (meta : FeedMeta) :
  parseFeedMeta fuel ab = Some meta ->
  exists env1 r1, save fuel env now pkey fid kind ab = Some (env1, r1).
Proof.
  intros Hparse. unfold saveRT. rewrite Hparse.
  destruct (hash_exists _ _ _ _); eexists _, _; reflexivity.
Qed.





End IngestionProofs.

(** ** The query router (C3, C5, C6, C7) *)

Lemma readVarint_loop_nonneg (u8 : list byte) :
  forall (n : nat) (x s : Z) (pos : Number),
    0 <= x -> 0 <= fst (readVarint_loop n u8 x s pos).
Proof.
  induction n as [|n IH]; intros x s pos Hx; cbn [readVarint_loop];
    assert (Hx' : 0 <= Z.lor x (Z.shiftl (u8_and (u8_get u8 pos) 127) s))
      by (apply Z.lor_nonneg; split; [lia|];
          apply Z.shiftl_nonneg, u8_and_nonneg; lia).
  - now destruct (_ =? 0).
  - destruct (_ =? 0); [exact Hx'|now apply IH].
Qed.

Lemma readVarint_value_nonneg (u8 : list byte) (pos : Number) :
  Nle 0 (value (readVarint u8 pos)).
Proof.
  unfold readVarint.
  pose proof (readVarint_loop_nonneg u8 (length u8) 0 0 pos ltac:(lia)) as H.
  destruct (readVarint_loop (length u8) u8 0 0 pos) as [x p].
  cbn [value]. now apply of_Z_nonneg.
Qed.

(** No bytes decode to a negative delay: whatever [parseStopTimeEvent]
    returns, its delay is absent or a non-negative Number. *)
Lemma parseStopTimeEvent_delay_nonneg (fuel : nat) (u8 : list byte)
    (start end_ : Number) (ev : Api.StopTimeEvent) (d : Number) :
  Api.parseStopTimeEvent fuel u8 start end_ = Some ev ->
  Api.delay ev = Some d -> Nle 0 d.
Proof.
  unfold Api.parseStopTimeEvent.
  assert (H : forall fuel pos ste,
             (forall d0, Api.delay ste = Some d0 -> Nle 0 d0) ->
             Api.parseStopTimeEvent_loop fuel u8 pos end_ ste = Some ev ->
             forall d0, Api.delay ev = Some d0 -> Nle 0 d0).
  { clear. induction fuel as [|fuel IH]; intros pos ste Hste;
      cbn [Api.parseStopTimeEvent_loop]; [discriminate|].
    destruct (JS.ltb pos end_).
    - destruct (_ && _).
      + apply IH. cbn [Api.delay]. intros d0 E. injection E as <-.
        apply readVarint_value_nonneg.
      + destruct (_ && _); apply IH; exact Hste.
    - intros E. injection E as <-. exact Hste. }
  intros Hp Hd. eapply H; [|exact Hp|exact Hd]. cbn [Api.delay]. discriminate.
Qed.

(** C3 (code evaluated at the failing input).  A delay of [-1] on the wire
    is read as the unsigned 64-bit pattern, which as a Number is [2^64]; a
    delay of [0] is read as [0], and an event without a delay field keeps the
    explicit absent value. *)
Theorem parseStopTimeEvent_reads_delay_unsigned :
  Api.parseStopTimeEvent 5 early_event (Fin 0) (u8_length early_event)
  = Some (Api.mkStopTimeEvent (Some (Fin (2 ^ 64))) None)
  /\ Api.parseStopTimeEvent 5 on_time_event (Fin 0) (u8_length on_time_event)
     = Some (Api.mkStopTimeEvent (Some (Fin 0)) None)
  /\ Api.parseStopTimeEvent 5 [] (Fin 0) (u8_length [])
     = Some (Api.mkStopTimeEvent None None).
Proof. repeat split; vm_compute; reflexivity. Qed.

Lemma In_insert_by {A : Type} (le : A -> A -> bool) (x y : A) (l : list A) :
  In y (insert_by le x l) <-> y = x \/ In y l.
Proof.
  induction l as [|z l IH]; cbn [insert_by In].
  - intuition auto.
  - destruct (le x z); cbn [In]; [intuition auto|].
    rewrite IH. intuition auto.
Qed.

Lemma In_sort_by {A : Type} (le : A -> A -> bool) (y : A) (l : list A) :
  In y (sort_by le l) <-> In y l.
Proof.
  unfold sort_by. induction l as [|x l IH]; cbn [fold_right In]; [tauto|].
  rewrite In_insert_by, IH. intuition auto.
Qed.

Lemma length_insert_by {A : Type} (le : A -> A -> bool) (x : A) (l : list A) :
  length (insert_by le x l) = S (length l).
Proof.
  induction l as [|z l IH]; cbn [insert_by length]; [reflexivity|].
  destruct (le x z); cbn [length]; [reflexivity|now rewrite IH].
Qed.

Lemma length_sort_by {A : Type} (le : A -> A -> bool) (l : list A) :
  length (sort_by le l) = length l.
Proof.
  unfold sort_by. induction l as [|x l IH]; cbn [fold_right length];
    [reflexivity|].
  now rewrite length_insert_by, IH.
Qed.

Lemma head_first_sort_by {A : Type} (le : A -> A -> bool) :
  (forall a b, le a b = true \/ le b a = true) ->
  (forall a b c, le a b = true -> le b c = true -> le a c = true) ->
  forall l, head_first le (sort_by le l).
Proof.
  intros Htotal Htrans. unfold sort_by.
  induction l as [|x l IH]; cbn [fold_right]; [exact I|].
  destruct (fold_right (insert_by le) [] l) as [|z r] eqn:E;
    cbn [insert_by head_first]; [intros y []|].
  cbn [head_first] in IH. destruct (le x z) eqn:Hxz; cbn [head_first].
  - intros y [<-|Hy]; [exact Hxz|]. eapply Htrans; [exact Hxz|]. now apply IH.
  - intros y Hy. apply In_insert_by in Hy as [->|Hy]; [|now apply IH].
    destruct (Htotal x z) as [H|H]; [congruence|exact H].
Qed.

Lemma R2_list_In (objs : list R2Object) (prefix : string) (o : R2Object) :
  In o (R2_list objs prefix)
  <-> In o objs /\ String.prefix prefix (key o) = true.
Proof. unfold R2_list. now rewrite In_sort_by, filter_In. Qed.

Section RouterProofs.

Variable TextDecoder_decode : list byte -> string.
Variable fmtYMD_Montreal : Z -> string.

Local Abbreviation listHot := (Api.listHotRTFiles fmtYMD_Montreal).

(** The files that [listHotRTFiles] returns: the objects under the prefix of
    the threshold's date or of today's date, uploaded at or after the
    threshold. *)
Lemma listHotRTFiles_In (env : Env) (now : Z) (provider feedKind : string)
    (hoursBack : Z) (f : Api.HotFile) :
  In f (listHot env now provider feedKind hoursBack)
  <-> exists o,
        In o (R2 env)
        /\ (String.prefix
              (Api.hot_prefix provider feedKind
                 (fmtYMD_Montreal (Api.getHoursAgo now hoursBack)))
              (key o) = true
            \/ String.prefix
                 (Api.hot_prefix provider feedKind (fmtYMD_Montreal now))
                 (key o) = true)
        /\ Api.getHoursAgo now hoursBack <= uploaded o
        /\ f = Api.mkHotFile (key o) (uploaded o).
Proof.
  unfold Api.listHotRTFiles. rewrite In_sort_by.
  cbn [flat_map]. rewrite app_nil_r, in_app_iff, !in_flat_map.
  split.
  - intros [(o & Ho & Hf)|(o & Ho & Hf)]; apply R2_list_In in Ho as [Ho Hp];
      destruct (Z.leb_spec (Api.getHoursAgo now hoursBack) (uploaded o));
      try contradiction; destruct Hf as [<-|[]]; exists o; auto.
  - intros (o & Ho & [Hp|Hp] & Hle & ->); [left|right]; exists o;
      (split; [apply R2_list_In; auto|]);
      apply Z.leb_le in Hle; rewrite Hle; now left.
Qed.

(** C5 (as amended).  A stored snapshot under the date partition of the
    threshold or of today is selected by the hot path exactly when its
    upload time is at or after the threshold; a snapshot uploaded exactly
    [hoursBack] hours before the query is therefore selected. *)
Theorem hot_selection_includes_the_boundary (env : Env) (now : Z)
    (provider feedKind : string) (hoursBack : Z) (o : R2Object) :
  In o (R2 env) ->
  String.prefix
    (Api.hot_prefix provider feedKind
       (fmtYMD_Montreal (Api.getHoursAgo now hoursBack))) (key o) = true
  \/ String.prefix
       (Api.hot_prefix provider feedKind (fmtYMD_Montreal now)) (key o) = true ->
  (In (Api.mkHotFile (key o) (uploaded o))
      (listHot env now provider feedKind hoursBack)
   <-> Api.getHoursAgo now hoursBack <= uploaded o)
  /\ (uploaded o = now - hoursBack * 3600000 ->
      In (Api.mkHotFile (key o) (uploaded o))
        (listHot env now provider feedKind hoursBack)).
Proof.
  intros Ho Hp.
  assert (Hiff : In (Api.mkHotFile (key o) (uploaded o))
                   (listHot env now provider feedKind hoursBack)
                 <-> Api.getHoursAgo now hoursBack <= uploaded o).
  { rewrite listHotRTFiles_In. split.
    - intros (o' & _ & _ & Hle & E). injection E as _ ->. exact Hle.
    - intros Hle. exists o. auto. }
  split; [exact Hiff|]. intros E. apply Hiff. unfold Api.getHoursAgo. lia.
Qed.

(** The file that the current-data handlers decode, the head of the listing,
    is a listed file of greatest upload time. *)
Lemma listHotRTFiles_head_latest (env : Env) (now : Z)
    (provider feedKind : string) (hoursBack : Z) (f : Api.HotFile)
    (rest : list Api.HotFile) :
  listHot env now provider feedKind hoursBack = f :: rest ->
  forall g, In g rest -> Api.file_uploaded g <= Api.file_uploaded f.
Proof.
  unfold Api.listHotRTFiles. intros E g Hg.
  pose proof (head_first_sort_by
                (fun a b => Api.file_uploaded b <=? Api.file_uploaded a)) as H.
  match type of E with sort_by _ ?l = _ => specialize (H ltac:(intros a b; rewrite !Z.leb_le; lia) ltac:(intros a b c; rewrite !Z.leb_le; lia) l) end.
  rewrite E in H. cbn [head_first] in H. apply Z.leb_le. now apply H.
Qed.

(** With a non-empty listing the handler decodes the body of its head and of
    no other object: the response is a function of that body alone. *)
Lemma handleCurrentTripUpdates_decodes_head (fuel : nat) (env : Env) (now : Z)
    (provider route_id stop_id : option string) (f : Api.HotFile)
    (rest : list Api.HotFile) (ab : list byte) :
  listHot env now (Api.or_default provider "stm") "gtfsrt_trip_updates" 24
  = f :: rest ->
  Api.readHotRTFile env (Api.file_key f) = Some ab ->
  Api.handleCurrentTripUpdates TextDecoder_decode fmtYMD_Montreal fuel env now
    provider route_id stop_id
  = match Api.parseFeedMessage TextDecoder_decode fuel ab with
    | None => None
    | Some (Api.Throw e) => Some (Api.Throw e)
    | Some (Api.Ret feed) =>
        Some (Api.Ret
                (Api.jsonResponse
                   (Api.TripUpdatesBody
                      (Api.trip_update_rows route_id stop_id feed)
                      (Api.header_timestamp feed))))
    end.
Proof.
  intros El Er. unfold Api.handleCurrentTripUpdates. now rewrite El, Er.
Qed.

End RouterProofs.

(** C6 (code evaluated at the failing input).  A snapshot ingested at
    23:59:00 on 9 March 2025 (Montreal time) is stored under [dt=2025-03-09].
    A query 90 seconds later, at 00:00:30 on 10 March, has its threshold at
    23:00:30 on 8 March, because the 9th had 23 hours: the handler lists the
    partitions of the 8th and the 10th only, finds nothing, and answers that
    there are no recent trip updates, although the snapshot is in the hot
    window.  (One second after the upload the same query is answered with
    the snapshot's entities.) *)
Theorem handleCurrentTripUpdates_misses_snapshot_after_short_day :
  (exists o,
      R2 env_after_first_save = [o]
      /\ key o = "gtfs-rt/stm/gtfsrt_trip_updates/dt=2025-03-09/gtfsrt_trip_updates_2025-03-09T23-59-00.pb"%string
      /\ body o = sample_feed
      /\ Api.getHoursAgo after_midnight_10_march 24 <= uploaded o
         <= after_midnight_10_march)
  /\ Toronto.fmtYMD (Api.getHoursAgo after_midnight_10_march 24)
     = "2025-03-08"%string
  /\ Toronto.fmtYMD after_midnight_10_march = "2025-03-10"%string
  /\ handleCurrentTripUpdates_at 100 env_after_first_save
       after_midnight_10_march (Some "stm"%string) None None
     = Some (Api.Ret
               (Api.jsonResponse
                  (Api.NoRecentBody "No recent trip updates found")))
  /\ handleCurrentTripUpdates_at 100 env_after_first_save
       (evening_of_9_march + 1000) (Some "stm"%string) None None
     = Some (Api.Ret
               (Api.jsonResponse
                  (Api.TripUpdatesBody
                     [Api.mkTripUpdateOut (Some "T1"%string)
                        (Some "10"%string) (Some "S1"%string) (Some (Fin 5))
                        (Api.Num (Fin 60)) Api.Undefined Api.Null
                        Api.Undefined]
                     (Some (Fin 1741579140))))).
Proof.
  split.
  { eexists. split; [vm_compute; reflexivity|].
    cbn [key body uploaded]. repeat split; vm_compute; congruence. }
  repeat split; vm_compute; reflexivity.
Qed.

(** ** Historical queries (C7) *)

Section HistoricalProofs.

Variable parseInt : string -> option Z.
Variable binds_NaN : bool.



End HistoricalProofs.

(** ** Worked examples *)

Lemma unique_fingerprints_empty : unique_fingerprints empty_env.
Proof. intros [] pkey hash; cbn; lia. Qed.

Lemma first_save_value :
  first_save
  = Some (env_after_first_save,
          mkSaveResult false
            (Some "gtfs-rt/stm/gtfsrt_trip_updates/dt=2025-03-09/gtfsrt_trip_updates_2025-03-09T23-59-00.pb"%string)).
Proof. vm_compute. reflexivity. Qed.



Lemma sample_feed_meta :
  parseFeedMeta 100 sample_feed
  = Some (mkFeedMeta (Fin 1) (Some (Fin 1741579140))).
Proof. vm_compute. reflexivity. Qed.


(** C9 (counterexample).  The key under which the sample feed is stored is
    not the key of the specified format for the same source, feed kind, date
    and timestamp. *)
Lemma storage_key_differs_from_specified_format :
  storage_path Toronto.fmtYMD Toronto.fmtISO "stm" "gtfsrt_trip_updates"
    evening_of_9_march
  = "gtfs-rt/stm/gtfsrt_trip_updates/dt=2025-03-09/gtfsrt_trip_updates_2025-03-09T23-59-00.pb"%string
  /\ spec_storage_key "gtfsrt_trip_updates" "stm"
       (Toronto.fmtYMD evening_of_9_march) (Toronto.fmtISO evening_of_9_march)
     = "gtfsrt_trip_updates/stm/gtfsrt_trip_updates/date=2025-03-09/gtfsrt_trip_updates_2025-03-09T23-59-00"%string
  /\ storage_path Toronto.fmtYMD Toronto.fmtISO "stm" "gtfsrt_trip_updates"
       evening_of_9_march
     <> spec_storage_key "gtfsrt_trip_updates" "stm"
          (Toronto.fmtYMD evening_of_9_march)
          (Toronto.fmtISO evening_of_9_march).
Proof.
  split; [vm_compute; reflexivity|]. split; [vm_compute; reflexivity|].
  vm_compute. discriminate.
Qed.

(** C5 (counterexample).  Exactly 24 hours after its upload the snapshot is
    on the boundary of the hot window; the hot path still lists it and the
    current-data handler serves its entities. *)
Lemma boundary_snapshot_is_served_hot :
  Api.getHoursAgo one_day_later 24 = evening_of_9_march
  /\ Api.listHotRTFiles Toronto.fmtYMD env_after_first_save one_day_later
       "stm" "gtfsrt_trip_updates" 24
     = [Api.mkHotFile
          "gtfs-rt/stm/gtfsrt_trip_updates/dt=2025-03-09/gtfsrt_trip_updates_2025-03-09T23-59-00.pb"
          evening_of_9_march]
  /\ handleCurrentTripUpdates_at 100 env_after_first_save one_day_later
       (Some "stm"%string) None None
     = Some (Api.Ret
               (Api.jsonResponse
                  (Api.TripUpdatesBody
                     [Api.mkTripUpdateOut (Some "T1"%string)
                        (Some "10"%string) (Some "S1"%string) (Some (Fin 5))
                        (Api.Num (Fin 60)) Api.Undefined Api.Null
                        Api.Undefined]
                     (Some (Fin 1741579140))))).
Proof. repeat split; vm_compute; reflexivity. Qed.

Lemma hot_selection_includes_the_boundary_witness :
  In (mkR2Object
        "gtfs-rt/stm/gtfsrt_trip_updates/dt=2025-03-09/gtfsrt_trip_updates_2025-03-09T23-59-00.pb"
        evening_of_9_march sample_feed)
    (R2 env_after_first_save)
  /\ String.prefix
       (Api.hot_prefix "stm" "gtfsrt_trip_updates"
          (Toronto.fmtYMD (Api.getHoursAgo one_day_later 24)))
       "gtfs-rt/stm/gtfsrt_trip_updates/dt=2025-03-09/gtfsrt_trip_updates_2025-03-09T23-59-00.pb"
     = true
  /\ In (Api.mkHotFile
           "gtfs-rt/stm/gtfsrt_trip_updates/dt=2025-03-09/gtfsrt_trip_updates_2025-03-09T23-59-00.pb"
           evening_of_9_march)
       (Api.listHotRTFiles Toronto.fmtYMD env_after_first_save one_day_later
          "stm" "gtfsrt_trip_updates" 24).
Proof.
  assert (Hin : In (mkR2Object
                      "gtfs-rt/stm/gtfsrt_trip_updates/dt=2025-03-09/gtfsrt_trip_updates_2025-03-09T23-59-00.pb"
                      evening_of_9_march sample_feed)
                  (R2 env_after_first_save))
    by (vm_compute; left; reflexivity).
  assert (Hp : String.prefix
                 (Api.hot_prefix "stm" "gtfsrt_trip_updates"
                    (Toronto.fmtYMD (Api.getHoursAgo one_day_later 24)))
                 "gtfs-rt/stm/gtfsrt_trip_updates/dt=2025-03-09/gtfsrt_trip_updates_2025-03-09T23-59-00.pb"
               = true)
    by (vm_compute; reflexivity).
  split; [exact Hin|]. split; [exact Hp|].
  exact (proj2 (hot_selection_includes_the_boundary Toronto.fmtYMD
                  env_after_first_save one_day_later "stm"
                  "gtfsrt_trip_updates" 24 _ Hin (or_introl Hp))
           eq_refl).
Defined.



(** ** Aggregation run twice (C8) *)

Module AggregationFacts.
Import Aggregation.

Lemma same_key_true (a b : DelayRow) :
  same_key a b = true <-> pk a = pk b /\ complete a = true.
Proof.
  unfold same_key. rewrite andb_true_iff.
  destruct (PrimaryKey_eq_dec (pk a) (pk b)); split; intros [H1 H2];
    split; congruence.
Qed.

Lemma complete_pk (a b : DelayRow) :
  pk a = pk b -> complete a = complete b.
Proof.
  unfold pk, complete. intros E. injection E as _ _ _ -> -> ->. reflexivity.
Qed.

(** For a row without NULL in its key, colliding is having the same key. *)
Lemma same_key_complete (x r : DelayRow) :
  complete r = true ->
  same_key x r = if PrimaryKey_eq_dec (pk x) (pk r) then true else false.
Proof.
  intros Hr. unfold same_key.
  destruct (PrimaryKey_eq_dec (pk x) (pk r)) as [E|_]; [|reflexivity].
  now rewrite (complete_pk x r E), Hr.
Qed.

Lemma lookup_upsert_same (r : DelayRow) (rows : list DelayRow) :
  complete r = true -> lookup (pk r) (upsert r rows) = Some r.
Proof.
  intros Hr. unfold lookup.
  induction rows as [|x rows IH]; cbn [upsert find].
  - destruct (PrimaryKey_eq_dec (pk r) (pk r)); congruence.
  - rewrite (same_key_complete x r Hr).
    destruct (PrimaryKey_eq_dec (pk x) (pk r)) as [E|Hne]; cbn [find].
    + destruct (PrimaryKey_eq_dec (pk r) (pk r)); congruence.
    + destruct (PrimaryKey_eq_dec (pk x) (pk r)); [contradiction|exact IH].
Qed.

Lemma lookup_upsert_other (k : PrimaryKey) (r : DelayRow)
    (rows : list DelayRow) :
  pk r <> k -> lookup k (upsert r rows) = lookup k rows.
Proof.
  intros Hne. unfold lookup.
  induction rows as [|x rows IH]; cbn [upsert find].
  - destruct (PrimaryKey_eq_dec (pk r) k); [contradiction|reflexivity].
  - destruct (same_key x r) eqn:Ek; cbn [find].
    + apply same_key_true in Ek as [E _].
      destruct (PrimaryKey_eq_dec (pk r) k); [contradiction|].
      destruct (PrimaryKey_eq_dec (pk x) k); [congruence|reflexivity].
    + destruct (PrimaryKey_eq_dec (pk x) k); [reflexivity|exact IH].
Qed.

(** Upserting a row that is already the stored row of its key changes
    nothing. *)
Lemma upsert_stored (r : DelayRow) (rows : list DelayRow) :
  complete r = true -> lookup (pk r) rows = Some r -> upsert r rows = rows.
Proof.
  intros Hr. unfold lookup.
  induction rows as [|x rows IH]; cbn [upsert find]; [discriminate|].
  rewrite (same_key_complete x r Hr).
  destruct (PrimaryKey_eq_dec (pk x) (pk r)) as [E|Hne].
  - intros H. injection H as ->. reflexivity.
  - intros H. f_equal. now apply IH.
Qed.

Lemma lookup_upsert_all_other (k : PrimaryKey) (rs rows : list DelayRow) :
  ~ In k (map pk rs) -> lookup k (upsert_all rs rows) = lookup k rows.
Proof.
  unfold upsert_all. revert rows.
  induction rs as [|r rs IH]; intros rows Hk; cbn [fold_left]; [reflexivity|].
  cbn [map In] in Hk. rewrite IH by tauto.
  apply lookup_upsert_other. tauto.
Qed.

Lemma lookup_upsert_all (rs rows : list DelayRow) (r : DelayRow) :
  NoDup (map pk rs) -> complete r = true -> In r rs ->
  lookup (pk r) (upsert_all rs rows) = Some r.
Proof.
  revert rows. induction rs as [|x rs IH]; intros rows Hnd Hr Hin;
    [contradiction|].
  cbn [map] in Hnd. inversion Hnd as [|? ? Hx Hnd']; subst.
  change (upsert_all (x :: rs) rows) with (upsert_all rs (upsert x rows)).
  destruct Hin as [->|Hin].
  - rewrite lookup_upsert_all_other by assumption.
    now apply lookup_upsert_same.
  - now apply IH.
Qed.

Lemma upsert_all_stored (rs rows : list DelayRow) :
  (forall r, In r rs -> complete r = true /\ lookup (pk r) rows = Some r) ->
  upsert_all rs rows = rows.
Proof.
  induction rs as [|x rs IH]; intros H; [reflexivity|].
  change (upsert_all (x :: rs) rows) with (upsert_all rs (upsert x rows)).
  destruct (H x (or_introl eq_refl)) as [Hx Hl].
  rewrite upsert_stored by assumption.
  apply IH. intros r Hr. apply H. now right.
Qed.

Lemma upsert_all_idempotent (rs rows : list DelayRow) :
  NoDup (map pk rs) -> forallb complete rs = true ->
  upsert_all rs (upsert_all rs rows) = upsert_all rs rows.
Proof.
  intros Hnd Hc. rewrite forallb_forall in Hc.
  apply upsert_all_stored. intros r Hr.
  split; [now apply Hc|]. apply lookup_upsert_all; auto.
Qed.

Lemma NoDup_snoc {A : Type} (l : list A) (a : A) :
  NoDup l -> ~ In a l -> NoDup (l ++ [a]).
Proof.
  intros Hnd Ha. induction Hnd as [|x l Hx Hnd IH]; cbn [app].
  - constructor; [intros []|constructor].
  - constructor.
    + rewrite in_app_iff. cbn [In] in *. intuition congruence.
    + apply IH. cbn [In] in Ha. tauto.
Qed.

Lemma map_fst_bump (k : BucketKey) (o : Observation)
    (acc : list (BucketKey * Running)) :
  map fst (bump k o acc)
  = if in_dec BucketKey_eq_dec k (map fst acc)
    then map fst acc else map fst acc ++ [k].
Proof.
  induction acc as [|[k' r] acc IH]; cbn [bump map fst]; [reflexivity|].
  destruct (BucketKey_eq_dec k k') as [->|Hne]; cbn [map fst].
  - destruct (in_dec BucketKey_eq_dec k' (k' :: map fst acc)) as [_|Hn];
      [reflexivity|]. elim Hn. now left.
  - rewrite IH.
    destruct (in_dec BucketKey_eq_dec k (map fst acc)) as [Hin|Hn];
      destruct (in_dec BucketKey_eq_dec k (k' :: map fst acc)) as [Hin'|Hn'];
      try reflexivity.
    + elim Hn'. now right.
    + destruct Hin' as [E|Hin']; [congruence|contradiction].
Qed.

Lemma NoDup_accumulate (g : Grain) (obs : list Observation) :
  NoDup (map fst (accumulate g obs)).
Proof.
  unfold accumulate.
  assert (H : forall acc, NoDup (map fst acc) ->
                NoDup (map fst
                         (fold_left (fun acc o => bump (bucket_of g o) o acc)
                            obs acc))).
  { induction obs as [|o obs IH]; intros acc Hnd; cbn [fold_left];
      [assumption|].
    apply IH. rewrite map_fst_bump.
    destruct (in_dec BucketKey_eq_dec (bucket_of g o) (map fst acc));
      [assumption|now apply NoDup_snoc]. }
  apply H. constructor.
Qed.

Lemma NoDup_map_injective {A B : Type} (f : A -> B) (l : list A) :
  (forall x y, f x = f y -> x = y) -> NoDup l -> NoDup (map f l).
Proof.
  intros Hinj Hnd. induction Hnd as [|x l Hx Hnd IH]; cbn [map];
    constructor; [|exact IH].
  intros Hin. apply in_map_iff in Hin as (y & E & Hy).
  apply Hinj in E. now subst y.
Qed.

(** The rows computed for a partition have pairwise different keys. *)
Lemma NoDup_rows (provider date : string) (g : Grain)
    (obs : list Observation) :
  NoDup (map pk (map (row_of provider date) (accumulate g obs))).
Proof.
  rewrite map_map.
  assert (E : map (fun b => pk (row_of provider date b)) (accumulate g obs)
              = map (fun k : BucketKey =>
                       let '(hour, route, stop, trip) := k in
                       (provider, date, hour, route, stop, trip))
                  (map fst (accumulate g obs))).
  { rewrite map_map. apply map_ext. now intros [[[[hour route] stop] trip] r]. }
  rewrite E. apply NoDup_map_injective; [|apply NoDup_accumulate].
  intros [[[h1 r1] s1] t1] [[[h2 r2] s2] t2] H. congruence.
Qed.

(** The buckets of observations that name route, stop and trip give rows
    without NULL in their keys. *)
Lemma In_fst_bump (k k0 : BucketKey) (o : Observation)
    (acc : list (BucketKey * Running)) :
  In k0 (map fst (bump k o acc)) -> k0 = k \/ In k0 (map fst acc).
Proof.
  rewrite map_fst_bump.
  destruct (in_dec BucketKey_eq_dec k (map fst acc)); [now right|].
  rewrite in_app_iff. cbn [In]. intuition auto.
Qed.

Lemma accumulate_keys (g : Grain) (obs : list Observation) (k : BucketKey) :
  In k (map fst (accumulate g obs)) ->
  exists o, In o obs /\ bucket_of g o = k.
Proof.
  unfold accumulate.
  assert (H : forall obs acc,
             In k (map fst
                     (fold_left (fun acc o => bump (bucket_of g o) o acc)
                        obs acc)) ->
             In k (map fst acc) \/ exists o, In o obs /\ bucket_of g o = k).
  { clear. induction obs as [|a obs IH]; intros acc H; cbn [fold_left] in H;
      [now left|].
    destruct (IH _ H) as [Hk|(o & Ho & E)].
    - apply In_fst_bump in Hk as [->|Hk]; [right|now left].
      exists a. split; [now left|reflexivity].
    - right. exists o. split; [now right|exact E]. }
  intros Hk. destruct (H obs [] Hk) as [[]|Ho]. exact Ho.
Qed.

Lemma complete_rows (provider date : string) (g : Grain)
    (obs : list Observation) :
  forallb named obs = true ->
  forallb complete (map (row_of provider date) (accumulate g obs)) = true.
Proof.
  intros Hobs. rewrite forallb_forall in Hobs. apply forallb_forall.
  intros r Hr. apply in_map_iff in Hr as ([k run] & <- & Hin).
  destruct (accumulate_keys g obs k) as (o & Ho & <-).
  { apply in_map_iff. now exists (k, run). }
  specialize (Hobs o Ho). unfold named in Hobs.
  unfold bucket_of, row_of, complete. cbn [d_route_id d_stop_id d_trip_id].
  exact Hobs.
Qed.

End AggregationFacts.


(** Where every observation names its route, stop and trip, the second run
    leaves the tables exactly as the first run left them. *)
Lemma aggregate_twice_is_aggregate_once_for_named_observations
    (provider date : string) (obs : list Aggregation.Observation)
    (db : AggTables) :
  forallb Aggregation.named obs = true ->
  let once := fst (Aggregation.aggregate provider date obs db) in
  fst (Aggregation.aggregate provider date obs once) = once
  /\ snd (Aggregation.aggregate provider date obs once)
     = snd (Aggregation.aggregate provider date obs db).
Proof.
  intros Hobs. cbn zeta. unfold Aggregation.aggregate.
  cbn [fst snd rt_delays_hourly rt_delays_daily rt_positions_hourly
         rt_positions_daily].
  rewrite !AggregationFacts.upsert_all_idempotent
    by (apply AggregationFacts.NoDup_rows
        || now apply AggregationFacts.complete_rows).
  split; reflexivity.
Qed.

(** ** More about the reader *)

Lemma byteZ_byte_of_Z (z : Z) : 0 <= z < 256 -> byteZ (byte_of_Z z) = z.
Proof.
  intros Hz. unfold byteZ, byte_of_Z.
  destruct (Byte.of_N (Z.to_N z)) as [b|] eqn:E.
  - apply Byte.to_of_N in E. rewrite E. lia.
  - apply Byte.of_N_None_iff in E. lia.
Qed.

Lemma land_127 (x : Z) : Z.land x 127 = x mod 128.
Proof. change 127 with (Z.ones 7). now rewrite Z.land_ones by lia. Qed.

Lemma land_128_low (x : Z) : 0 <= x < 128 -> Z.land x 128 = 0.
Proof.
  intros Hx. apply Z.bits_inj'. intros i Hi.
  rewrite Z.land_spec, Z.bits_0.
  destruct (Z.eq_dec i 7) as [->|Hne].
  - rewrite (Z.bits_above_log2 x 7); [reflexivity|lia|].
    destruct (Z.eq_dec x 0) as [->|Hx0]; [cbn; lia|].
    apply Z.log2_lt_pow2; lia.
  - change 128 with (2 ^ 7). rewrite (Z.pow2_bits_false 7 i) by lia.
    apply andb_false_r.
Qed.

Lemma land_128_high (x : Z) : 128 <= x < 256 -> Z.land x 128 <> 0.
Proof.
  intros Hx E.
  assert (H : Z.testbit (Z.land x 128) 7 = true).
  { rewrite Z.land_spec. change (Z.testbit 128 7) with true.
    rewrite andb_true_r.
    pose proof (Z.testbit_spec' x 7 ltac:(lia)) as Hs.
    replace (x / 2 ^ 7) with 1 in Hs.
    - destruct (Z.testbit x 7); [reflexivity|discriminate].
    - apply Z.div_unique with (x - 128); lia. }
  rewrite E, Z.bits_0 in H. discriminate.
Qed.

Lemma lor_low_shift (a m : Z) :
  0 <= a < 128 -> Z.lor a (Z.shiftl m 7) = a + 128 * m.
Proof.
  intros Ha.
  assert (Hd : Z.land a (Z.shiftl m 7) = 0).
  { apply Z.bits_inj'. intros i Hi. rewrite Z.land_spec, Z.bits_0.
    destruct (Z.lt_ge_cases i 7) as [Hlt|Hge].
    - rewrite Z.shiftl_spec_low by lia. apply andb_false_r.
    - rewrite (Z.bits_above_log2 a i); [reflexivity|lia|].
      destruct (Z.eq_dec a 0) as [->|Ha0]; [cbn; lia|].
      apply Z.lt_le_trans with 7; [|lia]. apply Z.log2_lt_pow2; lia. }
  rewrite <- Z.lxor_lor, <- Z.add_nocarry_lxor by exact Hd.
  rewrite Z.shiftl_mul_pow2 by lia. lia.
Qed.

Lemma varint_ok_encode (k : nat) (n : Z) :
  0 <= n -> varint_ok (encode_varint_upto k n) = true.
Proof.
  revert n. induction k as [|k IH]; intros n Hn; cbn [encode_varint_upto].
  - cbn [varint_ok]. rewrite byteZ_byte_of_Z
      by (pose proof (Z.mod_pos_bound n 128); lia).
    rewrite land_128_low by (apply Z.mod_pos_bound; lia). reflexivity.
  - destruct (Z.ltb_spec n 128).
    + cbn [varint_ok]. rewrite byteZ_byte_of_Z by lia.
      now rewrite land_128_low by lia.
    + cbn [varint_ok].
      pose proof (Z.mod_pos_bound n 128 ltac:(lia)) as Hm.
      rewrite byteZ_byte_of_Z by lia.
      destruct (Z.eqb_spec (Z.land (128 + n mod 128) 128) 0) as [E|_].
      * exfalso. revert E. apply land_128_high. lia.
      * apply IH. apply Z.div_pos; lia.
Qed.

Lemma varint_value_encode (k : nat) (n : Z) :
  0 <= n < 128 ^ Z.of_nat (S k) ->
  varint_value (encode_varint_upto k n) = n.
Proof.
  revert n. induction k as [|k IH]; intros n Hn; cbn [encode_varint_upto].
  - change (128 ^ Z.of_nat 1) with 128 in Hn.
    cbn [varint_value]. rewrite byteZ_byte_of_Z by (rewrite Z.mod_small; lia).
    rewrite Z.shiftl_0_l, Z.lor_0_r, land_127, Z.mod_mod, Z.mod_small; lia.
  - destruct (Z.ltb_spec n 128).
    + cbn [varint_value]. rewrite byteZ_byte_of_Z by lia.
      rewrite Z.shiftl_0_l, Z.lor_0_r, land_127, Z.mod_small; lia.
    + cbn [varint_value].
      pose proof (Z.mod_pos_bound n 128 ltac:(lia)) as Hm.
      rewrite byteZ_byte_of_Z by lia.
      rewrite IH.
      * rewrite land_127.
        replace ((128 + n mod 128) mod 128) with (n mod 128)
          by (apply Z.mod_unique with 1; lia).
        rewrite lor_low_shift by lia.
        pose proof (Z.div_mod n 128 ltac:(lia)). lia.
      * split; [apply Z.div_pos; lia|].
        apply Z.div_lt_upper_bound; [lia|].
        rewrite Nat2Z.inj_succ, Z.pow_succ_r in Hn by lia. lia.
Qed.

Lemma length_encode_varint_upto (k : nat) (n : Z) :
  (1 <= length (encode_varint_upto k n) <= S k)%nat.
Proof.
  revert n. induction k as [|k IH]; intros n; cbn [encode_varint_upto].
  - cbn. lia.
  - destruct (n <? 128); cbn [length]; [lia|]. specialize (IH (n / 128)). lia.
Qed.

(** X1.  Round trip with the standard encoding: wherever the encoding of an
    integer [n] below [2^64] sits in a buffer, [readVarint] started there
    returns [Number(n)] (which is [n] itself up to [2^53]) and the position
    just after the encoding. *)
Theorem readVarint_encode_varint (pre post : list byte) (n : Z) :
  0 <= n < 2 ^ 64 ->
  Z.of_nat (length pre) + 10 <= 2 ^ 53 ->
  readVarint (pre ++ encode_varint n ++ post) (Fin (Z.of_nat (length pre)))
  = mkVarint (JS.of_Z n)
      (Fin (Z.of_nat (length pre) + Z.of_nat (length (encode_varint n))))
  /\ (n <= 2 ^ 53 ->
      value (readVarint (pre ++ encode_varint n ++ post)
               (Fin (Z.of_nat (length pre)))) = Fin n).
Proof.
  intros Hn Hpre. unfold encode_varint.
  pose proof (length_encode_varint_upto 9 n) as Hl.
  assert (E : readVarint (pre ++ encode_varint_upto 9 n ++ post)
                (Fin (Z.of_nat (length pre)))
              = mkVarint (JS.of_Z n)
                  (Fin (Z.of_nat (length pre)
                        + Z.of_nat (length (encode_varint_upto 9 n))))).
  { rewrite readVarint_app.
    - rewrite varint_value_encode; [reflexivity|].
      change (128 ^ Z.of_nat 10) with (2 ^ 70).
      assert (2 ^ 64 < 2 ^ 70) by (apply Z.pow_lt_mono_r; lia). lia.
    - apply varint_ok_encode. lia.
    - lia. }
  split; [exact E|]. intros Hsmall. rewrite E. cbn [value].
  apply of_Z_small. lia.
Qed.

Lemma readVarint_encode_varint_witness :
  0 <= 300 < 2 ^ 64
  /\ Z.of_nat (length [x08]) + 10 <= 2 ^ 53
  /\ encode_varint 300 = [xac; x02]
  /\ readVarint ([x08] ++ encode_varint 300 ++ [x10; x01])
       (Fin (Z.of_nat (length [x08])))
     = mkVarint (JS.of_Z 300)
         (Fin (Z.of_nat (length [x08])
               + Z.of_nat (length (encode_varint 300)))).
Proof.
  assert (H1 : 0 <= 300 < 2 ^ 64) by lia.
  assert (H2 : Z.of_nat (length [x08]) + 10 <= 2 ^ 53) by (cbn; lia).
  split; [exact H1|]. split; [exact H2|]. split; [reflexivity|].
  exact (proj1 (readVarint_encode_varint [x08] [x10; x01] 300 H1 H2)).
Defined.

Lemma readVarint_loop_cut (bs : list byte) :
  forall (n : nat) (pre : list byte) (x s : Z),
    all_continue bs = true ->
    (length bs <= n)%nat ->
    0 <= s ->
    Z.of_nat (length pre) + Z.of_nat (length bs) + 1 <= 2 ^ 53 ->
    readVarint_loop n (pre ++ bs) x s (Fin (Z.of_nat (length pre)))
    = (Z.lor x (Z.shiftl (varint_value bs) s),
       Fin (Z.of_nat (length pre) + Z.of_nat (length bs) + 1)).
Proof.
  induction bs as [|b bs IH]; intros n pre x s Hall Hlen Hs Hsafe.
  - rewrite app_nil_r, readVarint_loop_undefined
      by (apply u8_get_past_end; lia).
    cbn [varint_value length]. rewrite Z.shiftl_0_l, add_small by lia.
    do 2 f_equal. lia.
  - cbn [all_continue forallb] in Hall. apply andb_true_iff in Hall as [Hb Hall].
    apply negb_true_iff in Hb. cbn [length] in Hlen, Hsafe.
    destruct n as [|n]; [lia|]. cbn [readVarint_loop].
    rewrite u8_get_app. cbn [u8_and]. rewrite Hb.
    rewrite add_small by lia.
    replace (pre ++ b :: bs) with ((pre ++ [b]) ++ bs)
      by (rewrite <- app_assoc; reflexivity).
    replace (Z.of_nat (length pre) + 1) with (Z.of_nat (length (pre ++ [b])))
      by (rewrite length_app; cbn [length]; lia).
    rewrite IH; try assumption; try lia.
    2:{ rewrite length_app; cbn [length]; lia. }
    rewrite length_app. cbn [length varint_value]. f_equal.
    + rewrite Z.shiftl_lor, Z.shiftl_shiftl by lia.
      rewrite Z.lor_assoc. do 2 f_equal. lia.
    + f_equal. lia.
Qed.

(** X2.  A varint cut off by the end of the buffer is not an error: when
    every byte from the cursor to the end announces a further byte (also
    when the cursor is at the end), [readVarint] returns the value of the
    bytes that are there, as if a zero byte followed, and a position one
    past the end of the buffer. *)
Theorem readVarint_cut_off_by_end (pre bs : list byte) :
  all_continue bs = true ->
  Z.of_nat (length pre) + Z.of_nat (length bs) + 1 <= 2 ^ 53 ->
  readVarint (pre ++ bs) (Fin (Z.of_nat (length pre)))
  = mkVarint (JS.of_Z (varint_value bs))
      (Fin (Z.of_nat (length (pre ++ bs)) + 1)).
Proof.
  intros Hall Hsafe. unfold readVarint.
  rewrite readVarint_loop_cut; try assumption; try lia.
  - rewrite Z.shiftl_0_r, Z.lor_0_l, length_app. do 2 f_equal. lia.
  - rewrite length_app. lia.
Qed.

Lemma readVarint_cut_off_by_end_witness :
  all_continue [x80; xff] = true
  /\ Z.of_nat (length [x08]) + Z.of_nat (length [x80; xff]) + 1 <= 2 ^ 53
  /\ readVarint ([x08] ++ [x80; xff]) (Fin (Z.of_nat (length [x08])))
     = mkVarint (JS.of_Z (varint_value [x80; xff]))
         (Fin (Z.of_nat (length ([x08] ++ [x80; xff])) + 1)).
Proof.
  assert (H1 : all_continue [x80; xff] = true) by reflexivity.
  assert (H2 : Z.of_nat (length [x08]) + Z.of_nat (length [x80; xff]) + 1
               <= 2 ^ 53) by (cbn; lia).
  split; [exact H1|]. split; [exact H2|].
  exact (readVarint_cut_off_by_end [x08] [x80; xff] H1 H2).
Defined.

(** X3.  Wherever it starts inside the safe range, [readVarint] moves the
    cursor strictly forward and at most one position past the end of the
    buffer (or past its own start, when that is already beyond the end); the
    value it returns is never negative. *)
Theorem readVarint_moves_forward (u8 : list byte) (z : Z) :
  safe_length u8 -> 0 <= z -> z + 1 <= 2 ^ 53 ->
  exists z',
    next (readVarint u8 (Fin z)) = Fin z'
    /\ z < z' <= Z.max z (Z.of_nat (length u8)) + 1
    /\ Nle 0 (value (readVarint u8 (Fin z))).
Proof. exact (readVarint_progress u8 z). Qed.

Lemma readVarint_moves_forward_witness :
  safe_length sample_feed /\ 0 <= 8 /\ 8 + 1 <= 2 ^ 53
  /\ exists z',
       next (readVarint sample_feed (Fin 8)) = Fin z'
       /\ 8 < z' <= Z.max 8 (Z.of_nat (length sample_feed)) + 1
       /\ Nle 0 (value (readVarint sample_feed (Fin 8))).
Proof.
  assert (H1 : safe_length sample_feed) by (unfold safe_length; cbn; lia).
  assert (H2 : 0 <= 8) by lia.
  assert (H3 : 8 + 1 <= 2 ^ 53) by lia.
  split; [exact H1|]. split; [exact H2|]. split; [exact H3|].
  exact (readVarint_moves_forward sample_feed 8 H1 H2 H3).
Defined.

Lemma field_bytes_length (f : field) :
  length (field_bytes f)
  = (length (f_key f) + length (f_len f) + length (f_body f))%nat.
Proof. unfold field_bytes. rewrite !length_app. lia. Qed.

(** The tag of a well-formed record, read where the record starts. *)
Lemma readVarint_field_key (pre post : list byte) (f : field) :
  field_ok f = true ->
  safe_length (pre ++ field_bytes f ++ post) ->
  readVarint (pre ++ field_bytes f ++ post) (Fin (Z.of_nat (length pre)))
  = mkVarint (Fin (field_key f))
      (Fin (Z.of_nat (length pre) + Z.of_nat (length (f_key f))))
  /\ 0 <= field_key f < 2 ^ 32.
Proof.
  intros Hok Hsafe. unfold safe_length in Hsafe.
  rewrite !length_app, field_bytes_length in Hsafe.
  unfold field_ok in Hok. apply andb_true_iff in Hok as [Hok _].
  apply andb_true_iff in Hok as [Hkb Hk32]. apply Z.ltb_lt in Hk32.
  pose proof (varint_value_nonneg (f_key f)) as Hk0. fold (field_key f) in Hk0.
  split; [|lia]. unfold field_bytes. rewrite <- !app_assoc.
  rewrite readVarint_app by (assumption || lia).
  fold (field_key f). rewrite of_Z_small by lia. reflexivity.
Qed.

(** [skipField], started after the tag of a well-formed record, lands on the
    first byte after the record. *)
Lemma skipField_field (pre post : list byte) (f : field) :
  field_ok f = true ->
  safe_length (pre ++ field_bytes f ++ post) ->
  skipField (pre ++ field_bytes f ++ post)
    (Fin (Z.of_nat (length pre) + Z.of_nat (length (f_key f)))) (field_wire f)
  = Fin (Z.of_nat (length pre) + Z.of_nat (length (field_bytes f))).
Proof.
  intros Hok Hsafe. pose proof Hsafe as Hlen. unfold safe_length in Hlen.
  rewrite !length_app, field_bytes_length in Hlen.
  rewrite field_bytes_length.
  unfold field_ok in Hok. apply andb_true_iff in Hok as [_ Hpay].
  destruct f as [kb lb body]. cbn [f_key f_len f_body] in *.
  set (wt := field_wire (mkField kb lb body)) in *.
  assert (Hu8 : pre ++ field_bytes (mkField kb lb body) ++ post
                = (pre ++ kb) ++ lb ++ (body ++ post))
    by (unfold field_bytes; cbn [f_key f_len f_body];
        rewrite <- !app_assoc; reflexivity).
  assert (Hpos : Z.of_nat (length pre) + Z.of_nat (length kb)
                 = Z.of_nat (length (pre ++ kb)))
    by (rewrite length_app; lia).
  unfold skipField.
  destruct (Z.eqb_spec wt 0) as [Hwt0|Hwt0].
  { apply andb_true_iff in Hpay as [Hlb Hbody].
    destruct lb; [|discriminate]. cbn [length app] in *.
    rewrite Hu8, Hpos. cbn [app].
    rewrite readVarint_app by (assumption || rewrite length_app; lia).
    cbn [next]. rewrite length_app. f_equal. lia. }
  destruct (Z.eqb_spec wt 1) as [Hwt1|Hwt1].
  { apply andb_true_iff in Hpay as [Hlb Hbody]. apply Z.eqb_eq in Hbody.
    destruct lb; [|discriminate]. cbn [length] in *.
    rewrite add_small by lia. f_equal. lia. }
  destruct (Z.eqb_spec wt 2) as [Hwt2|Hwt2].
  { apply andb_true_iff in Hpay as [Hlb Hlv]. apply Z.eqb_eq in Hlv.
    rewrite Hu8, Hpos.
    rewrite readVarint_app by (assumption || rewrite length_app; lia).
    cbn [next value]. rewrite Hlv, of_Z_small by lia.
    rewrite add_small by (rewrite length_app; lia).
    rewrite length_app. f_equal. lia. }
  destruct (Z.eqb_spec wt 5) as [Hwt5|Hwt5].
  { apply andb_true_iff in Hpay as [Hlb Hbody]. apply Z.eqb_eq in Hbody.
    destruct lb; [|discriminate]. cbn [length] in *.
    rewrite add_small by lia. f_equal. lia. }
  apply andb_true_iff in Hpay as [Hlb Hbody].
  destruct lb; [|discriminate]. destruct body; [|discriminate].
  cbn [length]. f_equal. lia.
Qed.

(** X4.  [skipField] skips exactly the payload of a record: called after
    the tag of a well-formed record with the record's wire type, it returns
    the position of the first byte after the record (after the varint, the
    4 or 8 fixed bytes, or the length prefix and the bytes it announces; in
    place for a tag of any other wire type). *)
Theorem skipField_skips_the_payload (pre post : list byte) (f : field) :
  field_ok f = true ->
  safe_length (pre ++ field_bytes f ++ post) ->
  skipField (pre ++ field_bytes f ++ post)
    (next (readVarint (pre ++ field_bytes f ++ post)
             (Fin (Z.of_nat (length pre)))))
    (JS.band
       (value (readVarint (pre ++ field_bytes f ++ post)
                 (Fin (Z.of_nat (length pre))))) 7)
  = Fin (Z.of_nat (length (pre ++ field_bytes f))).
Proof.
  intros Hok Hsafe.
  destruct (readVarint_field_key pre post f Hok Hsafe) as [E Hk].
  rewrite E. cbn [next value]. rewrite band_key by exact Hk.
  fold (field_wire f). rewrite skipField_field by assumption.
  rewrite length_app. f_equal. lia.
Qed.

Lemma skipField_skips_the_payload_witness :
  field_ok (mkField [x7a] [x03] [x41; x42; x43]) = true
  /\ safe_length
       ([x08; x01] ++ field_bytes (mkField [x7a] [x03] [x41; x42; x43])
        ++ [x10; x02])
  /\ skipField
       ([x08; x01] ++ field_bytes (mkField [x7a] [x03] [x41; x42; x43])
        ++ [x10; x02])
       (next (readVarint
                ([x08; x01]
                 ++ field_bytes (mkField [x7a] [x03] [x41; x42; x43])
                 ++ [x10; x02])
                (Fin (Z.of_nat (length [x08; x01])))))
       (JS.band
          (value (readVarint
                    ([x08; x01]
                     ++ field_bytes (mkField [x7a] [x03] [x41; x42; x43])
                     ++ [x10; x02])
                    (Fin (Z.of_nat (length [x08; x01]))))) 7)
     = Fin (Z.of_nat
              (length
                 ([x08; x01]
                  ++ field_bytes (mkField [x7a] [x03] [x41; x42; x43])))).
Proof.
  assert (H1 : field_ok (mkField [x7a] [x03] [x41; x42; x43]) = true)
    by reflexivity.
  assert (H2 : safe_length
                 ([x08; x01]
                  ++ field_bytes (mkField [x7a] [x03] [x41; x42; x43])
                  ++ [x10; x02]))
    by (unfold safe_length; cbn; lia).
  split; [exact H1|]. split; [exact H2|].
  exact (skipField_skips_the_payload [x08; x01] [x10; x02] _ H1 H2).
Defined.

(** X5.  [parseHeaderTimestamp] returns on any bytes whatever, provided the
    end it is given lies inside the buffer: the loop needs at most one turn
    per byte between start and end. *)
Theorem parseHeaderTimestamp_returns (u8 : list byte) (start e : Z)
    (fuel : nat) :
  safe_length u8 -> 0 <= start -> e <= Z.of_nat (length u8) ->
  (Z.to_nat (e - start) < fuel)%nat ->
  exists ts, parseHeaderTimestamp fuel u8 (Fin start) (Fin e) = Some ts.
Proof.
  intros Hsafe Hs He Hfuel. unfold parseHeaderTimestamp.
  apply parseHeaderTimestamp_loop_returns; try assumption.
  now constructor.
Qed.

Lemma parseHeaderTimestamp_returns_witness :
  safe_length overlong_header /\ 0 <= 1
  /\ 148 <= Z.of_nat (length overlong_header)
  /\ (Z.to_nat (148 - 1) < 148)%nat
  /\ exists ts,
       parseHeaderTimestamp 148 overlong_header (Fin 1) (Fin 148) = Some ts.
Proof.
  assert (H1 : safe_length overlong_header) by (unfold safe_length; cbn; lia).
  assert (H2 : 0 <= 1) by lia.
  assert (H3 : 148 <= Z.of_nat (length overlong_header)) by (cbn; lia).
  assert (H4 : (Z.to_nat (148 - 1) < 148)%nat) by (cbn; lia).
  split; [exact H1|]. split; [exact H2|]. split; [exact H3|].
  split; [exact H4|].
  exact (parseHeaderTimestamp_returns overlong_header 1 148 148 H1 H2 H3 H4).
Defined.

(** The top-level loop reads the tags of the sample feed at positions 0
    (the header) and 8 (the entity) and stops at 38, the end. *)
Lemma met_sample_feed (p : Number) :
  met sample_feed p -> p = Fin 0 \/ p = Fin 8 \/ p = Fin 38.
Proof.
  induction 1 as [|pos Hm IH Hlt]; [now left|].
  destruct IH as [ -> | [ -> | -> ] ].
  - right. left. vm_compute. reflexivity.
  - right. right. vm_compute. reflexivity.
  - vm_compute in Hlt. discriminate.
Qed.

Lemma headers_end_inside_sample_feed : headers_end_inside sample_feed.
Proof.
  intros z Hm Hz. change (Z.of_nat (length sample_feed)) with 38 in Hz.
  destruct (met_sample_feed _ Hm) as [E|[E|E]]; injection E as ->.
  - intros _ _. exists 8. split; [vm_compute; reflexivity|cbn; lia].
  - intros _ H. vm_compute in H. discriminate.
  - lia.
Qed.

(** X6.  The decode of the ingestion worker returns on every buffer whose
    header records, those whose tag the top-level loop reads, end inside the
    buffer, whatever else the buffer holds (unknown or malformed records,
    cut-off varints, lengths of other records that point past the end, bytes
    inside a record that look like a header tag): each turn of the top-level
    loop moves the cursor forward. *)
Theorem parseFeedMeta_returns_when_headers_end_inside (u8 : list byte)
    (fuel : nat) :
  safe_length u8 -> headers_end_inside u8 ->
  (2 * length u8 + 1 < fuel)%nat ->
  exists meta, parseFeedMeta fuel u8 = Some meta.
Proof. exact (parseFeedMeta_returns u8 fuel). Qed.

Lemma parseFeedMeta_returns_when_headers_end_inside_witness :
  safe_length sample_feed /\ headers_end_inside sample_feed
  /\ (2 * length sample_feed + 1 < 100)%nat
  /\ exists meta, parseFeedMeta 100 sample_feed = Some meta.
Proof.
  assert (H1 : safe_length sample_feed) by (unfold safe_length; cbn; lia).
  assert (H3 : (2 * length sample_feed + 1 < 100)%nat) by (cbn; lia).
  split; [exact H1|]. split; [exact headers_end_inside_sample_feed|].
  split; [exact H3|].
  exact (parseFeedMeta_returns_when_headers_end_inside sample_feed 100 H1
           headers_end_inside_sample_feed H3).
Defined.

Lemma parseHeaderTimestamp_loop_fields :
  forall (fs : list field) (pre post : list byte) (fuel : nat)
         (ts : option Number),
    forallb field_ok fs = true ->
    safe_length (pre ++ envelope_bytes fs ++ post) ->
    (length fs < fuel)%nat ->
    parseHeaderTimestamp_loop fuel (pre ++ envelope_bytes fs ++ post)
      (Fin (Z.of_nat (length pre)))
      (Fin (Z.of_nat (length pre) + Z.of_nat (length (envelope_bytes fs)))) ts
    = Some (last_timestamp fs ts).
Proof.
  induction fs as [|f fs IH]; intros pre post fuel ts Hok Hsafe Hfuel.
  - destruct fuel as [|fuel]; [cbn in Hfuel; lia|].
    cbn [parseHeaderTimestamp_loop envelope_bytes map concat length JS.ltb].
    rewrite Z.add_0_r, Z.ltb_irrefl. reflexivity.
  - cbn [forallb] in Hok. apply andb_true_iff in Hok as [Hf Hfs].
    cbn [length] in Hfuel. destruct fuel as [|fuel]; [lia|].
    rewrite envelope_bytes_cons in *.
    assert (Hu8 : pre ++ (field_bytes f ++ envelope_bytes fs) ++ post
                  = pre ++ field_bytes f ++ (envelope_bytes fs ++ post))
      by (rewrite <- !app_assoc; reflexivity).
    rewrite Hu8 in *.
    destruct (readVarint_field_key pre (envelope_bytes fs ++ post) f Hf Hsafe)
      as [Ekey Hk].
    pose proof (skipField_field pre (envelope_bytes fs ++ post) f Hf Hsafe)
      as Eskip.
    pose proof Hsafe as Hlen. unfold safe_length in Hlen.
    rewrite !length_app, field_bytes_length in Hlen.
    assert (Hkne : (1 <= length (f_key f))%nat).
    { unfold field_ok in Hf. apply andb_true_iff in Hf as [Hf _].
      apply andb_true_iff in Hf as [Hkb _]. now apply varint_ok_nonempty. }
    cbn [parseHeaderTimestamp_loop JS.ltb].
    rewrite length_app, field_bytes_length.
    destruct (Z.ltb_spec (Z.of_nat (length pre))
                (Z.of_nat (length pre)
                 + Z.of_nat (length (f_key f) + length (f_len f)
                             + length (f_body f) + length (envelope_bytes fs))));
      [|lia].
    rewrite Ekey. cbn [next value].
    rewrite band_key, sar_key_eqb by lia.
    fold (field_no f). fold (field_wire f).
    change ((field_no f =? 3) && (field_wire f =? 0)) with (is_timestamp f).
    assert (Hnext : forall ts',
               parseHeaderTimestamp_loop fuel
                 (pre ++ field_bytes f ++ envelope_bytes fs ++ post)
                 (Fin (Z.of_nat (length pre)
                       + Z.of_nat (length (field_bytes f))))
                 (Fin (Z.of_nat (length pre)
                       + Z.of_nat (length (f_key f) + length (f_len f)
                                   + length (f_body f)
                                   + length (envelope_bytes fs)))) ts'
               = Some (last_timestamp fs ts')).
    { intros ts'.
      replace (pre ++ field_bytes f ++ envelope_bytes fs ++ post)
        with ((pre ++ field_bytes f) ++ envelope_bytes fs ++ post)
        by (rewrite <- !app_assoc; reflexivity).
      replace (Z.of_nat (length pre) + Z.of_nat (length (field_bytes f)))
        with (Z.of_nat (length (pre ++ field_bytes f)))
        by (rewrite length_app; lia).
      replace (Z.of_nat (length pre)
               + Z.of_nat (length (f_key f) + length (f_len f)
                           + length (f_body f) + length (envelope_bytes fs)))
        with (Z.of_nat (length (pre ++ field_bytes f))
              + Z.of_nat (length (envelope_bytes fs)))
        by (rewrite length_app, field_bytes_length; lia).
      apply IH; try assumption; try lia.
      unfold safe_length. rewrite !length_app, field_bytes_length. lia. }
    cbn [last_timestamp fold_left]. fold (last_timestamp fs).
    destruct (is_timestamp f) eqn:Hts.
    + (* the timestamp record: a varint payload *)
      unfold is_timestamp in Hts. apply andb_true_iff in Hts as [_ Hwt].
      apply Z.eqb_eq in Hwt.
      unfold field_ok in Hf. apply andb_true_iff in Hf as [_ Hpay].
      rewrite Hwt in Hpay. cbn in Hpay.
      apply andb_true_iff in Hpay as [Hlb Hbody].
      destruct f as [kb lb body]. cbn [f_key f_len f_body] in *.
      destruct lb; [|discriminate]. cbn [length] in *.
      assert (Eb : readVarint
                     (pre ++ field_bytes (mkField kb [] body)
                      ++ envelope_bytes fs ++ post)
                     (Fin (Z.of_nat (length pre) + Z.of_nat (length kb)))
                   = mkVarint (JS.of_Z (varint_value body))
                       (Fin (Z.of_nat (length pre)
                             + Z.of_nat
                                 (length (field_bytes (mkField kb [] body)))))).
      { replace (pre ++ field_bytes (mkField kb [] body)
                 ++ envelope_bytes fs ++ post)
          with ((pre ++ kb) ++ body ++ (envelope_bytes fs ++ post))
          by (unfold field_bytes; cbn [f_key f_len f_body app];
              rewrite <- !app_assoc; reflexivity).
        replace (Z.of_nat (length pre) + Z.of_nat (length kb))
          with (Z.of_nat (length (pre ++ kb))) by (rewrite length_app; lia).
        rewrite readVarint_app by (assumption || rewrite length_app; lia).
        rewrite field_bytes_length. cbn [f_key f_len f_body length].
        do 2 f_equal. rewrite length_app. lia. }
      rewrite Eb. cbn [next value]. apply Hnext.
    + rewrite Eskip. apply Hnext.
Qed.

(** X7.  On a header body made of well-formed records, wherever it sits in
    the buffer, [parseHeaderTimestamp] returns the value of the last record
    of field 3 with wire type 0, and [null] when the body has none; records
    of any other field number or wire type are passed over. *)
Theorem parseHeaderTimestamp_last_timestamp (fs : list field)
    (pre post : list byte) (fuel : nat) :
  forallb field_ok fs = true ->
  safe_length (pre ++ envelope_bytes fs ++ post) ->
  (length fs < fuel)%nat ->
  parseHeaderTimestamp fuel (pre ++ envelope_bytes fs ++ post)
    (Fin (Z.of_nat (length pre)))
    (Fin (Z.of_nat (length pre) + Z.of_nat (length (envelope_bytes fs))))
  = Some (last_timestamp fs None).
Proof.
  intros Hok Hsafe Hfuel. unfold parseHeaderTimestamp.
  now apply parseHeaderTimestamp_loop_fields.
Qed.

Lemma parseHeaderTimestamp_last_timestamp_witness :
  forallb field_ok sample_header_fields = true
  /\ safe_length ([x0a; x0c] ++ envelope_bytes sample_header_fields ++ [x12; x00])
  /\ (length sample_header_fields < 4)%nat
  /\ last_timestamp sample_header_fields None = Some (Fin 300)
  /\ parseHeaderTimestamp 4
       ([x0a; x0c] ++ envelope_bytes sample_header_fields ++ [x12; x00])
       (Fin (Z.of_nat (length [x0a; x0c])))
       (Fin (Z.of_nat (length [x0a; x0c])
             + Z.of_nat (length (envelope_bytes sample_header_fields))))
     = Some (last_timestamp sample_header_fields None).
Proof.
  assert (H1 : forallb field_ok sample_header_fields = true) by reflexivity.
  assert (H2 : safe_length
                 ([x0a; x0c] ++ envelope_bytes sample_header_fields
                  ++ [x12; x00]))
    by (unfold safe_length; cbn; lia).
  assert (H3 : (length sample_header_fields < 4)%nat) by (cbn; lia).
  split; [exact H1|]. split; [exact H2|]. split; [exact H3|].
  split; [vm_compute; reflexivity|].
  exact (parseHeaderTimestamp_last_timestamp sample_header_fields [x0a; x0c]
           [x12; x00] 4 H1 H2 H3).
Defined.

Lemma counted_small (n : nat) :
  Z.of_nat n <= 2 ^ 53 -> counted n = Fin (Z.of_nat n).
Proof.
  induction n as [|n IH]; intros Hn; [reflexivity|].
  change (counted (S n)) with (JS.add (counted n) (Fin 1)).
  rewrite IH by lia. rewrite add_small by lia.
  f_equal. lia.
Qed.

Lemma parseFeedMeta_loop_counts_like_parseFeedMessage
    (decode : list byte -> string) (u8 : list byte) (feed : Api.FeedMessage)
    (meta : FeedMeta) :
  forall (fuel1 fuel2 : nat) (pos : Number) (feed0 : Api.FeedMessage)
         (ts : option Number),
    Api.parseFeedMessage_loop decode fuel1 u8 pos feed0 = Some (Api.Ret feed) ->
    parseFeedMeta_loop fuel2 u8 pos (counted (length (Api.entity feed0))) ts
    = Some meta ->
    entityCount meta = counted (length (Api.entity feed)).
Proof.
  induction fuel1 as [|fuel1 IH]; intros fuel2 pos feed0 ts H1 H2;
    [discriminate|].
  destruct fuel2 as [|fuel2]; [discriminate|].
  cbn [Api.parseFeedMessage_loop] in H1. cbn [parseFeedMeta_loop] in H2.
  destruct (JS.ltb pos (u8_length u8)).
  - destruct (JS.band (value (readVarint u8 pos)) 7 =? 2).
    + destruct (JS.sar (value (readVarint u8 pos)) 3 =? 1).
      * destruct (parseHeaderTimestamp fuel1 u8 _ _) as [ts1|];
          [|discriminate].
        destruct (parseHeaderTimestamp fuel2 u8 _ _) as [ts2|];
          [|discriminate].
        eapply IH; [exact H1|exact H2].
      * destruct (JS.sar (value (readVarint u8 pos)) 3 =? 2).
        -- destruct (Api.parseEntity decode fuel1 u8 _ _) as [[en|e]|];
             try discriminate.
           eapply IH; [exact H1|].
           cbn [Api.entity]. rewrite length_app. cbn [length].
           rewrite Nat.add_1_r.
           change (counted (S (length (Api.entity feed0))))
             with (JS.add (counted (length (Api.entity feed0))) (Fin 1)).
           exact H2.
        -- eapply IH; [exact H1|exact H2].
    + eapply IH; [exact H1|exact H2].
  - injection H1 as <-. injection H2 as <-. reflexivity.
Qed.

(** X8.  The two workers count alike.  Whenever the query router's decode
    ([parseFeedMessage]) of a blob returns a feed and the ingestion worker's
    decode ([parseFeedMeta]) of the same blob returns, the entity count that
    ingestion stores is the number of entities the router decodes. *)
Theorem entity_count_is_number_of_decoded_entities
    (decode : list byte -> string) (ab : list byte) (fuel1 fuel2 : nat)
    (feed : Api.FeedMessage) (meta : FeedMeta) :
  Api.parseFeedMessage decode fuel1 ab = Some (Api.Ret feed) ->
  parseFeedMeta fuel2 ab = Some meta ->
  entityCount meta = counted (length (Api.entity feed))
  /\ (Z.of_nat (length (Api.entity feed)) <= 2 ^ 53 ->
      entityCount meta = Fin (Z.of_nat (length (Api.entity feed)))).
Proof.
  intros H1 H2.
  assert (E : entityCount meta = counted (length (Api.entity feed))).
  { eapply parseFeedMeta_loop_counts_like_parseFeedMessage;
      [exact H1|exact H2]. }
  split; [exact E|]. intros Hn. rewrite E. now apply counted_small.
Qed.

Lemma sample_feed_message :
  Api.parseFeedMessage string_of_list_byte 100 sample_feed
  = Some (Api.Ret
            (Api.mkFeedMessage (Some (Fin 1741579140))
               [Api.mkEntity (Some "e1"%string)
                  (Some (Api.mkTripUpdate
                           (Api.mkTripDescriptor (Some "T1"%string)
                              (Some "10"%string))
                           [Api.mkStopTimeUpdate (Some "S1"%string)
                              (Some (Fin 5))
                              (Some (Api.mkStopTimeEvent (Some (Fin 60)) None))
                              None]))
                  None])).
Proof. vm_compute. reflexivity. Qed.

Lemma entity_count_is_number_of_decoded_entities_witness :
  Api.parseFeedMessage string_of_list_byte 100 sample_feed
  = Some (Api.Ret
            (Api.mkFeedMessage (Some (Fin 1741579140))
               [Api.mkEntity (Some "e1"%string)
                  (Some (Api.mkTripUpdate
                           (Api.mkTripDescriptor (Some "T1"%string)
                              (Some "10"%string))
                           [Api.mkStopTimeUpdate (Some "S1"%string)
                              (Some (Fin 5))
                              (Some (Api.mkStopTimeEvent (Some (Fin 60)) None))
                              None]))
                  None]))
  /\ parseFeedMeta 100 sample_feed
     = Some (mkFeedMeta (Fin 1) (Some (Fin 1741579140)))
  /\ entityCount (mkFeedMeta (Fin 1) (Some (Fin 1741579140)))
     = counted 1.
Proof.
  split; [exact sample_feed_message|]. split; [exact sample_feed_meta|].
  exact (proj1 (entity_count_is_number_of_decoded_entities string_of_list_byte
                  sample_feed 100 100 _ _ sample_feed_message
                  sample_feed_meta)).
Defined.

(** ** The fingerprint text *)

Lemma byte_of_hex_digits (b : byte) :
  byte_of_Z (16 * hex_value (hex_digit (byteZ b / 16))
             + hex_value (hex_digit (byteZ b mod 16))) = b.
Proof. destruct b; vm_compute; reflexivity. Qed.

Lemma bytes_of_hex_hex_of_bytes (h : list byte) :
  bytes_of_hex (hex_of_bytes h) = h.
Proof.
  induction h as [|b h IH]; [reflexivity|].
  cbn [hex_of_bytes bytes_of_hex]. now rewrite byte_of_hex_digits, IH.
Qed.

Lemma length_hex_of_bytes (h : list byte) :
  String.length (hex_of_bytes h) = (2 * length h)%nat.
Proof.
  induction h as [|b h IH]; [reflexivity|].
  cbn [hex_of_bytes String.length length]. rewrite IH. lia.
Qed.

(** X9.  The fingerprint text of [sha256Hex] loses nothing of the digest:
    it has two characters per digest byte, the digest is read back from it,
    and two buffers have the same text exactly when they have the same
    digest. *)
Theorem sha256Hex_is_faithful_to_the_digest
    (sha256_digest : list byte -> list byte) :
  (forall ab,
      String.length (sha256Hex sha256_digest ab)
      = (2 * length (sha256_digest ab))%nat)
  /\ (forall ab,
         bytes_of_hex (sha256Hex sha256_digest ab) = sha256_digest ab)
  /\ (forall ab1 ab2,
         sha256Hex sha256_digest ab1 = sha256Hex sha256_digest ab2
         <-> sha256_digest ab1 = sha256_digest ab2).
Proof.
  unfold sha256Hex. split; [|split].
  - intros ab. apply length_hex_of_bytes.
  - intros ab. apply bytes_of_hex_hex_of_bytes.
  - intros ab1 ab2. split; [|now intros ->].
    intros H. apply (f_equal bytes_of_hex) in H.
    now rewrite !bytes_of_hex_hex_of_bytes in H.
Qed.

(** ** The replace chain of [fmtISO_Montreal] *)

Lemma occurs_app (c : ascii) (a b : string) :
  occurs c (a ++ b) = occurs c a || occurs c b.
Proof.
  induction a as [|x a IH]; cbn [String.append occurs]; [reflexivity|].
  now rewrite IH, orb_assoc.
Qed.

Lemma occurs_replace_all_same (c : ascii) (r s : string) :
  occurs c r = false -> occurs c (replace_all c r s) = false.
Proof.
  intros Hr. induction s as [|x s IH]; cbn [replace_all occurs]; [reflexivity|].
  destruct (Ascii.eqb x c) eqn:E.
  - now rewrite occurs_app, Hr, IH.
  - cbn [occurs]. now rewrite E, IH.
Qed.

Lemma occurs_replace_all_other (c a : ascii) (r s : string) :
  occurs c r = false -> occurs c s = false ->
  occurs c (replace_all a r s) = false.
Proof.
  intros Hr. induction s as [|x s IH]; cbn [replace_all occurs]; [reflexivity|].
  intros H. apply orb_false_iff in H as [Hx Hs].
  destruct (Ascii.eqb x a).
  - now rewrite occurs_app, Hr, IH.
  - cbn [occurs]. now rewrite Hx, IH.
Qed.

Lemma occurs_replace_first_other (c a : ascii) (r s : string) :
  occurs c r = false -> occurs c s = false ->
  occurs c (replace_first a r s) = false.
Proof.
  intros Hr. induction s as [|x s IH]; cbn [replace_first occurs]; [reflexivity|].
  intros H. apply orb_false_iff in H as [Hx Hs].
  destruct (Ascii.eqb x a).
  - now rewrite occurs_app, Hr, Hs.
  - cbn [occurs]. now rewrite Hx, IH.
Qed.

Lemma replace_first_app (c : ascii) (r a b : string) :
  occurs c a = false ->
  replace_first c r (a ++ String c b) = (a ++ r ++ b)%string.
Proof.
  induction a as [|x a IH]; cbn [String.append replace_first occurs].
  - intros _. now rewrite Ascii.eqb_refl.
  - intros H. apply orb_false_iff in H as [Hx Ha].
    now rewrite Hx, IH.
Qed.

Lemma string_app_assoc (a b c : string) :
  ((a ++ b) ++ c = a ++ b ++ c)%string.
Proof.
  induction a as [|x a IH]; cbn [String.append]; [reflexivity|].
  now rewrite IH.
Qed.

Lemma replace_all_app (c : ascii) (r a b : string) :
  replace_all c r (a ++ b)
  = (replace_all c r a ++ replace_all c r b)%string.
Proof.
  induction a as [|x a IH]; cbn [String.append replace_all]; [reflexivity|].
  rewrite IH. destruct (Ascii.eqb x c); cbn [String.append]; [|reflexivity].
  now rewrite string_app_assoc.
Qed.

Lemma replace_all_absent (c : ascii) (r a : string) :
  occurs c a = false -> replace_all c r a = a.
Proof.
  induction a as [|x a IH]; cbn [replace_all occurs]; [reflexivity|].
  intros H. apply orb_false_iff in H as [Hx Ha]. now rewrite Hx, IH.
Qed.

Lemma free_of_occurs (cs : list ascii) (s : string) (c : ascii) :
  free_of cs s = true -> In c cs -> occurs c s = false.
Proof.
  unfold free_of. rewrite forallb_forall. intros H Hin.
  apply negb_true_iff. now apply H.
Qed.

(** X10.  Whatever the platform renders, the text [fmtISO_Montreal] returns
    holds no colon and no slash: the storage key gains no path separator
    from the timestamp. *)
Theorem fmtISO_Montreal_has_no_colon_or_slash
    (toLocaleString : Z -> string) (d : Z) :
  occurs ":" (fmtISO_Montreal_of toLocaleString d) = false
  /\ occurs "/" (fmtISO_Montreal_of toLocaleString d) = false.
Proof.
  unfold fmtISO_Montreal_of. split.
  - now apply occurs_replace_all_same.
  - apply occurs_replace_all_other; [reflexivity|].
    apply occurs_replace_first_other; [reflexivity|].
    now apply occurs_replace_all_same.
Qed.

(** The replace chain on a rendering [date, hh:mm:ss]. *)
Lemma fmtISO_Montreal_of_shape (toLocaleString : Z -> string) (t : Z)
    (date hh mm ss : string) :
  toLocaleString t = (date ++ ", " ++ hh ++ ":" ++ mm ++ ":" ++ ss)%string ->
  free_of [","; " "; ":"]%char date = true ->
  free_of ["/"; ":"]%char hh = true ->
  free_of ["/"; ":"]%char mm = true ->
  free_of ["/"; ":"]%char ss = true ->
  fmtISO_Montreal_of toLocaleString t
  = (replace_all "/" "-" date ++ "T" ++ hh ++ "-" ++ mm ++ "-" ++ ss)%string.
Proof.
  intros Hs Hd Hh Hm Hss. unfold fmtISO_Montreal_of. rewrite Hs.
  pose proof (free_of_occurs _ _ "," Hd ltac:(cbn; tauto)) as Hd1.
  pose proof (free_of_occurs _ _ " " Hd ltac:(cbn; tauto)) as Hd2.
  pose proof (free_of_occurs _ _ ":" Hd ltac:(cbn; tauto)) as Hd3.
  pose proof (free_of_occurs _ _ "/" Hh ltac:(cbn; tauto)) as Hh1.
  pose proof (free_of_occurs _ _ ":" Hh ltac:(cbn; tauto)) as Hh2.
  pose proof (free_of_occurs _ _ "/" Hm ltac:(cbn; tauto)) as Hm1.
  pose proof (free_of_occurs _ _ ":" Hm ltac:(cbn; tauto)) as Hm2.
  pose proof (free_of_occurs _ _ "/" Hss ltac:(cbn; tauto)) as Hs1.
  pose proof (free_of_occurs _ _ ":" Hss ltac:(cbn; tauto)) as Hs2.
  cbn [String.append].
  rewrite (replace_first_app "," "" date _ Hd1). cbn [String.append].
  rewrite (replace_all_app "/" "-" date).
  cbn [replace_all]. change (Ascii.eqb " " "/") with false. cbn iota.
  rewrite (replace_all_app "/" "-" hh), (replace_all_absent "/" "-" hh Hh1).
  cbn [replace_all]. change (Ascii.eqb ":" "/") with false. cbn iota.
  rewrite (replace_all_app "/" "-" mm), (replace_all_absent "/" "-" mm Hm1).
  cbn [replace_all]. change (Ascii.eqb ":" "/") with false. cbn iota.
  rewrite (replace_all_absent "/" "-" ss Hs1).
  assert (Hd2' : occurs " " (replace_all "/" "-" date) = false)
    by now apply occurs_replace_all_other.
  assert (Hd3' : occurs ":" (replace_all "/" "-" date) = false)
    by now apply occurs_replace_all_other.
  rewrite (replace_first_app " " "T" _ _ Hd2').
  rewrite (replace_all_app ":" "-" (replace_all "/" "-" date)),
    (replace_all_absent ":" "-" _ Hd3').
  cbn [String.append replace_all]. change (Ascii.eqb "T" ":") with false.
  cbn iota.
  rewrite (replace_all_app ":" "-" hh), (replace_all_absent ":" "-" hh Hh2).
  cbn [replace_all]. rewrite Ascii.eqb_refl. cbn [String.append].
  rewrite (replace_all_app ":" "-" mm), (replace_all_absent ":" "-" mm Hm2).
  cbn [replace_all]. rewrite Ascii.eqb_refl. cbn [String.append].
  now rewrite (replace_all_absent ":" "-" ss Hs2).
Qed.

(** X11.  On a rendering [date, hh:mm:ss] whose date holds no comma, blank
    or colon and whose time fields hold no slash or colon, [fmtISO_Montreal]
    returns the date with its slashes turned into hyphens, a [T], and the
    time fields joined by hyphens. *)
Theorem fmtISO_Montreal_of_rendering (toLocaleString : Z -> string) (t : Z)
    (date hh mm ss : string) :
  toLocaleString t = (date ++ ", " ++ hh ++ ":" ++ mm ++ ":" ++ ss)%string ->
  free_of [","; " "; ":"]%char date = true ->
  free_of ["/"; ":"]%char hh = true ->
  free_of ["/"; ":"]%char mm = true ->
  free_of ["/"; ":"]%char ss = true ->
  fmtISO_Montreal_of toLocaleString t
  = (replace_all "/" "-" date ++ "T" ++ hh ++ "-" ++ mm ++ "-" ++ ss)%string.
Proof. exact (fmtISO_Montreal_of_shape toLocaleString t date hh mm ss). Qed.

Lemma fmtISO_Montreal_of_rendering_witness :
  fmtISO_Montreal_of (fun _ => "2025-03-09, 23:59:00"%string) evening_of_9_march
  = Toronto.fmtISO evening_of_9_march.
Proof.
  rewrite (fmtISO_Montreal_of_rendering _ evening_of_9_march
             "2025-03-09" "23" "59" "00");
    reflexivity.
Defined.

(** ** What one [saveRT] and one [scheduled] run change *)

Lemma stored_count_with_log (t : RawTable) (l : LogRow) (env : Env)
    (pkey hash : string) :
  stored_count t (with_log l env) pkey hash = stored_count t env pkey hash.
Proof. unfold stored_count. now rewrite raw_rows_with_log. Qed.

Lemma unique_fingerprints_with_log (l : LogRow) (env : Env) :
  unique_fingerprints env -> unique_fingerprints (with_log l env).
Proof. intros H t pk h. rewrite stored_count_with_log. apply H. Qed.

Section ScheduledProofs.

Variable sha256_digest : list byte -> list byte.
Variable fmtYMD_Montreal : Z -> string.
Variable fmtISO_Montreal : Z -> string.
Variable datetime_localtime : Z -> string.
Variable fetch : nat -> string -> option string -> FetchOutcome.

Local Abbreviation save :=
  (saveRT sha256_digest fmtYMD_Montreal fmtISO_Montreal datetime_localtime).
Local Abbreviation fingerprint := (sha256Hex sha256_digest).
Local Abbreviation path_of := (storage_path fmtYMD_Montreal fmtISO_Montreal).
Local Abbreviation run_loop :=
  (scheduled_loop sha256_digest fmtYMD_Montreal fmtISO_Montreal
     datetime_localtime fetch).
Local Abbreviation run :=
  (scheduled sha256_digest fmtYMD_Montreal fmtISO_Montreal
     datetime_localtime fetch).

(** The two ways a [saveRT] returns. *)
Lemma saveRT_skipped (fuel : nat) (env : Env) (now : Z) (pkey : string)
    (fid : Z) (kind : string) (ab : list byte) (env1 : Env) (r1 : SaveResult) :
  save fuel env now pkey fid kind ab = Some (env1, r1) ->
  hash_exists (table_of_kind kind) env pkey (fingerprint ab) = true ->
  env1 = env /\ r1 = mkSaveResult true None.
Proof.
  unfold saveRT. intros H Hex. rewrite Hex in H. now injection H as <- <-.
Qed.

Lemma saveRT_stored (fuel : nat) (env : Env) (now : Z) (pkey : string)
    (fid : Z) (kind : string) (ab : list byte) (env1 : Env) (r1 : SaveResult) :
  save fuel env now pkey fid kind ab = Some (env1, r1) ->
  hash_exists (table_of_kind kind) env pkey (fingerprint ab) = false ->
  r1 = mkSaveResult false (Some (path_of pkey kind now))
  /\ R2 env1 = R2_put (R2 env) (path_of pkey kind now) ab now
  /\ DB env1 = DB env
  /\ exists l, ingest_log env1 = ingest_log env ++ [l].
Proof.
  unfold saveRT. intros H Hex. rewrite Hex in H.
  destruct (parseFeedMeta fuel ab) as [meta|]; [|discriminate].
  injection H as <- <-. repeat split.
  - now destruct (table_of_kind kind).
  - now destruct (table_of_kind kind).
  - destruct (table_of_kind kind); eexists; reflexivity.
Qed.

Lemma saveRT_skipped_iff (fuel : nat) (env : Env) (now : Z) (pkey : string)
    (fid : Z) (kind : string) (ab : list byte) (env1 : Env) (r1 : SaveResult) :
  save fuel env now pkey fid kind ab = Some (env1, r1) ->
  skipped r1 = hash_exists (table_of_kind kind) env pkey (fingerprint ab).
Proof.
  intros H.
  destruct (hash_exists (table_of_kind kind) env pkey (fingerprint ab)) eqn:E.
  - now destruct (saveRT_skipped _ _ _ _ _ _ _ _ _ H E) as [_ ->].
  - now destruct (saveRT_stored _ _ _ _ _ _ _ _ _ H E) as [-> _].
Qed.

(** The rows a [saveRT] adds to a raw table: none, or one. *)
Lemma saveRT_rows_grow (fuel : nat) (env : Env) (now : Z) (pkey : string)
    (fid : Z) (kind : string) (ab : list byte) (env1 : Env) (r1 : SaveResult)
    (t : RawTable) :
  save fuel env now pkey fid kind ab = Some (env1, r1) ->
  exists new,
    raw_rows t env1 = raw_rows t env ++ new /\ (length new <= 1)%nat.
Proof.
  intros H.
  destruct (hash_exists (table_of_kind kind) env pkey (fingerprint ab)) eqn:E.
  - destruct (saveRT_skipped _ _ _ _ _ _ _ _ _ H E) as [-> _].
    exists []. rewrite app_nil_r. split; [reflexivity|cbn; lia].
  - destruct (saveRT_raw_rows _ _ _ _ _ _ _ _ _ _ _ _ _ E H)
      as (row & _ & _ & Hrows).
    rewrite Hrows. eexists. split; [reflexivity|].
    destruct (RawTable_eq_dec _ _); cbn [length]; lia.
Qed.

Lemma saveRT_count_grows (fuel : nat) (env : Env) (now : Z) (pkey : string)
    (fid : Z) (kind : string) (ab : list byte) (env1 : Env) (r1 : SaveResult)
    (t : RawTable) (pk h : string) :
  save fuel env now pkey fid kind ab = Some (env1, r1) ->
  (stored_count t env pk h <= stored_count t env1 pk h)%nat.
Proof.
  intros H. unfold stored_count.
  destruct (saveRT_rows_grow _ _ _ _ _ _ _ _ _ t H) as (new & -> & _).
  rewrite filter_app, length_app. lia.
Qed.

(** After a [saveRT] that returned, the fingerprint of the blob is stored
    for the source key. *)
Lemma saveRT_count_after (fuel : nat) (env : Env) (now : Z) (pkey : string)
    (fid : Z) (kind : string) (ab : list byte) (env1 : Env) (r1 : SaveResult) :
  save fuel env now pkey fid kind ab = Some (env1, r1) ->
  (1 <= stored_count (table_of_kind kind) env1 pkey (fingerprint ab))%nat.
Proof.
  intros H.
  destruct (hash_exists (table_of_kind kind) env pkey (fingerprint ab)) eqn:E.
  - destruct (saveRT_skipped _ _ _ _ _ _ _ _ _ H E) as [-> _].
    now apply hash_exists_count.
  - destruct (saveRT_raw_rows _ _ _ _ _ _ _ _ _ _ _ _ _ E H)
      as (row & Hpk & Hh & Hrows).
    unfold stored_count. rewrite Hrows, filter_app, length_app.
    destruct (RawTable_eq_dec _ _) as [_|Hne]; [|now elim Hne].
    cbn [filter]. unfold has_fingerprint at 2.
    rewrite Hpk, Hh, !String.eqb_refl. cbn [andb length]. lia.
Qed.

Lemma saveRT_keeps_unique (fuel : nat) (env : Env) (now : Z) (pkey : string)
    (fid : Z) (kind : string) (ab : list byte) (env1 : Env) (r1 : SaveResult) :
  unique_fingerprints env ->
  save fuel env now pkey fid kind ab = Some (env1, r1) ->
  unique_fingerprints env1.
Proof.
  intros Huniq H.
  destruct (hash_exists (table_of_kind kind) env pkey (fingerprint ab)) eqn:E.
  - now destruct (saveRT_skipped _ _ _ _ _ _ _ _ _ H E) as [-> _].
  - destruct (saveRT_raw_rows _ _ _ _ _ _ _ _ _ _ _ _ _ E H)
      as (row & Hpk & Hh & Hrows).
    pose proof (hash_exists_false_count _ _ _ _ E) as H0.
    intros t pk h. unfold stored_count. rewrite Hrows, filter_app, length_app.
    pose proof (Huniq t pk h) as Hle. unfold stored_count in Hle.
    destruct (RawTable_eq_dec t (table_of_kind kind)) as [->|_];
      cbn [filter length]; [|lia].
    destruct (has_fingerprint pk h row) eqn:Hfp; cbn [length]; [|lia].
    apply has_fingerprint_true in Hfp as [Ea Eb].
    rewrite Hpk in Ea. rewrite Hh in Eb. subst pk h.
    unfold stored_count in H0. rewrite H0. lia.
Qed.

(** X12.  A [saveRT] only appends: each raw table and the log keep their
    rows and gain at most one, the aggregate tables are untouched, every
    object under another key than the one it writes is still read as
    before, and a skip changes nothing at all. *)
Theorem saveRT_only_appends (fuel : nat) (env : Env) (now : Z) (pkey : string)
    (fid : Z) (kind : string) (ab : list byte) (env1 : Env) (r1 : SaveResult) :
  save fuel env now pkey fid kind ab = Some (env1, r1) ->
  (forall t, exists new,
      raw_rows t env1 = raw_rows t env ++ new /\ (length new <= 1)%nat)
  /\ (exists new,
         ingest_log env1 = ingest_log env ++ new /\ (length new <= 1)%nat)
  /\ DB env1 = DB env
  /\ (forall k, k <> path_of pkey kind now ->
                R2_get (R2 env1) k = R2_get (R2 env) k)
  /\ (skipped r1 = true -> env1 = env).
Proof.
  intros H. split; [intros t; now apply (saveRT_rows_grow _ _ _ _ _ _ _ _ _ t H)|].
  destruct (hash_exists (table_of_kind kind) env pkey (fingerprint ab)) eqn:E.
  - destruct (saveRT_skipped _ _ _ _ _ _ _ _ _ H E) as [-> ->].
    repeat split; try reflexivity.
    exists []. rewrite app_nil_r. split; [reflexivity|cbn; lia].
  - destruct (saveRT_stored _ _ _ _ _ _ _ _ _ H E)
      as (-> & HR2 & HDB & l & Hlog).
    split; [exists [l]; split; [exact Hlog|cbn; lia]|].
    split; [exact HDB|]. split; [|discriminate].
    intros k Hk. rewrite HR2. now apply R2_get_put_other.
Qed.

(** X13.  Two different blobs of one source key and feed kind stored at two
    instants that format alike (the same local second) get the same storage
    key: both rows are in the raw table afterwards, but the bucket holds one
    object under that key, and it is the second blob. *)
Theorem saveRT_same_second_keeps_one_blob (fuel : nat) (env : Env)
    (now1 now2 : Z) (pkey : string) (fid1 fid2 : Z) (kind : string)
    (ab1 ab2 : list byte) (env1 env2 : Env) (r1 r2 : SaveResult) :
  fmtYMD_Montreal now1 = fmtYMD_Montreal now2 ->
  fmtISO_Montreal now1 = fmtISO_Montreal now2 ->
  save fuel env now1 pkey fid1 kind ab1 = Some (env1, r1) ->
  skipped r1 = false ->
  save fuel env1 now2 pkey fid2 kind ab2 = Some (env2, r2) ->
  skipped r2 = false ->
  ab1 <> ab2
  /\ path r1 = path r2
  /\ (1 <= stored_count (table_of_kind kind) env2 pkey (fingerprint ab1))%nat
  /\ (1 <= stored_count (table_of_kind kind) env2 pkey (fingerprint ab2))%nat
  /\ filter (fun o => String.eqb (key o) (path_of pkey kind now1)) (R2 env2)
     = [mkR2Object (path_of pkey kind now1) now2 ab2].
Proof.
  intros Hymd Hiso H1 Hs1 H2 Hs2.
  assert (Hpath : path_of pkey kind now1 = path_of pkey kind now2)
    by (unfold storage_path; now rewrite Hymd, Hiso).
  rewrite (saveRT_skipped_iff _ _ _ _ _ _ _ _ _ H1) in Hs1.
  rewrite (saveRT_skipped_iff _ _ _ _ _ _ _ _ _ H2) in Hs2.
  pose proof (saveRT_count_after _ _ _ _ _ _ _ _ _ H1) as Hc1.
  pose proof (saveRT_count_after _ _ _ _ _ _ _ _ _ H2) as Hc2.
  destruct (saveRT_stored _ _ _ _ _ _ _ _ _ H1 Hs1) as (-> & _).
  destruct (saveRT_stored _ _ _ _ _ _ _ _ _ H2 Hs2) as (-> & HR2 & _).
  split; [|split; [|split; [|split]]].
  - intros ->. apply hash_exists_count in Hc1. congruence.
  - cbn [path]. now rewrite Hpath.
  - pose proof (saveRT_count_grows _ _ _ _ _ _ _ _ _ (table_of_kind kind)
                  pkey (fingerprint ab1) H2). lia.
  - exact Hc2.
  - rewrite HR2, Hpath. apply R2_put_one_object.
Qed.

(** An invariant of the store that writing a log row and [saveRT] keep is
    kept by the loop of [scheduled]. *)
Lemma scheduled_loop_invariant (P : Env -> Prop) (key_ : option string)
    (fuel : nat) (clock : nat -> Z) :
  (forall env l, P env -> P (with_log l env)) ->
  (forall env now pkey fid kind ab env1 r1,
      P env -> save fuel env now pkey fid kind ab = Some (env1, r1) -> P env1) ->
  forall feeds i env env',
    P env -> run_loop key_ fuel clock i env feeds = Some env' -> P env'.
Proof.
  intros Hlog Hsave. induction feeds as [|f feeds IH]; intros i env env' HP H;
    cbn [scheduled_loop] in H.
  - now injection H as <-.
  - destruct (fetch i _ _) as [msg str|ok st tx ab].
    + eapply IH; [|exact H]. now apply Hlog.
    + destruct ok; cbn [negb] in H.
      * destruct (save fuel env (clock i) _ _ _ ab) as [[env1 r1]|] eqn:E;
          [|discriminate].
        eapply IH; [|exact H]. eapply Hsave; [exact HP|exact E].
      * eapply IH; [|exact H]. now apply Hlog.
Qed.

(** X14.  A run of [scheduled] keeps the raw tables free of repeated
    (source key, fingerprint) pairs, whatever the network delivers. *)
Theorem scheduled_keeps_fingerprints_unique (STM_API_KEY : option string)
    (fuel : nat) (clock : nat -> Z) (env env' : Env)
    (feed_endpoints : list FeedEndpoint) :
  unique_fingerprints env ->
  run STM_API_KEY fuel clock env feed_endpoints = Some env' ->
  unique_fingerprints env'.
Proof.
  intros Huniq H. unfold scheduled in H.
  eapply (scheduled_loop_invariant unique_fingerprints); [| |exact Huniq|exact H].
  - intros e l. apply unique_fingerprints_with_log.
  - intros e now pkey fid kind ab e1 r1 He Hs.
    eapply saveRT_keeps_unique; eassumption.
Qed.

Lemma scheduled_loop_stores (key_ : option string) (fuel : nat)
    (clock : nat -> Z) (feeds : list FeedEndpoint) :
  forall i env env',
    run_loop key_ fuel clock i env feeds = Some env' ->
    forall n f ab,
      nth_error feeds n = Some f ->
      delivered (fetch (i + n) (fe_url f)
                   (buildHeaders key_ (fe_provider_key f))) = Some ab ->
      (1 <= stored_count (table_of_kind (fe_feed_kind f)) env'
              (fe_provider_key f) (fingerprint ab))%nat.
Proof.
  induction feeds as [|g feeds IH]; intros i env env' H n f ab Hn Hd.
  - now destruct n.
  - destruct n as [|n]; cbn [nth_error] in Hn.
    + injection Hn as ->. rewrite Nat.add_0_r in Hd.
      cbn [scheduled_loop] in H.
      destruct (fetch i _ _) as [msg str|ok st tx ab0]; [discriminate|].
      destruct ok; [|discriminate]. injection Hd as ->. cbn [negb] in H.
      destruct (save fuel env (clock i) _ _ _ ab) as [[env1 r1]|] eqn:E;
        [|discriminate].
      pose proof (saveRT_count_after _ _ _ _ _ _ _ _ _ E) as H1.
      refine (scheduled_loop_invariant
                (fun e => (1 <= stored_count (table_of_kind (fe_feed_kind f)) e
                                 (fe_provider_key f) (fingerprint ab))%nat)
                key_ fuel clock _ _ feeds (S i) env1 env' H1 H).
      * intros e l. now rewrite stored_count_with_log.
      * intros e now pkey fid kind ab' e1 r1' He Hs.
        pose proof (saveRT_count_grows _ _ _ _ _ _ _ _ _
                      (table_of_kind (fe_feed_kind f)) (fe_provider_key f)
                      (fingerprint ab) Hs). lia.
    + replace (i + S n)%nat with (S i + n)%nat in Hd by lia.
      cbn [scheduled_loop] in H.
      destruct (fetch i _ _) as [msg str|ok st tx ab0].
      * eapply IH; eassumption.
      * destruct ok; cbn [negb] in H.
        -- destruct (save fuel env (clock i) _ _ _ ab0) as [[env1 r1]|];
             [|discriminate].
           eapply IH; eassumption.
        -- eapply IH; eassumption.
Qed.

(** X15.  After a run of [scheduled], the fingerprint of every body that a
    selected feed delivered is stored for the feed's source key, in the
    table of its kind: a feed that fails, before or after, takes nothing
    away from the others. *)
Theorem scheduled_stores_every_delivered_feed (STM_API_KEY : option string)
    (fuel : nat) (clock : nat -> Z) (env env' : Env)
    (feed_endpoints : list FeedEndpoint) (n : nat) (f : FeedEndpoint)
    (ab : list byte) :
  run STM_API_KEY fuel clock env feed_endpoints = Some env' ->
  nth_error (active_rt_feeds feed_endpoints) n = Some f ->
  delivered (fetch n (fe_url f) (buildHeaders STM_API_KEY (fe_provider_key f)))
  = Some ab ->
  (1 <= stored_count (table_of_kind (fe_feed_kind f)) env'
          (fe_provider_key f) (fingerprint ab))%nat.
Proof.
  intros H Hn Hd. unfold scheduled in H.
  eapply scheduled_loop_stores; [exact H|exact Hn|exact Hd].
Qed.

Lemma scheduled_loop_returns (key_ : option string) (fuel : nat)
    (clock : nat -> Z) (feeds : list FeedEndpoint) :
  (forall i url k ab,
      delivered (fetch i url k) = Some ab ->
      exists meta, parseFeedMeta fuel ab = Some meta) ->
  forall i env, exists env', run_loop key_ fuel clock i env feeds = Some env'.
Proof.
  intros Hdec. induction feeds as [|f feeds IH]; intros i env;
    cbn [scheduled_loop]; [now eexists|].
  destruct (fetch i _ _) as [msg str|ok st tx ab] eqn:E; [apply IH|].
  destruct ok; cbn [negb]; [|apply IH].
  destruct (Hdec i _ _ ab ltac:(rewrite E; reflexivity)) as [meta Hmeta].
  destruct (saveRT_returns sha256_digest fmtYMD_Montreal fmtISO_Montreal
              datetime_localtime fuel env (clock i) (fe_provider_key f)
              (fe_feed_id f) (fe_feed_kind f) ab meta Hmeta)
    as (env1 & r1 & ->).
  apply IH.
Qed.

(** X16.  A run of [scheduled] returns whenever the decode of every body
    the network delivers does. *)
Theorem scheduled_returns (STM_API_KEY : option string) (fuel : nat)
    (clock : nat -> Z) (env : Env) (feed_endpoints : list FeedEndpoint) :
  (forall i url k ab,
      delivered (fetch i url k) = Some ab ->
      exists meta, parseFeedMeta fuel ab = Some meta) ->
  exists env', run STM_API_KEY fuel clock env feed_endpoints = Some env'.
Proof. intros Hdec. unfold scheduled. now apply scheduled_loop_returns. Qed.

Lemma scheduled_loop_all_fail (key_ : option string) (fuel : nat)
    (clock : nat -> Z) (feeds : list FeedEndpoint) :
  (forall i url k, delivered (fetch i url k) = None) ->
  forall i env, exists new,
    run_loop key_ fuel clock i env feeds
    = Some (mkEnv (rt_trip_updates_raw env) (rt_vehicle_positions_raw env)
              (ingest_log env ++ new) (R2 env) (DB env))
    /\ map log_feed_id new = map fe_feed_id feeds
    /\ map log_provider_key new = map fe_provider_key feeds
    /\ Forall (fun l => level l = "ERROR"%string /\ detail_json l = None) new.
Proof.
  intros Hfail. induction feeds as [|f feeds IH]; intros i env;
    cbn [scheduled_loop].
  - exists []. rewrite app_nil_r. destruct env. repeat split. constructor.
  - pose proof (Hfail i (fe_url f) (buildHeaders key_ (fe_provider_key f)))
      as Hd.
    destruct (fetch i _ _) as [msg str|ok st tx ab].
    + destruct (IH (S i) (log datetime_localtime env (clock i) "ERROR"
                            (if String.eqb msg "" then str else msg)
                            (fe_provider_key f) (fe_feed_id f) None))
        as (new & -> & Hid & Hpk & Hall).
      eexists (_ :: new). unfold log, with_log.
      cbn [rt_trip_updates_raw rt_vehicle_positions_raw ingest_log R2 DB].
      rewrite <- app_assoc. cbn [app map]. rewrite Hid, Hpk.
      repeat split. constructor; [now split|exact Hall].
    + destruct ok; [discriminate|]. cbn [negb].
      destruct (IH (S i) (log datetime_localtime env (clock i) "ERROR"
                            ("HTTP " ++ decimal st ++ " " ++ tx)
                            (fe_provider_key f) (fe_feed_id f) None))
        as (new & -> & Hid & Hpk & Hall).
      eexists (_ :: new). unfold log, with_log.
      cbn [rt_trip_updates_raw rt_vehicle_positions_raw ingest_log R2 DB].
      rewrite <- app_assoc. cbn [app map]. rewrite Hid, Hpk.
      repeat split. constructor; [now split|exact Hall].
Qed.

(** X17.  When no fetch delivers a body, a run of [scheduled] returns
    without any decode, leaves the raw tables, the bucket and the aggregate
    tables as they were, and appends one [ERROR] row without detail per
    selected feed to the log, in the order of the selection. *)
Theorem scheduled_logs_every_failure (STM_API_KEY : option string)
    (fuel : nat) (clock : nat -> Z) (env : Env)
    (feed_endpoints : list FeedEndpoint) :
  (forall i url k, delivered (fetch i url k) = None) ->
  exists new,
    run STM_API_KEY fuel clock env feed_endpoints
    = Some (mkEnv (rt_trip_updates_raw env) (rt_vehicle_positions_raw env)
              (ingest_log env ++ new) (R2 env) (DB env))
    /\ map log_feed_id new = map fe_feed_id (active_rt_feeds feed_endpoints)
    /\ map log_provider_key new
       = map fe_provider_key (active_rt_feeds feed_endpoints)
    /\ Forall (fun l => level l = "ERROR"%string /\ detail_json l = None) new.
Proof. intros Hfail. unfold scheduled. now apply scheduled_loop_all_fail. Qed.

Lemma scheduled_loop_key_unused (k1 k2 : option string) (fuel : nat)
    (clock : nat -> Z) (feeds : list FeedEndpoint) :
  Forall (fun f => fe_provider_key f <> "stm"%string) feeds ->
  forall i env,
    run_loop k1 fuel clock i env feeds = run_loop k2 fuel clock i env feeds.
Proof.
  induction 1 as [|f feeds Hf _ IH]; intros i env; cbn [scheduled_loop];
    [reflexivity|].
  unfold buildHeaders.
  destruct (String.eqb (fe_provider_key f) "stm") eqn:E;
    [apply String.eqb_eq in E; now elim Hf|].
  cbn [andb].
  destruct (fetch i _ _) as [msg str|ok st tx ab]; [apply IH|].
  destruct ok; cbn [negb]; [|apply IH].
  destruct (save fuel env (clock i) _ _ _ ab) as [[env1 r1]|]; [apply IH|].
  reflexivity.
Qed.

(** X18.  The API key reaches only feeds of source key [stm]: when no
    selected feed has that source key, the run is the same whatever the
    key is. *)
Theorem scheduled_key_only_for_stm (k1 k2 : option string) (fuel : nat)
    (clock : nat -> Z) (env : Env) (feed_endpoints : list FeedEndpoint) :
  Forall (fun f => fe_provider_key f <> "stm"%string)
    (active_rt_feeds feed_endpoints) ->
  run k1 fuel clock env feed_endpoints = run k2 fuel clock env feed_endpoints.
Proof. intros H. unfold scheduled. now apply scheduled_loop_key_unused. Qed.

End ScheduledProofs.

(** ** The storage key (C9) *)

Lemma digit_not (k : Z) (c : ascii) :
  (nat_of_ascii c < 48 \/ 57 < nat_of_ascii c)%nat ->
  Ascii.eqb (Toronto.digit (k mod 10)) c = false.
Proof.
  intros Hc. apply Ascii.eqb_neq. intros <-.
  pose proof (Z.mod_pos_bound k 10 ltac:(lia)) as Hk.
  unfold Toronto.digit in Hc. rewrite nat_ascii_embedding in Hc; lia.
Qed.

Lemma occurs_pad2 (c : ascii) (n : Z) :
  (nat_of_ascii c < 48 \/ 57 < nat_of_ascii c)%nat ->
  occurs c (Toronto.pad2 n) = false.
Proof.
  intros Hc. unfold Toronto.pad2. cbn [occurs].
  now rewrite !digit_not.
Qed.

Lemma occurs_pad4 (c : ascii) (n : Z) :
  (nat_of_ascii c < 48 \/ 57 < nat_of_ascii c)%nat ->
  occurs c (Toronto.pad4 n) = false.
Proof.
  intros Hc. unfold Toronto.pad4. now rewrite occurs_app, !occurs_pad2.
Qed.

(** A date [YYYY-MM-DD] holds digits and hyphens only. *)
Lemma occurs_date (c : ascii) (y m d : Z) :
  (nat_of_ascii c < 48 \/ 57 < nat_of_ascii c)%nat ->
  c <> "-"%char ->
  occurs c (Toronto.pad4 y ++ "-" ++ Toronto.pad2 m ++ "-" ++ Toronto.pad2 d)
  = false.
Proof.
  intros Hc Hh.
  assert (E : Ascii.eqb "-" c = false)
    by (apply Ascii.eqb_neq; congruence).
  rewrite occurs_app, occurs_pad4 by assumption. cbn [String.append occurs].
  rewrite E, occurs_app, occurs_pad2 by assumption. cbn [String.append occurs].
  now rewrite E, occurs_pad2.
Qed.

Lemma length_pad2 (n : Z) : String.length (Toronto.pad2 n) = 2%nat.
Proof. reflexivity. Qed.

Lemma length_date (y m d : Z) :
  String.length
    (Toronto.pad4 y ++ "-" ++ Toronto.pad2 m ++ "-" ++ Toronto.pad2 d)
  = 10%nat.
Proof. reflexivity. Qed.

(** The source's [fmtISO_Montreal] on a rendering
    [YYYY-MM-DD, HH:MM:SS]. *)
Lemma fmtISO_Montreal_of_digits (toLocaleString : Z -> string) (t : Z)
    (y m d hh mm ss : Z) :
  toLocaleString t
  = (Toronto.pad4 y ++ "-" ++ Toronto.pad2 m ++ "-" ++ Toronto.pad2 d ++ ", "
     ++ Toronto.pad2 hh ++ ":" ++ Toronto.pad2 mm ++ ":" ++ Toronto.pad2 ss)%string ->
  fmtISO_Montreal_of toLocaleString t
  = (Toronto.pad4 y ++ "-" ++ Toronto.pad2 m ++ "-" ++ Toronto.pad2 d ++ "T"
     ++ Toronto.pad2 hh ++ "-" ++ Toronto.pad2 mm ++ "-" ++ Toronto.pad2 ss)%string.
Proof.
  intros Hs.
  rewrite (fmtISO_Montreal_of_shape toLocaleString t
             (Toronto.pad4 y ++ "-" ++ Toronto.pad2 m ++ "-" ++ Toronto.pad2 d)
             (Toronto.pad2 hh) (Toronto.pad2 mm) (Toronto.pad2 ss)).
  - rewrite replace_all_absent
      by (apply occurs_date; [cbn; lia|discriminate]).
    now rewrite !string_app_assoc.
  - rewrite Hs. now rewrite !string_app_assoc.
  - unfold free_of. cbn [forallb].
    rewrite !occurs_date by (cbn; lia || discriminate). reflexivity.
  - unfold free_of. cbn [forallb].
    rewrite !occurs_pad2 by (cbn; lia). reflexivity.
  - unfold free_of. cbn [forallb].
    rewrite !occurs_pad2 by (cbn; lia). reflexivity.
  - unfold free_of. cbn [forallb].
    rewrite !occurs_pad2 by (cbn; lia). reflexivity.
Qed.

(** [saveRT] uses its formatters at single instants only. *)
Lemma saveRT_ext (sha256_digest : list byte -> list byte)
    (f1 f2 g1 g2 datetime_localtime : Z -> string) :
  (forall d, f1 d = f2 d) -> (forall d, g1 d = g2 d) ->
  forall fuel env now pkey fid kind ab,
    saveRT sha256_digest f1 g1 datetime_localtime fuel env now pkey fid kind ab
    = saveRT sha256_digest f2 g2 datetime_localtime fuel env now pkey fid kind
        ab.
Proof.
  intros Hf Hg fuel env now pkey fid kind ab.
  unfold saveRT, storage_path. rewrite (Hf now), (Hg now).
  destruct (hash_exists _ _ _ _); [reflexivity|].
  destruct (parseFeedMeta fuel ab) as [meta|]; [|reflexivity].
  assert (E : feed_ts_text g1 (headerTsSec meta)
              = feed_ts_text g2 (headerTsSec meta)).
  { unfold feed_ts_text. destruct (headerTsSec meta) as [[v|]|];
      try reflexivity. now rewrite Hg. }
  now rewrite E.
Qed.

Section StorageKey.

Variable sha256_digest : list byte -> list byte.
Variable datetime_localtime : Z -> string.
Variable toLocaleString :
  string -> string -> Intl.DateTimeFormatOptions -> Z -> string.

(** A format that names its time zone renders in that zone: the zone of the
    process is the default for a format that names none. *)
Hypothesis named_zone_decides :
  forall (zone1 zone2 locale : string) (o : Intl.DateTimeFormatOptions)
         (d : Z),
    Intl.timeZone o <> None ->
    toLocaleString zone1 locale o d = toLocaleString zone2 locale o d.

Local Abbreviation save_in zone :=
  (saveRT sha256_digest (Montreal.fmtYMD_Montreal toLocaleString zone)
     (Montreal.fmtISO_Montreal toLocaleString zone) datetime_localtime).

(** The formatters are the same in every process zone. *)
Lemma fmtYMD_Montreal_any_zone (zone1 zone2 : string) (d : Z) :
  Montreal.fmtYMD_Montreal toLocaleString zone1 d
  = Montreal.fmtYMD_Montreal toLocaleString zone2 d.
Proof.
  unfold Montreal.fmtYMD_Montreal.
  now rewrite (named_zone_decides zone1 zone2 _ Montreal.year_options),
    (named_zone_decides zone1 zone2 _ Montreal.month_options),
    (named_zone_decides zone1 zone2 _ Montreal.day_options).
Qed.

Lemma fmtISO_Montreal_any_zone (zone1 zone2 : string) (d : Z) :
  Montreal.fmtISO_Montreal toLocaleString zone1 d
  = Montreal.fmtISO_Montreal toLocaleString zone2 d.
Proof.
  unfold Montreal.fmtISO_Montreal, fmtISO_Montreal_of.
  now rewrite (named_zone_decides zone1 zone2 _ Montreal.full_options).
Qed.

(** C9 (as amended).  Let the platform render the instant of the save, in
    time zone America/Toronto and locale en-CA, as year [YYYY], month [MM],
    day [DD] and, in full, [YYYY-MM-DD, HH:MM:SS].  Then the key under which
    the snapshot is stored is
    [gtfs-rt/{sourceKey}/{feedKind}/dt=YYYY-MM-DD/{feedKind}_YYYY-MM-DDTHH-MM-SS.pb];
    the date has ten characters; the blob is found under that key, which
    lies under the prefix that the query router lists for that date; and
    the same call in a process of any other time zone stores under the same
    key and leaves the same store, because every rendering names its
    zone. *)
Theorem saveRT_storage_key (zone : string) (fuel : nat) (env : Env) (now : Z)
    (pkey : string) (fid : Z) (kind : string) (ab : list byte) (env1 : Env)
    (r1 : SaveResult) (y m d hh mm ss : Z) :
  save_in zone fuel env now pkey fid kind ab = Some (env1, r1) ->
  skipped r1 = false ->
  toLocaleString zone "en-CA" Montreal.year_options now = Toronto.pad4 y ->
  toLocaleString zone "en-CA" Montreal.month_options now = Toronto.pad2 m ->
  toLocaleString zone "en-CA" Montreal.day_options now = Toronto.pad2 d ->
  toLocaleString zone "en-CA" Montreal.full_options now
  = (Toronto.pad4 y ++ "-" ++ Toronto.pad2 m ++ "-" ++ Toronto.pad2 d ++ ", "
     ++ Toronto.pad2 hh ++ ":" ++ Toronto.pad2 mm ++ ":" ++ Toronto.pad2 ss)%string ->
  let date :=
    (Toronto.pad4 y ++ "-" ++ Toronto.pad2 m ++ "-" ++ Toronto.pad2 d)%string in
  let k :=
    ("gtfs-rt/" ++ pkey ++ "/" ++ kind ++ "/dt=" ++ date ++ "/" ++ kind ++ "_"
     ++ (Toronto.pad4 y ++ "-" ++ Toronto.pad2 m ++ "-" ++ Toronto.pad2 d
         ++ "T" ++ Toronto.pad2 hh ++ "-" ++ Toronto.pad2 mm ++ "-"
         ++ Toronto.pad2 ss)
     ++ ".pb")%string in
  path r1 = Some k
  /\ String.length date = 10%nat
  /\ R2_get (R2 env1) k = Some (mkR2Object k now ab)
  /\ String.prefix (Api.hot_prefix pkey kind date) k = true
  /\ forall zone' : string,
       save_in zone' fuel env now pkey fid kind ab = Some (env1, r1).
Proof.
  intros Hsave Hskip Hy Hm Hd Hfull date k.
  assert (Edate : Montreal.fmtYMD_Montreal toLocaleString zone now = date)
    by (unfold Montreal.fmtYMD_Montreal; now rewrite Hy, Hm, Hd).
  assert (Eiso : Montreal.fmtISO_Montreal toLocaleString zone now
                 = (Toronto.pad4 y ++ "-" ++ Toronto.pad2 m ++ "-"
                    ++ Toronto.pad2 d ++ "T" ++ Toronto.pad2 hh ++ "-"
                    ++ Toronto.pad2 mm ++ "-" ++ Toronto.pad2 ss)%string)
    by (unfold Montreal.fmtISO_Montreal;
        now apply fmtISO_Montreal_of_digits).
  assert (Ek : storage_path (Montreal.fmtYMD_Montreal toLocaleString zone)
                 (Montreal.fmtISO_Montreal toLocaleString zone) pkey kind now
               = k)
    by (unfold storage_path; now rewrite Edate, Eiso).
  split; [|split; [|split; [|split]]].
  - unfold saveRT in Hsave. destruct (hash_exists _ _ _ _).
    { injection Hsave as <- <-. discriminate. }
    destruct (parseFeedMeta fuel ab) as [meta|]; [|discriminate].
    injection Hsave as <- <-. cbn [path]. now rewrite Ek.
  - apply length_date.
  - unfold saveRT in Hsave. destruct (hash_exists _ _ _ _).
    { injection Hsave as <- <-. discriminate. }
    destruct (parseFeedMeta fuel ab) as [meta|]; [|discriminate].
    injection Hsave as <- <-. rewrite Ek.
    destruct (table_of_kind kind); cbn [R2 with_log insert_raw with_R2];
      apply R2_get_put.
  - unfold Api.hot_prefix, k. rewrite !prefix_app_cancel.
    apply (prefix_app "/").
  - intros zone'. rewrite <- Hsave. apply saveRT_ext.
    + intros t. apply fmtYMD_Montreal_any_zone.
    + intros t. apply fmtISO_Montreal_any_zone.
Qed.

End StorageKey.

(** On the platform of the worked examples the source's formatters are the
    formatters of the examples, in every process zone. *)
Lemma sample_platform_names_zone (zone1 zone2 locale : string)
    (o : Intl.DateTimeFormatOptions) (d : Z) :
  Intl.timeZone o <> None ->
  sample_toLocaleString zone1 locale o d
  = sample_toLocaleString zone2 locale o d.
Proof.
  intros Hz. unfold sample_toLocaleString.
  destruct (Intl.timeZone o); [reflexivity|now elim Hz].
Qed.

Lemma fmtYMD_Montreal_on_sample_platform (zone : string) (t : Z) :
  Montreal.fmtYMD_Montreal sample_toLocaleString zone t = Toronto.fmtYMD t.
Proof.
  unfold Montreal.fmtYMD_Montreal, sample_toLocaleString, Toronto.fmtYMD.
  cbn [Intl.timeZone Intl.hour Intl.year Intl.month Montreal.year_options
         Montreal.month_options Montreal.day_options Montreal.tz String.eqb
         Ascii.eqb Bool.eqb].
  now destruct (Toronto.civil_from_days _) as [[y m] d].
Qed.

Lemma fmtISO_Montreal_on_sample_platform (zone : string) (t : Z) :
  Montreal.fmtISO_Montreal sample_toLocaleString zone t = Toronto.fmtISO t.
Proof.
  unfold Montreal.fmtISO_Montreal, Toronto.fmtISO, Toronto.fmtYMD.
  destruct (Toronto.civil_from_days
              ((t + Toronto.utc_offset t) / Toronto.ms_per_day))
    as [[y m] d] eqn:E.
  rewrite (fmtISO_Montreal_of_digits _ t y m d
             (((t + Toronto.utc_offset t) mod Toronto.ms_per_day) / 1000 / 3600)
             (((t + Toronto.utc_offset t) mod Toronto.ms_per_day) / 1000 / 60
              mod 60)
             (((t + Toronto.utc_offset t) mod Toronto.ms_per_day) / 1000
              mod 60)).
  - now rewrite !string_app_assoc.
  - unfold sample_toLocaleString.
    cbn [Intl.timeZone Intl.hour Intl.year Intl.month Montreal.full_options
           Montreal.tz String.eqb Ascii.eqb Bool.eqb].
    now rewrite E.
Qed.

Lemma saveRT_storage_key_witness :
  (forall (zone1 zone2 locale : string) (o : Intl.DateTimeFormatOptions)
          (d : Z),
      Intl.timeZone o <> None ->
      sample_toLocaleString zone1 locale o d
      = sample_toLocaleString zone2 locale o d)
  /\ saveRT_on_platform "UTC" 100 empty_env evening_of_9_march "stm" 7
       "gtfsrt_trip_updates" sample_feed
     = Some (env_after_first_save,
             mkSaveResult false
               (Some "gtfs-rt/stm/gtfsrt_trip_updates/dt=2025-03-09/gtfsrt_trip_updates_2025-03-09T23-59-00.pb"%string))
  /\ sample_toLocaleString "UTC" "en-CA" Montreal.year_options
       evening_of_9_march = "2025"%string
  /\ sample_toLocaleString "UTC" "en-CA" Montreal.month_options
       evening_of_9_march = "03"%string
  /\ sample_toLocaleString "UTC" "en-CA" Montreal.day_options
       evening_of_9_march = "09"%string
  /\ sample_toLocaleString "UTC" "en-CA" Montreal.full_options
       evening_of_9_march = "2025-03-09, 23:59:00"%string
  /\ R2_get (R2 env_after_first_save)
       "gtfs-rt/stm/gtfsrt_trip_updates/dt=2025-03-09/gtfsrt_trip_updates_2025-03-09T23-59-00.pb"
     = Some (mkR2Object
               "gtfs-rt/stm/gtfsrt_trip_updates/dt=2025-03-09/gtfsrt_trip_updates_2025-03-09T23-59-00.pb"
               evening_of_9_march sample_feed)
  /\ saveRT_on_platform "Asia/Tokyo" 100 empty_env evening_of_9_march "stm" 7
       "gtfsrt_trip_updates" sample_feed
     = Some (env_after_first_save,
             mkSaveResult false
               (Some "gtfs-rt/stm/gtfsrt_trip_updates/dt=2025-03-09/gtfsrt_trip_updates_2025-03-09T23-59-00.pb"%string)).
Proof.
  assert (Hsave : saveRT_on_platform "UTC" 100 empty_env evening_of_9_march
                    "stm" 7 "gtfsrt_trip_updates" sample_feed
                  = Some (env_after_first_save,
                          mkSaveResult false
                            (Some "gtfs-rt/stm/gtfsrt_trip_updates/dt=2025-03-09/gtfsrt_trip_updates_2025-03-09T23-59-00.pb"%string)))
    by (vm_compute; reflexivity).
  split; [exact sample_platform_names_zone|]. split; [exact Hsave|].
  split; [reflexivity|]. split; [reflexivity|]. split; [reflexivity|].
  split; [reflexivity|].
  destruct (saveRT_storage_key sample_digest datetime_utc
              sample_toLocaleString sample_platform_names_zone "UTC" 100
              empty_env evening_of_9_march "stm" 7 "gtfsrt_trip_updates"
              sample_feed _ _ 2025 3 9 23 59 0 Hsave eq_refl eq_refl eq_refl
              eq_refl eq_refl) as (_ & _ & Hget & _ & Hzone).
  split; [exact Hget|exact (Hzone "Asia/Tokyo"%string)].
Defined.

(** ** Cursors never go below zero *)

Lemma Nle_weaken (a b : Z) (p : Number) : b <= a -> Nle a p -> Nle b p.
Proof. intros Hab [w Hw|]; constructor. lia. Qed.

Lemma add_lower (z : Z) (a b : Number) :
  0 <= z <= 2 ^ 53 -> Nle z a -> Nle 0 b -> Nle z (JS.add a b).
Proof.
  intros Hz [x Hx|] [y Hy|]; cbn [JS.add]; try constructor.
  apply of_Z_lower; lia.
Qed.

Lemma add_one_lower (pos : Number) : Nle 0 pos -> Nle 1 (JS.add pos (Fin 1)).
Proof.
  intros [x Hx|]; cbn [JS.add]; [|constructor].
  assert (0 < 2 ^ 53) by (apply Z.pow_pos_nonneg; lia).
  apply of_Z_lower; lia.
Qed.

Lemma readVarint_loop_next_lower (u8 : list byte) :
  forall (n : nat) (x s : Z) (pos : Number),
    Nle 0 pos -> Nle 1 (snd (readVarint_loop n u8 x s pos)).
Proof.
  induction n as [|n IH]; intros x s pos Hpos; cbn [readVarint_loop];
    pose proof (add_one_lower pos Hpos) as H1.
  - now destruct (_ =? 0).
  - destruct (_ =? 0); [exact H1|].
    apply IH. now apply Nle_weaken with 1; [lia|].
Qed.

Lemma readVarint_next_lower (u8 : list byte) (pos : Number) :
  Nle 0 pos -> Nle 1 (next (readVarint u8 pos)).
Proof.
  intros Hpos. unfold readVarint.
  pose proof (readVarint_loop_next_lower u8 (length u8) 0 0 pos Hpos) as H.
  now destruct (readVarint_loop (length u8) u8 0 0 pos).
Qed.

Lemma readVarint_next_nonneg (u8 : list byte) (pos : Number) :
  Nle 0 pos -> Nle 0 (next (readVarint u8 pos)).
Proof.
  intros Hpos. apply Nle_weaken with 1; [lia|].
  now apply readVarint_next_lower.
Qed.

Lemma sub_end_nonneg (u8 : list byte) (pos : Number) :
  Nle 0 pos ->
  Nle 0 (JS.add (next (readVarint u8 pos)) (value (readVarint u8 pos))).
Proof.
  intros Hpos. assert (0 < 2 ^ 53) by (apply Z.pow_pos_nonneg; lia).
  apply add_lower; [lia| |apply readVarint_value_nonneg].
  now apply readVarint_next_nonneg.
Qed.

Lemma skipField_nonneg (u8 : list byte) (pos : Number) (wt : Z) :
  Nle 0 pos -> Nle 0 (skipField u8 pos wt).
Proof.
  intros Hpos. assert (0 < 2 ^ 53) by (apply Z.pow_pos_nonneg; lia).
  unfold skipField.
  destruct (wt =? 0); [now apply readVarint_next_nonneg|].
  destruct (wt =? 1); [apply add_lower; [lia|assumption|constructor; lia]|].
  destruct (wt =? 2); [now apply sub_end_nonneg|].
  destruct (wt =? 5); [apply add_lower; [lia|assumption|constructor; lia]|].
  assumption.
Qed.

(** ** Coordinates in the query router *)

(** A read of a single anywhere but at offset zero throws: the view covers
    four bytes from [pos] and is read at [pos] again. *)
Lemma view_getFloat32_throws (u8 : list byte) (pos : Number) :
  Nle 1 pos -> Api.view_getFloat32 u8 pos = Api.Throw "RangeError".
Proof.
  intros [z Hz|]; cbn [Api.view_getFloat32]; [|reflexivity].
  destruct (z + 4 <=? Z.of_nat (length u8)); [|reflexivity].
  destruct (Z.leb_spec (z + 4) 4); [lia|reflexivity].
Qed.

Lemma parsePosition_loop_keeps (u8 : list byte) (end_ : Number) :
  forall (fuel : nat) (pos : Number) (p r : Api.Position),
    Nle 0 pos ->
    Api.parsePosition_loop fuel u8 pos end_ p = Some (Api.Ret r) -> r = p.
Proof.
  induction fuel as [|fuel IH]; intros pos p r Hpos;
    cbn [Api.parsePosition_loop]; [discriminate|].
  destruct (JS.ltb pos end_); [|intros E; now injection E as <-].
  rewrite (view_getFloat32_throws u8 _ (readVarint_next_lower u8 pos Hpos)).
  repeat (destruct (_ && _); [discriminate|]).
  apply IH, skipField_nonneg. now apply readVarint_next_nonneg.
Qed.

(** X19.  [parsePosition] never returns a coordinate: started at a cursor
    that is not negative, every position object it returns has latitude,
    longitude, bearing and speed all absent. *)
Theorem parsePosition_never_returns_a_coordinate (fuel : nat)
    (u8 : list byte) (start end_ : Number) (p : Api.Position) :
  Nle 0 start ->
  Api.parsePosition fuel u8 start end_ = Some (Api.Ret p) ->
  p = Api.mkPosition None None None None.
Proof. intros Hs H. exact (parsePosition_loop_keeps _ _ _ _ _ _ Hs H). Qed.

(** X20.  [parsePosition] throws at the first coordinate: when the field it
    meets first is one of the four singles (fields 1 to 4, wire type 5), the
    call ends in a [RangeError]. *)
Theorem parsePosition_throws_at_a_coordinate (fuel : nat) (u8 : list byte)
    (start end_ : Number) :
  Nle 0 start ->
  JS.ltb start end_ = true ->
  JS.band (value (readVarint u8 start)) 7 = 5 ->
  1 <= JS.sar (value (readVarint u8 start)) 3 <= 4 ->
  Api.parsePosition (S fuel) u8 start end_ = Some (Api.Throw "RangeError").
Proof.
  intros Hs Hlt Hw Hf. unfold Api.parsePosition.
  cbn [Api.parsePosition_loop]. rewrite Hlt, Hw.
  rewrite (view_getFloat32_throws u8 _ (readVarint_next_lower u8 start Hs)).
  change (5 =? 5) with true. rewrite !andb_true_r.
  assert (E : JS.sar (value (readVarint u8 start)) 3 = 1
              \/ JS.sar (value (readVarint u8 start)) 3 = 2
              \/ JS.sar (value (readVarint u8 start)) 3 = 3
              \/ JS.sar (value (readVarint u8 start)) 3 = 4) by lia.
  destruct E as [ -> | [ -> | [ -> | -> ] ] ]; reflexivity.
Qed.

Lemma parseVehiclePosition_loop_without_coordinate (decode : list byte -> string)
    (u8 : list byte) (end_ : Number) :
  forall (fuel : nat) (pos : Number) (vp vp' : Api.VehiclePosition),
    Nle 0 pos ->
    Handlers.without_coordinate (Api.vp_position vp) ->
    Api.parseVehiclePosition_loop decode fuel u8 pos end_ vp
    = Some (Api.Ret vp') ->
    Handlers.without_coordinate (Api.vp_position vp').
Proof.
  induction fuel as [|fuel IH]; intros pos vp vp' Hpos Hvp;
    cbn [Api.parseVehiclePosition_loop]; [discriminate|].
  destruct (JS.ltb pos end_); [|intros E; now injection E as <-].
  pose proof (readVarint_next_nonneg u8 pos Hpos) as H1.
  pose proof (sub_end_nonneg u8 _ H1) as H2.
  destruct (_ =? 2).
  - destruct (_ =? 1).
    { destruct (Api.parseTripDescriptor _ _ _ _ _); [|discriminate].
      now apply IH. }
    destruct (_ =? 2).
    { destruct (Api.parseVehicleDescriptor _ _ _ _ _); [|discriminate].
      now apply IH. }
    destruct (_ =? 3); [|now apply IH].
    destruct (Api.parsePosition _ _ _ _) as [[p|e]|] eqn:Ep;
      [|discriminate|discriminate].
    apply IH; [exact H2|]. cbn [Api.vp_position Handlers.without_coordinate].
    eapply parsePosition_loop_keeps; [|exact Ep].
    now apply readVarint_next_nonneg.
  - destruct (_ && _).
    + apply IH; [|exact Hvp]. now apply readVarint_next_nonneg.
    + apply IH; [|exact Hvp]. now apply skipField_nonneg.
Qed.

Lemma parseEntity_loop_without_coordinate (decode : list byte -> string)
    (u8 : list byte) (end_ : Number) :
  forall (fuel : nat) (pos : Number) (en en' : Api.Entity),
    Nle 0 pos ->
    Handlers.vehicle_without_coordinate en ->
    Api.parseEntity_loop decode fuel u8 pos end_ en = Some (Api.Ret en') ->
    Handlers.vehicle_without_coordinate en'.
Proof.
  induction fuel as [|fuel IH]; intros pos en en' Hpos Hen;
    cbn [Api.parseEntity_loop]; [discriminate|].
  destruct (JS.ltb pos end_); [|intros E; now injection E as <-].
  pose proof (readVarint_next_nonneg u8 pos Hpos) as H1.
  pose proof (sub_end_nonneg u8 _ H1) as H2.
  destruct (_ =? 2); [|apply IH; [now apply skipField_nonneg|exact Hen]].
  destruct (_ =? 1); [now apply IH|].
  destruct (_ =? 3).
  { destruct (Api.parseTripUpdate _ _ _ _ _); [|discriminate]. now apply IH. }
  destruct (_ =? 4); [|now apply IH].
  destruct (Api.parseVehiclePosition _ _ _ _ _) as [[vp|e]|] eqn:Ev;
    [|discriminate|discriminate].
  apply IH; [exact H2|].
  unfold Handlers.vehicle_without_coordinate. cbn [Api.vehicle].
  eapply parseVehiclePosition_loop_without_coordinate; [| |exact Ev];
    [now apply readVarint_next_nonneg|exact I].
Qed.

Lemma parseFeedMessage_loop_without_coordinate (decode : list byte -> string)
    (u8 : list byte) :
  forall (fuel : nat) (pos : Number) (feed feed' : Api.FeedMessage),
    Nle 0 pos ->
    Forall Handlers.vehicle_without_coordinate (Api.entity feed) ->
    Api.parseFeedMessage_loop decode fuel u8 pos feed = Some (Api.Ret feed') ->
    Forall Handlers.vehicle_without_coordinate (Api.entity feed').
Proof.
  induction fuel as [|fuel IH]; intros pos feed feed' Hpos Hfeed;
    cbn [Api.parseFeedMessage_loop]; [discriminate|].
  destruct (JS.ltb pos _); [|intros E; now injection E as <-].
  pose proof (readVarint_next_nonneg u8 pos Hpos) as H1.
  pose proof (sub_end_nonneg u8 _ H1) as H2.
  destruct (_ =? 2); [|apply IH; [now apply skipField_nonneg|exact Hfeed]].
  destruct (_ =? 1).
  { destruct (parseHeaderTimestamp _ _ _ _); [|discriminate]. now apply IH. }
  destruct (_ =? 2); [|now apply IH].
  destruct (Api.parseEntity _ _ _ _ _) as [[en|e]|] eqn:Ee;
    [|discriminate|discriminate].
  apply IH; [exact H2|]. cbn [Api.entity].
  apply Forall_app. split; [exact Hfeed|]. constructor; [|constructor].
  eapply parseEntity_loop_without_coordinate; [| |exact Ee];
    [now apply readVarint_next_nonneg|exact I].
Qed.

(** No vehicle of a decoded feed carries a coordinate. *)
Lemma parseFeedMessage_without_coordinate (decode : list byte -> string)
    (fuel : nat) (ab : list byte) (feed : Api.FeedMessage) :
  Api.parseFeedMessage decode fuel ab = Some (Api.Ret feed) ->
  Forall Handlers.vehicle_without_coordinate (Api.entity feed).
Proof.
  apply parseFeedMessage_loop_without_coordinate;
    [constructor; lia|constructor].
Qed.

Lemma position_field_no_number (get : Api.Position -> option Api.float32)
    (p : option Api.Position) :
  get (Api.mkPosition None None None None) = None ->
  Handlers.without_coordinate p ->
  Handlers.no_number (Handlers.position_field get p).
Proof.
  intros Hget. destruct p as [q|]; cbn; [|trivial].
  intros ->. now rewrite Hget.
Qed.

Lemma no_number_not_truthy (v : Handlers.JsFloat) :
  Handlers.no_number v -> Handlers.js_truthy v = false.
Proof. now destruct v. Qed.

Lemma position_features_nil (routeId : option string)
    (feed : Api.FeedMessage) :
  Forall Handlers.vehicle_without_coordinate (Api.entity feed) ->
  Handlers.position_features routeId feed = [].
Proof.
  unfold Handlers.position_features.
  induction 1 as [|en ens Hen _ IH]; cbn [flat_map]; [reflexivity|].
  rewrite IH, app_nil_r. unfold Handlers.vehicle_without_coordinate in Hen.
  destruct (Api.vehicle en) as [vp|]; [|reflexivity].
  destruct (_ && _); [reflexivity|].
  now rewrite (no_number_not_truthy _
                 (position_field_no_number Api.latitude _ eq_refl Hen)).
Qed.

Lemma position_rows_no_number (routeId vehicleId : option string)
    (feed : Api.FeedMessage) :
  Forall Handlers.vehicle_without_coordinate (Api.entity feed) ->
  Forall
    (fun row =>
       Handlers.no_number (Handlers.out_latitude row)
       /\ Handlers.no_number (Handlers.out_longitude row)
       /\ Handlers.no_number (Handlers.out_bearing row)
       /\ Handlers.no_number (Handlers.out_speed row))
    (Handlers.position_rows routeId vehicleId feed).
Proof.
  unfold Handlers.position_rows.
  induction 1 as [|en ens Hen _ IH]; cbn [flat_map]; [constructor|].
  apply Forall_app. split; [|exact IH].
  unfold Handlers.vehicle_without_coordinate in Hen.
  destruct (Api.vehicle en) as [vp|]; [|constructor].
  destruct (_ && _); [constructor|].
  destruct (_ && _); [constructor|].
  constructor; [|constructor].
  cbn [Handlers.out_latitude Handlers.out_longitude Handlers.out_bearing
         Handlers.out_speed].
  repeat split; now apply position_field_no_number.
Qed.

Section CurrentProofs.

Variable TextDecoder_decode : list byte -> string.
Variable fmtYMD_Montreal : Z -> string.

(** X21.  [handleGeoJSONPositions] never emits a feature: whenever it
    answers, the answer is the empty feature collection or the failure to
    read the file. *)
Theorem handleGeoJSONPositions_never_emits_a_feature (fuel : nat) (env : Env)
    (now : Z) (provider route_id : option string)
    (response : Handlers.Response) :
  Handlers.handleGeoJSONPositions TextDecoder_decode fmtYMD_Montreal fuel env
    now provider route_id = Some (Api.Ret response) ->
  response = Handlers.geojsonResponse []
  \/ response = Handlers.errorResponse "Failed to read RT file" 500.
Proof.
  unfold Handlers.handleGeoJSONPositions.
  destruct (Api.listHotRTFiles _ _ _ _ _ _) as [|latest rest].
  { intros E. injection E as <-. now left. }
  destruct (Api.readHotRTFile env _) as [ab|];
    [|intros E; injection E as <-; now right].
  destruct (Api.parseFeedMessage _ _ _) as [[feed|e]|] eqn:Ef;
    [|discriminate|discriminate].
  intros E. injection E as <-. left.
  now rewrite (position_features_nil _ _
                 (parseFeedMessage_without_coordinate _ _ _ _ Ef)).
Qed.

(** X22.  [handleCurrentPositions] lists no coordinate: in every answer
    with positions, latitude, longitude, bearing and speed of each listed
    vehicle hold no number. *)
Theorem handleCurrentPositions_lists_no_coordinate (fuel : nat) (env : Env)
    (now : Z) (provider route_id vehicle_id : option string)
    (response : Handlers.Response) (positions : list Handlers.PositionOut)
    (ts : option Number) :
  Handlers.handleCurrentPositions TextDecoder_decode fmtYMD_Montreal fuel env
    now provider route_id vehicle_id = Some (Api.Ret response) ->
  Handlers.resp_body response = Handlers.PositionsBody positions ts ->
  Forall
    (fun row =>
       Handlers.no_number (Handlers.out_latitude row)
       /\ Handlers.no_number (Handlers.out_longitude row)
       /\ Handlers.no_number (Handlers.out_bearing row)
       /\ Handlers.no_number (Handlers.out_speed row))
    positions.
Proof.
  unfold Handlers.handleCurrentPositions.
  destruct (Api.listHotRTFiles _ _ _ _ _ _) as [|latest rest].
  { intros E. injection E as <-. discriminate. }
  destruct (Api.readHotRTFile env _) as [ab|];
    [|intros E; injection E as <-; discriminate].
  destruct (Api.parseFeedMessage _ _ _) as [[feed|e]|] eqn:Ef;
    [|discriminate|discriminate].
  intros E. injection E as <-. cbn [Handlers.resp_body Handlers.jsonResponse].
  intros E. injection E as <- _.
  apply position_rows_no_number.
  exact (parseFeedMessage_without_coordinate _ _ _ _ Ef).
Qed.

End CurrentProofs.

(** ** Filters of the current-data handlers *)

Lemma truthy_or_default (p : option string) :
  Api.truthy p = true -> p = Some (Api.or_default p "").
Proof.
  destruct p as [s|]; cbn [Api.truthy Api.or_default]; [|discriminate].
  now destruct (String.eqb s "").
Qed.

Lemma differs_false (a : option string) (b : string) :
  Api.differs a b = false <-> a = Some b.
Proof.
  destruct a as [s|]; cbn [Api.differs].
  - rewrite negb_false_iff, String.eqb_eq. split; [now intros ->|].
    now intros E; injection E.
  - split; discriminate.
Qed.

Lemma filter_passes (p a : option string) :
  Api.truthy p && Api.differs a (Api.or_default p "") = false
  <-> (Api.truthy p = true -> a = p).
Proof.
  destruct (Api.truthy p) eqn:E; cbn [andb].
  - rewrite differs_false. rewrite (truthy_or_default p E) at 2.
    split; [now intros ->|auto].
  - split; [discriminate|reflexivity].
Qed.

(** X23.  The filters of [handleCurrentTripUpdates] select exactly the
    matching rows: a row is listed under a route and stop filter exactly
    when it is listed without filters and carries the route of a filter in
    use and the stop of a filter in use. *)
Theorem trip_update_rows_filters (routeId stopId : option string)
    (feed : Api.FeedMessage) (row : Api.TripUpdateOut) :
  In row (Api.trip_update_rows routeId stopId feed)
  <-> In row (Api.trip_update_rows None None feed)
      /\ (Api.truthy routeId = true -> Api.out_route_id row = routeId)
      /\ (Api.truthy stopId = true -> Api.out_stop_id row = stopId).
Proof.
  unfold Api.trip_update_rows. rewrite !in_flat_map. split.
  - intros (en & Hen & Hrow). destruct (Api.trip_update en) as [tu|] eqn:Etu;
      [|contradiction].
    destruct (Api.truthy routeId && _) eqn:Er; [contradiction|].
    apply in_flat_map in Hrow as (stu & Hstu & Hrow).
    destruct (Api.truthy stopId && _) eqn:Es; [contradiction|].
    destruct Hrow as [<-|[]]. cbn [Api.out_route_id Api.out_stop_id].
    split; [|split; now apply filter_passes].
    exists en. split; [exact Hen|]. rewrite Etu. cbn [Api.truthy andb].
    apply in_flat_map. exists stu. split; [exact Hstu|]. now left.
  - intros ((en & Hen & Hrow) & Hr & Hs). exists en. split; [exact Hen|].
    destruct (Api.trip_update en) as [tu|]; [|contradiction].
    cbn [Api.truthy andb] in Hrow.
    apply in_flat_map in Hrow as (stu & Hstu & [<-|[]]).
    cbn [Api.out_route_id Api.out_stop_id] in Hr, Hs.
    rewrite (proj2 (filter_passes routeId _) Hr).
    apply in_flat_map. exists stu. split; [exact Hstu|].
    rewrite (proj2 (filter_passes stopId _) Hs). now left.
Qed.

(** ** Order and size of the listings *)

Lemma insert_by_Sorted {A : Type} (le : A -> A -> bool) :
  (forall a b, le a b = true \/ le b a = true) ->
  forall (x : A) (l : list A),
    Sorted (fun a b => le a b = true) l ->
    Sorted (fun a b => le a b = true) (insert_by le x l).
Proof.
  intros Htot x. induction l as [|y l IH]; intros Hs; cbn [insert_by].
  - repeat constructor.
  - destruct (le x y) eqn:E.
    + constructor; [exact Hs|constructor; exact E].
    + inversion Hs as [|? ? Hs' Hhd]; subst. constructor; [now apply IH|].
      destruct l as [|z l]; cbn [insert_by].
      * constructor. destruct (Htot x y); congruence.
      * destruct (le x z); constructor.
        -- destruct (Htot x y); congruence.
        -- now inversion Hhd.
Qed.

Lemma sort_by_Sorted {A : Type} (le : A -> A -> bool) :
  (forall a b, le a b = true \/ le b a = true) ->
  forall l : list A, Sorted (fun a b => le a b = true) (sort_by le l).
Proof.
  intros Htot. unfold sort_by.
  induction l as [|x l IH]; cbn [fold_right]; [constructor|].
  now apply insert_by_Sorted.
Qed.

Lemma Sorted_map {A B : Type} (f : A -> B) (R : B -> B -> Prop) (l : list A) :
  Sorted (fun a b => R (f a) (f b)) l -> Sorted R (map f l).
Proof.
  induction 1 as [|x l Hs IH Hhd]; cbn [map]; constructor; [exact IH|].
  destruct Hhd; cbn [map]; now constructor.
Qed.

Lemma StronglySorted_weaken {A : Type} (R R' : A -> A -> Prop) (l : list A) :
  (forall a b, R a b -> R' a b) -> StronglySorted R l -> StronglySorted R' l.
Proof.
  intros Himp. induction 1 as [|x l Hs IH Hall]; constructor; [exact IH|].
  eapply Forall_impl; [|exact Hall]. intros b. apply Himp.
Qed.

Lemma length_filter_insert_by {A : Type} (le : A -> A -> bool)
    (f : A -> bool) (x : A) (l : list A) :
  length (filter f (insert_by le x l)) = length (filter f (x :: l)).
Proof.
  induction l as [|y l IH]; cbn [insert_by]; [reflexivity|].
  destruct (le x y); [reflexivity|].
  cbn [filter] in *. destruct (f y), (f x); cbn [length] in *; lia.
Qed.

Lemma length_filter_sort_by {A : Type} (le : A -> A -> bool) (f : A -> bool)
    (l : list A) :
  length (filter f (sort_by le l)) = length (filter f l).
Proof.
  unfold sort_by. induction l as [|x l IH]; cbn [fold_right]; [reflexivity|].
  rewrite length_filter_insert_by. cbn [filter].
  destruct (f x); cbn [length]; now rewrite IH.
Qed.

Lemma length_flat_map_if {A B : Type} (c : A -> bool) (g : A -> B)
    (l : list A) :
  length (flat_map (fun a => if c a then [g a] else []) l)
  = length (filter c l).
Proof.
  induction l as [|a l IH]; cbn [flat_map filter]; [reflexivity|].
  rewrite length_app, IH. now destruct (c a).
Qed.

Lemma file_count_hot_summary (files : list Api.HotFile) :
  Handlers.file_count (Handlers.hot_summary files) = Z.of_nat (length files).
Proof. now destruct files. Qed.

Section ListingProofs.

Variable fmtYMD_Montreal : Z -> string.

Local Abbreviation listHot := (Api.listHotRTFiles fmtYMD_Montreal).

(** X24.  The listing of [listHotRTFiles] is in order of upload time,
    newest first, and holds no file uploaded before the threshold. *)
Theorem listHotRTFiles_newest_first (env : Env) (now : Z)
    (provider feedKind : string) (hoursBack : Z) :
  StronglySorted (fun a b => Api.file_uploaded b <= Api.file_uploaded a)
    (listHot env now provider feedKind hoursBack)
  /\ Forall (fun f => Api.getHoursAgo now hoursBack <= Api.file_uploaded f)
       (listHot env now provider feedKind hoursBack).
Proof.
  split.
  - unfold Api.listHotRTFiles.
    apply StronglySorted_weaken
      with (R := fun a b =>
                   (Api.file_uploaded b <=? Api.file_uploaded a) = true).
    { intros a b. apply Z.leb_le. }
    apply Sorted_StronglySorted.
    { intros a b c. rewrite !Z.leb_le. lia. }
    apply sort_by_Sorted. intros a b. rewrite !Z.leb_le. lia.
  - apply Forall_forall. intros f Hf.
    apply listHotRTFiles_In in Hf as (o & _ & _ & Hle & ->). exact Hle.
Qed.

Lemma length_listHotRTFiles (env : Env) (now : Z) (provider feedKind : string)
    (hoursBack : Z) :
  let recent date :=
    length
      (filter (fun o => Api.getHoursAgo now hoursBack <=? uploaded o)
         (filter
            (fun o =>
               String.prefix (Api.hot_prefix provider feedKind date) (key o))
            (R2 env))) in
  length (listHot env now provider feedKind hoursBack)
  = (recent (fmtYMD_Montreal (Api.getHoursAgo now hoursBack))
     + recent (fmtYMD_Montreal now))%nat.
Proof.
  cbv zeta. unfold Api.listHotRTFiles. rewrite length_sort_by.
  cbn [flat_map]. rewrite app_nil_r, length_app.
  rewrite !(length_flat_map_if
              (fun o => Api.getHoursAgo now hoursBack <=? uploaded o)
              (fun o => Api.mkHotFile (key o) (uploaded o))).
  unfold R2_list. now rewrite !length_filter_sort_by.
Qed.

(** X25.  When the instant 24 hours back falls on today's date (the day the
    clocks go back has 25 hours), [handleStatus] reports each hot file
    twice: both file counts are twice the number of objects of today's
    partition uploaded since the threshold. *)
Theorem handleStatus_counts_twice_on_a_long_day (env : Env) (now : Z) :
  fmtYMD_Montreal (Api.getHoursAgo now 24) = fmtYMD_Montreal now ->
  let recent feedKind :=
    length
      (filter (fun o => Api.getHoursAgo now 24 <=? uploaded o)
         (filter
            (fun o =>
               String.prefix
                 (Api.hot_prefix "stm" feedKind (fmtYMD_Montreal now)) (key o))
            (R2 env))) in
  exists tu vp,
    Handlers.handleStatus fmtYMD_Montreal env now
    = Handlers.jsonResponse (Handlers.StatusBody tu vp)
    /\ Handlers.file_count tu = 2 * Z.of_nat (recent "gtfsrt_trip_updates"%string)
    /\ Handlers.file_count vp
       = 2 * Z.of_nat (recent "gtfsrt_vehicle_positions"%string).
Proof.
  intros Hsame. cbv zeta. unfold Handlers.handleStatus.
  eexists _, _. split; [reflexivity|].
  rewrite !file_count_hot_summary.
  pose proof (length_listHotRTFiles env now "stm" "gtfsrt_trip_updates" 24)
    as Ht.
  pose proof (length_listHotRTFiles env now "stm" "gtfsrt_vehicle_positions" 24)
    as Hv.
  cbv zeta in Ht, Hv. rewrite Hsame in Ht, Hv. rewrite Ht, Hv. lia.
Qed.

End ListingProofs.

(** ** Queries over a range of dates *)

Lemma range_rows_In {R : Type} (provider_of date_of : R -> string)
    (keep : R -> bool) (provider startDate endDate : string) (table : list R)
    (r : R) :
  In r (Handlers.range_rows provider_of date_of keep provider startDate
          endDate table)
  <-> In r table
      /\ provider_of r = provider
      /\ String.leb startDate (date_of r) = true
      /\ String.leb (date_of r) endDate = true
      /\ keep r = true.
Proof.
  unfold Handlers.range_rows.
  rewrite In_sort_by, filter_In, !andb_true_iff, String.eqb_eq. tauto.
Qed.

Lemma range_rows_Sorted {R : Type} (provider_of date_of : R -> string)
    (keep : R -> bool) (provider startDate endDate : string)
    (table : list R) :
  Sorted (fun a b => String.leb a b = true)
    (map date_of
       (Handlers.range_rows provider_of date_of keep provider startDate
          endDate table)).
Proof.
  apply Sorted_map. unfold Handlers.range_rows.
  apply (sort_by_Sorted (fun a b => String.leb (date_of a) (date_of b))).
  intros a b. apply String.leb_total.
Qed.

Lemma opt_filter_passes (p a : option string) :
  (if Api.truthy p then Api.opt_string_eqb a (Api.or_default p "") else true)
  = true
  <-> (Api.truthy p = true -> a = p).
Proof.
  destruct (Api.truthy p) eqn:E.
  - rewrite (truthy_or_default p E) at 2.
    destruct a as [s|]; cbn [Api.opt_string_eqb].
    + rewrite String.eqb_eq. split; [now intros ->|].
      intros H. specialize (H eq_refl). now injection H.
    + split; [discriminate|]. intros H. specialize (H eq_refl). discriminate.
  - split; [discriminate|reflexivity].
Qed.

(** X26.  With both bounds given, [handleHistoricalRange] answers with
    status 200 whether or not rows exist; the count is the number of rows,
    the rows are in date order, and each date lies between the bounds. *)
Theorem handleHistoricalRange_answers_in_date_order (env : Env)
    (provider feed_kind start end_ route_id stop_id : option string) :
  Api.truthy start = true ->
  Api.truthy end_ = true ->
  exists data,
    Handlers.handleHistoricalRange env provider feed_kind start end_ route_id
      stop_id
    = Handlers.mkResponse 200 "application/json"
        (Handlers.RangeBody "daily" (Api.or_default start "")
           (Api.or_default end_ "")
           (Api.or_default feed_kind "gtfsrt_trip_updates")
           (Api.rows_length data) data)
    /\ Sorted (fun a b => String.leb a b = true) (Handlers.row_dates data)
    /\ Forall
         (fun d =>
            String.leb (Api.or_default start "") d = true
            /\ String.leb d (Api.or_default end_ "") = true)
         (Handlers.row_dates data).
Proof.
  intros Hs He. unfold Handlers.handleHistoricalRange.
  rewrite Hs, He. cbn [negb orb].
  eexists. split; [reflexivity|].
  destruct (String.eqb _ "gtfsrt_trip_updates"); cbn [Handlers.row_dates];
    (split; [apply range_rows_Sorted|]);
    apply Forall_forall; intros d Hd; apply in_map_iff in Hd as (r & <- & Hr);
    apply range_rows_In in Hr; tauto.
Qed.

(** X27.  The rows of a range answer are exactly the rows of the daily
    table of the feed kind that carry the source key, a date between the
    bounds and the route of a route filter in use; the stop filter counts
    for trip updates only, and every feed kind other than trip updates is
    answered from the daily position table. *)
Theorem handleHistoricalRange_selects_matching_rows (env : Env)
    (provider feed_kind start end_ route_id stop_id : option string) :
  Api.truthy start = true ->
  Api.truthy end_ = true ->
  let data :=
    match
      Handlers.resp_body
        (Handlers.handleHistoricalRange env provider feed_kind start end_
           route_id stop_id)
    with
    | Handlers.RangeBody _ _ _ _ _ data => Some data
    | _ => None
    end in
  if String.eqb (Api.or_default feed_kind "gtfsrt_trip_updates")
       "gtfsrt_trip_updates"
  then
    exists rows,
      data = Some (Api.DelayRows rows)
      /\ forall r,
           In r rows
           <-> In r (rt_delays_daily (DB env))
               /\ d_provider_key r = Api.or_default provider "stm"
               /\ String.leb (Api.or_default start "") (d_date r) = true
               /\ String.leb (d_date r) (Api.or_default end_ "") = true
               /\ (Api.truthy route_id = true -> d_route_id r = route_id)
               /\ (Api.truthy stop_id = true -> d_stop_id r = stop_id)
  else
    exists rows,
      data = Some (Api.PositionRows rows)
      /\ forall r,
           In r rows
           <-> In r (rt_positions_daily (DB env))
               /\ p_provider_key r = Api.or_default provider "stm"
               /\ String.leb (Api.or_default start "") (p_date r) = true
               /\ String.leb (p_date r) (Api.or_default end_ "") = true
               /\ (Api.truthy route_id = true -> p_route_id r = route_id).
Proof.
  intros Hs He. cbv zeta. unfold Handlers.handleHistoricalRange.
  rewrite Hs, He. cbn [negb orb].
  destruct (String.eqb _ "gtfsrt_trip_updates");
    cbn [Handlers.resp_body Handlers.jsonResponse];
    eexists; (split; [reflexivity|]); intros r;
    rewrite range_rows_In.
  - rewrite andb_true_iff, !opt_filter_passes. tauto.
  - rewrite opt_filter_passes. tauto.
Qed.

(** ** From the ingestion worker to the query router *)

Lemma hot_prefix_of_storage_path (fmtYMD_Montreal fmtISO_Montreal : Z -> string)
    (pkey kind : string) (now : Z) :
  String.prefix (Api.hot_prefix pkey kind (fmtYMD_Montreal now))
    (storage_path fmtYMD_Montreal fmtISO_Montreal pkey kind now) = true.
Proof.
  unfold Api.hot_prefix, storage_path.
  rewrite !prefix_app_cancel. apply prefix_app.
Qed.

Section CrossWorkerProofs.

Variable sha256_digest : list byte -> list byte.
Variable fmtYMD_Montreal : Z -> string.
Variable fmtISO_Montreal : Z -> string.
Variable datetime_localtime : Z -> string.

(** X28.  The two workers agree on the layout of the bucket: a snapshot
    that [saveRT] stored at [now] is in the listing of [listHotRTFiles] at
    every instant [t] whose threshold is not after [now] and for which the
    local date of [now] is the threshold's date or today's, under the key
    [saveRT] returned and with the upload time [now]; and [readHotRTFile]
    reads the stored bytes back from that key. *)
Theorem saved_snapshot_is_listed_hot (fuel : nat) (env : Env) (now : Z)
    (pkey : string) (fid : Z) (kind : string) (ab : list byte) (env1 : Env)
    (r1 : SaveResult) (t : Z) :
  saveRT sha256_digest fmtYMD_Montreal fmtISO_Montreal datetime_localtime
    fuel env now pkey fid kind ab = Some (env1, r1) ->
  skipped r1 = false ->
  Api.getHoursAgo t 24 <= now ->
  fmtYMD_Montreal now = fmtYMD_Montreal (Api.getHoursAgo t 24)
  \/ fmtYMD_Montreal now = fmtYMD_Montreal t ->
  exists k,
    path r1 = Some k
    /\ In (Api.mkHotFile k now)
         (Api.listHotRTFiles fmtYMD_Montreal env1 t pkey kind 24)
    /\ Api.readHotRTFile env1 k = Some ab.
Proof.
  intros Hsave Hskip Hthr Hdate.
  rewrite (saveRT_skipped_iff _ _ _ _ _ _ _ _ _ _ _ _ _ Hsave) in Hskip.
  destruct (saveRT_stored _ _ _ _ _ _ _ _ _ _ _ _ _ Hsave Hskip)
    as (-> & HR2 & _).
  eexists. split; [reflexivity|]. split.
  - apply listHotRTFiles_In.
    exists (mkR2Object
              (storage_path fmtYMD_Montreal fmtISO_Montreal pkey kind now)
              now ab).
    cbn [key uploaded]. split; [rewrite HR2; now left|].
    split; [|split; [exact Hthr|reflexivity]].
    destruct Hdate as [<-|<-]; [left|right];
      apply hot_prefix_of_storage_path.
  - unfold Api.readHotRTFile. now rewrite HR2, R2_get_put.
Qed.

End CrossWorkerProofs.

(** ** The header timestamp in the two workers *)

Lemma parseHeaderTimestamp_loop_fuel (u8 : list byte) (end_ : Number) :
  forall (fuel1 fuel2 : nat) (pos : Number) (ts a b : option Number),
    parseHeaderTimestamp_loop fuel1 u8 pos end_ ts = Some a ->
    parseHeaderTimestamp_loop fuel2 u8 pos end_ ts = Some b ->
    a = b.
Proof.
  induction fuel1 as [|fuel1 IH]; intros fuel2 pos ts a b H1 H2;
    [discriminate|].
  destruct fuel2 as [|fuel2]; [discriminate|].
  cbn [parseHeaderTimestamp_loop] in H1, H2.
  destruct (JS.ltb pos end_); [|congruence].
  destruct (_ && _); eapply IH; eassumption.
Qed.

Lemma parseFeedMeta_loop_timestamp_like_parseFeedMessage
    (decode : list byte -> string) (u8 : list byte) (feed : Api.FeedMessage)
    (meta : FeedMeta) :
  forall (fuel1 fuel2 : nat) (pos : Number) (feed0 : Api.FeedMessage)
         (count : Number) (ts : option Number),
    timestamp_agrees (Api.header_timestamp feed0) ts ->
    Api.parseFeedMessage_loop decode fuel1 u8 pos feed0 = Some (Api.Ret feed) ->
    parseFeedMeta_loop fuel2 u8 pos count ts = Some meta ->
    timestamp_agrees (Api.header_timestamp feed) (headerTsSec meta).
Proof.
  induction fuel1 as [|fuel1 IH]; intros fuel2 pos feed0 count ts Hts H1 H2;
    [discriminate|].
  destruct fuel2 as [|fuel2]; [discriminate|].
  cbn [Api.parseFeedMessage_loop] in H1. cbn [parseFeedMeta_loop] in H2.
  destruct (JS.ltb pos (u8_length u8)).
  - destruct (JS.band (value (readVarint u8 pos)) 7 =? 2).
    + destruct (JS.sar (value (readVarint u8 pos)) 3 =? 1).
      * destruct (parseHeaderTimestamp fuel1 u8 _ _) as [ts1|] eqn:E1;
          [|discriminate].
        destruct (parseHeaderTimestamp fuel2 u8 _ _) as [ts2|] eqn:E2;
          [|discriminate].
        pose proof (parseHeaderTimestamp_loop_fuel _ _ _ _ _ _ _ _ E1 E2) as <-.
        eapply IH; [|exact H1|exact H2].
        cbn [Api.header_timestamp]. now destruct ts1.
      * destruct (JS.sar (value (readVarint u8 pos)) 3 =? 2).
        -- destruct (Api.parseEntity decode fuel1 u8 _ _) as [[en|e]|];
             try discriminate.
           eapply IH; [|exact H1|exact H2]. exact Hts.
        -- eapply IH; [|exact H1|exact H2]. exact Hts.
    + eapply IH; [|exact H1|exact H2]. exact Hts.
  - injection H1 as <-. injection H2 as <-. exact Hts.
Qed.

(** X29.  Whenever the query router's decode of a blob returns a feed with
    a header timestamp [t] and the ingestion worker's decode of the same
    blob returns, the ingestion worker holds the same [t]; and a [saveRT]
    that stores the blob appends one row to the raw table of the feed kind
    whose [feed_ts] is derived from [t]: the text [fmtISO_Montreal] gives for
    the instant of [t] seconds when [t] is positive and a valid date, NULL
    when [t] is zero or negative.  So the router reports the seconds of which
    the store keeps the local-time text, and reports a zero where the store
    keeps NULL.  (The converse fails: after a header without timestamp the
    router reports none, while ingestion keeps the timestamp of an earlier
    header.) *)
Theorem feed_timestamp_is_the_stored_one (decode : list byte -> string)
    (ab : list byte) (fuel1 fuel2 : nat) (feed : Api.FeedMessage)
    (meta : FeedMeta) (t : Number) :
  Api.parseFeedMessage decode fuel1 ab = Some (Api.Ret feed) ->
  parseFeedMeta fuel2 ab = Some meta ->
  Api.header_timestamp feed = Some t ->
  headerTsSec meta = Some t
  /\ forall (sha256_digest : list byte -> list byte)
            (fmtYMD_Montreal fmtISO_Montreal datetime_localtime : Z -> string)
            (env : Env) (now : Z) (pkey : string) (fid : Z) (kind : string)
            (env1 : Env) (r1 : SaveResult),
       saveRT sha256_digest fmtYMD_Montreal fmtISO_Montreal datetime_localtime
         fuel2 env now pkey fid kind ab = Some (env1, r1) ->
       skipped r1 = false ->
       raw_rows (table_of_kind kind) env1
       = raw_rows (table_of_kind kind) env
         ++ [mkRawRow pkey fid (feed_ts_text fmtISO_Montreal (Some t))
               (datetime_localtime now) (sha256Hex sha256_digest ab)
               (entityCount meta)]
       /\ (forall v : Z,
             t = Fin v -> v <= 0 ->
             feed_ts_text fmtISO_Montreal (Some t) = None)
       /\ (forall v : Z,
             t = Fin v -> 0 < v -> v * 1000 <= max_time_value ->
             feed_ts_text fmtISO_Montreal (Some t)
             = Some (fmtISO_Montreal (v * 1000))).
Proof.
  intros H1 H2 Ht.
  pose proof (parseFeedMeta_loop_timestamp_like_parseFeedMessage decode ab
                feed meta fuel1 fuel2 (Fin 0) (Api.mkFeedMessage None [])
                (Fin 0) None I H1 H2) as H.
  rewrite Ht in H. cbn in H. split; [exact H|].
  intros sha256_digest fmtYMD_Montreal fmtISO_Montreal datetime_localtime env
    now pkey fid kind env1 r1 Hsave Hskip.
  split; [|split].
  - unfold saveRT in Hsave. destruct (hash_exists _ _ _ _).
    { injection Hsave as <- <-. discriminate. }
    rewrite H2 in Hsave. injection Hsave as <- <-. rewrite H.
    now destruct (table_of_kind kind).
  - intros v -> Hv. cbn [feed_ts_text].
    destruct (Z.ltb_spec 0 v); [lia|reflexivity].
  - intros v -> Hv Hmax. cbn [feed_ts_text].
    destruct (Z.ltb_spec 0 v); [|lia].
    destruct (Z.leb_spec (v * 1000) max_time_value); [reflexivity|lia].
Qed.

(** ** Worked examples of the ingestion run *)

Lemma second_save_value :
  second_save
  = Some (env_after_second_save,
          mkSaveResult false
            (Some "gtfs-rt/stm/gtfsrt_trip_updates/dt=2025-03-09/gtfsrt_trip_updates_2025-03-09T23-59-00.pb"%string)).
Proof. vm_compute. reflexivity. Qed.

Lemma sample_run_value : sample_run = Some env_after_sample_run.
Proof. vm_compute. reflexivity. Qed.

Lemma sample_fetch_decodes (i : nat) (url : string) (k : option string)
    (ab : list byte) :
  delivered (sample_fetch i url k) = Some ab ->
  exists meta, parseFeedMeta 100 ab = Some meta.
Proof.
  unfold sample_fetch. destruct (String.eqb url _); cbn [delivered];
    [|discriminate].
  intros H. injection H as <-. eexists. exact sample_feed_meta.
Qed.

Lemma failing_fetch_fails (i : nat) (url : string) (k : option string) :
  delivered (failing_fetch i url k) = None.
Proof. unfold failing_fetch. now destruct (Nat.even i). Qed.

Lemma other_endpoints_not_stm :
  Forall (fun f => fe_provider_key f <> "stm"%string)
    (active_rt_feeds other_endpoints).
Proof. repeat constructor; discriminate. Qed.

Lemma saveRT_only_appends_witness :
  first_save
  = Some (env_after_first_save,
          mkSaveResult false
            (Some "gtfs-rt/stm/gtfsrt_trip_updates/dt=2025-03-09/gtfsrt_trip_updates_2025-03-09T23-59-00.pb"%string))
  /\ (forall t, exists new,
         raw_rows t env_after_first_save = raw_rows t empty_env ++ new
         /\ (length new <= 1)%nat)
  /\ (exists new,
         ingest_log env_after_first_save = ingest_log empty_env ++ new
         /\ (length new <= 1)%nat)
  /\ DB env_after_first_save = DB empty_env
  /\ (forall k,
         k <> storage_path Toronto.fmtYMD Toronto.fmtISO "stm"
                "gtfsrt_trip_updates" evening_of_9_march ->
         R2_get (R2 env_after_first_save) k = R2_get (R2 empty_env) k)
  /\ (skipped
        (mkSaveResult false
           (Some "gtfs-rt/stm/gtfsrt_trip_updates/dt=2025-03-09/gtfsrt_trip_updates_2025-03-09T23-59-00.pb"%string))
      = true -> env_after_first_save = empty_env).
Proof.
  split; [exact first_save_value|].
  exact (saveRT_only_appends sample_digest Toronto.fmtYMD Toronto.fmtISO
           datetime_utc 100 empty_env evening_of_9_march "stm" 7
           "gtfsrt_trip_updates" sample_feed _ _ first_save_value).
Defined.

Lemma saveRT_same_second_keeps_one_blob_witness :
  Toronto.fmtYMD evening_of_9_march = Toronto.fmtYMD (evening_of_9_march + 500)
  /\ Toronto.fmtISO evening_of_9_march
     = Toronto.fmtISO (evening_of_9_march + 500)
  /\ first_save
     = Some (env_after_first_save,
             mkSaveResult false
               (Some "gtfs-rt/stm/gtfsrt_trip_updates/dt=2025-03-09/gtfsrt_trip_updates_2025-03-09T23-59-00.pb"%string))
  /\ second_save
     = Some (env_after_second_save,
             mkSaveResult false
               (Some "gtfs-rt/stm/gtfsrt_trip_updates/dt=2025-03-09/gtfsrt_trip_updates_2025-03-09T23-59-00.pb"%string))
  /\ sample_feed <> second_feed
  /\ (1 <= stored_count TripUpdatesRaw env_after_second_save "stm"
             (sha256Hex sample_digest sample_feed))%nat
  /\ (1 <= stored_count TripUpdatesRaw env_after_second_save "stm"
             (sha256Hex sample_digest second_feed))%nat
  /\ filter
       (fun o =>
          String.eqb (key o)
            (storage_path Toronto.fmtYMD Toronto.fmtISO "stm"
               "gtfsrt_trip_updates" evening_of_9_march))
       (R2 env_after_second_save)
     = [mkR2Object
          (storage_path Toronto.fmtYMD Toronto.fmtISO "stm"
             "gtfsrt_trip_updates" evening_of_9_march)
          (evening_of_9_march + 500) second_feed].
Proof.
  split; [reflexivity|]. split; [reflexivity|].
  split; [exact first_save_value|]. split; [exact second_save_value|].
  pose proof (saveRT_same_second_keeps_one_blob sample_digest Toronto.fmtYMD
                Toronto.fmtISO datetime_utc 100 empty_env evening_of_9_march
                (evening_of_9_march + 500) "stm" 7 7 "gtfsrt_trip_updates"
                sample_feed second_feed _ _ _ _ eq_refl eq_refl
                first_save_value eq_refl second_save_value eq_refl)
    as (Hne & _ & H1 & H2 & H3).
  exact (conj Hne (conj H1 (conj H2 H3))).
Defined.

Lemma scheduled_keeps_fingerprints_unique_witness :
  unique_fingerprints empty_env
  /\ sample_run = Some env_after_sample_run
  /\ unique_fingerprints env_after_sample_run.
Proof.
  split; [exact unique_fingerprints_empty|].
  split; [exact sample_run_value|].
  exact (scheduled_keeps_fingerprints_unique sample_digest Toronto.fmtYMD
           Toronto.fmtISO datetime_utc sample_fetch (Some "k"%string) 100
           sample_clock empty_env _ sample_endpoints unique_fingerprints_empty
           sample_run_value).
Defined.

Lemma scheduled_stores_every_delivered_feed_witness :
  sample_run = Some env_after_sample_run
  /\ nth_error (active_rt_feeds sample_endpoints) 1
     = Some (mkFeedEndpoint 7 "stm" "gtfsrt_trip_updates"
               "https://a.example/tu" 1)
  /\ delivered
       (sample_fetch 1 "https://a.example/tu" (buildHeaders (Some "k"%string) "stm"))
     = Some sample_feed
  /\ (1 <= stored_count TripUpdatesRaw env_after_sample_run "stm"
             (sha256Hex sample_digest sample_feed))%nat.
Proof.
  split; [exact sample_run_value|]. split; [reflexivity|].
  split; [reflexivity|].
  exact (scheduled_stores_every_delivered_feed sample_digest Toronto.fmtYMD
           Toronto.fmtISO datetime_utc sample_fetch (Some "k"%string) 100
           sample_clock empty_env _ sample_endpoints 1
           (mkFeedEndpoint 7 "stm" "gtfsrt_trip_updates"
              "https://a.example/tu" 1)
           sample_feed sample_run_value eq_refl eq_refl).
Defined.

Lemma scheduled_returns_witness :
  (forall i url k ab,
      delivered (sample_fetch i url k) = Some ab ->
      exists meta, parseFeedMeta 100 ab = Some meta)
  /\ exists env',
       scheduled_at sample_fetch (Some "k"%string) 100 sample_clock empty_env
         sample_endpoints = Some env'.
Proof.
  split; [exact sample_fetch_decodes|].
  exact (scheduled_returns sample_digest Toronto.fmtYMD Toronto.fmtISO
           datetime_utc sample_fetch (Some "k"%string) 100 sample_clock
           empty_env sample_endpoints sample_fetch_decodes).
Defined.

Lemma scheduled_logs_every_failure_witness :
  (forall i url k, delivered (failing_fetch i url k) = None)
  /\ exists new,
       scheduled_at failing_fetch (Some "k"%string) 0 sample_clock
         env_after_first_save sample_endpoints
       = Some (mkEnv (rt_trip_updates_raw env_after_first_save)
                 (rt_vehicle_positions_raw env_after_first_save)
                 (ingest_log env_after_first_save ++ new)
                 (R2 env_after_first_save) (DB env_after_first_save))
       /\ map log_feed_id new
          = map fe_feed_id (active_rt_feeds sample_endpoints)
       /\ map log_provider_key new
          = map fe_provider_key (active_rt_feeds sample_endpoints)
       /\ Forall (fun l => level l = "ERROR"%string /\ detail_json l = None)
            new.
Proof.
  split; [exact failing_fetch_fails|].
  exact (scheduled_logs_every_failure sample_digest Toronto.fmtYMD
           Toronto.fmtISO datetime_utc failing_fetch (Some "k"%string) 0
           sample_clock env_after_first_save sample_endpoints
           failing_fetch_fails).
Defined.

Lemma scheduled_key_only_for_stm_witness :
  Forall (fun f => fe_provider_key f <> "stm"%string)
    (active_rt_feeds other_endpoints)
  /\ scheduled_at sample_fetch (Some "k"%string) 100 sample_clock empty_env
       other_endpoints
     = scheduled_at sample_fetch None 100 sample_clock empty_env
         other_endpoints.
Proof.
  split; [exact other_endpoints_not_stm|].
  exact (scheduled_key_only_for_stm sample_digest Toronto.fmtYMD
           Toronto.fmtISO datetime_utc sample_fetch (Some "k"%string) None 100
           sample_clock empty_env other_endpoints other_endpoints_not_stm).
Defined.

(** ** Worked examples of the query router *)

Lemma odometer_position_value :
  Api.parsePosition 10 odometer_position (Fin 0) (u8_length odometer_position)
  = Some (Api.Ret (Api.mkPosition None None None None)).
Proof. vm_compute. reflexivity. Qed.

Lemma latitude_position_key :
  JS.band (value (readVarint latitude_position (Fin 0))) 7 = 5
  /\ JS.sar (value (readVarint latitude_position (Fin 0))) 3 = 1.
Proof. split; vm_compute; reflexivity. Qed.

Lemma geojson_of_vehicles :
  Handlers.handleGeoJSONPositions string_of_list_byte Toronto.fmtYMD 100
    env_with_vehicles (evening_of_9_march + 1000) None None
  = Some (Api.Ret (Handlers.geojsonResponse [])).
Proof. vm_compute. reflexivity. Qed.

Lemma positions_of_vehicles :
  Handlers.handleCurrentPositions string_of_list_byte Toronto.fmtYMD 100
    env_with_vehicles (evening_of_9_march + 1000) None None None
  = Some (Api.Ret
            (Handlers.jsonResponse
               (Handlers.PositionsBody
                  [Handlers.mkPositionOut (Some "bus"%string) None None
                     Handlers.FNull Handlers.FNull Handlers.FNull
                     Handlers.FNull None]
                  None))).
Proof. vm_compute. reflexivity. Qed.

Lemma parsePosition_never_returns_a_coordinate_witness :
  Nle 0 (Fin 0)
  /\ Api.parsePosition 10 odometer_position (Fin 0)
       (u8_length odometer_position)
     = Some (Api.Ret (Api.mkPosition None None None None))
  /\ Api.mkPosition None None None None = Api.mkPosition None None None None.
Proof.
  split; [constructor; lia|]. split; [exact odometer_position_value|].
  exact (parsePosition_never_returns_a_coordinate 10 odometer_position
           (Fin 0) (u8_length odometer_position) _
           (Nle_fin 0 0 (Z.le_refl 0)) odometer_position_value).
Defined.

Lemma parsePosition_throws_at_a_coordinate_witness :
  Nle 0 (Fin 0)
  /\ JS.ltb (Fin 0) (u8_length latitude_position) = true
  /\ JS.band (value (readVarint latitude_position (Fin 0))) 7 = 5
  /\ 1 <= JS.sar (value (readVarint latitude_position (Fin 0))) 3 <= 4
  /\ Api.parsePosition 1 latitude_position (Fin 0)
       (u8_length latitude_position)
     = Some (Api.Throw "RangeError").
Proof.
  assert (Hf : 1 <= JS.sar (value (readVarint latitude_position (Fin 0))) 3 <= 4)
    by (rewrite (proj2 latitude_position_key); lia).
  split; [constructor; lia|]. split; [reflexivity|].
  split; [exact (proj1 latitude_position_key)|]. split; [exact Hf|].
  exact (parsePosition_throws_at_a_coordinate 0 latitude_position (Fin 0)
           (u8_length latitude_position) (Nle_fin 0 0 (Z.le_refl 0)) eq_refl
           (proj1 latitude_position_key) Hf).
Defined.

Lemma handleGeoJSONPositions_never_emits_a_feature_witness :
  Handlers.handleGeoJSONPositions string_of_list_byte Toronto.fmtYMD 100
    env_with_vehicles (evening_of_9_march + 1000) None None
  = Some (Api.Ret (Handlers.geojsonResponse []))
  /\ (Handlers.geojsonResponse [] = Handlers.geojsonResponse []
      \/ Handlers.geojsonResponse []
         = Handlers.errorResponse "Failed to read RT file" 500).
Proof.
  split; [exact geojson_of_vehicles|].
  exact (handleGeoJSONPositions_never_emits_a_feature string_of_list_byte
           Toronto.fmtYMD 100 env_with_vehicles (evening_of_9_march + 1000)
           None None _ geojson_of_vehicles).
Defined.

Lemma handleCurrentPositions_lists_no_coordinate_witness :
  Handlers.handleCurrentPositions string_of_list_byte Toronto.fmtYMD 100
    env_with_vehicles (evening_of_9_march + 1000) None None None
  = Some (Api.Ret
            (Handlers.jsonResponse
               (Handlers.PositionsBody
                  [Handlers.mkPositionOut (Some "bus"%string) None None
                     Handlers.FNull Handlers.FNull Handlers.FNull
                     Handlers.FNull None]
                  None)))
  /\ Forall
       (fun row =>
          Handlers.no_number (Handlers.out_latitude row)
          /\ Handlers.no_number (Handlers.out_longitude row)
          /\ Handlers.no_number (Handlers.out_bearing row)
          /\ Handlers.no_number (Handlers.out_speed row))
       [Handlers.mkPositionOut (Some "bus"%string) None None Handlers.FNull
          Handlers.FNull Handlers.FNull Handlers.FNull None].
Proof.
  split; [exact positions_of_vehicles|].
  exact (handleCurrentPositions_lists_no_coordinate string_of_list_byte
           Toronto.fmtYMD 100 env_with_vehicles (evening_of_9_march + 1000)
           None None None _ _ None positions_of_vehicles eq_refl).
Defined.

Lemma handleStatus_counts_twice_on_a_long_day_witness :
  Toronto.fmtYMD (Api.getHoursAgo late_on_2_november 24)
  = Toronto.fmtYMD late_on_2_november
  /\ length (R2 env_on_2_november) = 1%nat
  /\ exists tu vp,
       Handlers.handleStatus Toronto.fmtYMD env_on_2_november
         late_on_2_november
       = Handlers.jsonResponse (Handlers.StatusBody tu vp)
       /\ Handlers.file_count tu = 2
       /\ Handlers.file_count vp = 0.
Proof.
  split; [reflexivity|]. split; [reflexivity|].
  destruct (handleStatus_counts_twice_on_a_long_day Toronto.fmtYMD
              env_on_2_november late_on_2_november eq_refl)
    as (tu & vp & E & Ht & Hv).
  exists tu, vp. split; [exact E|]. split; [exact Ht|exact Hv].
Defined.

Lemma handleHistoricalRange_answers_in_date_order_witness :
  Api.truthy (Some "2025-03-07"%string) = true
  /\ Api.truthy (Some "2025-03-08"%string) = true
  /\ exists data,
       Handlers.handleHistoricalRange three_days None None
         (Some "2025-03-07"%string) (Some "2025-03-08"%string) None None
       = Handlers.mkResponse 200 "application/json"
           (Handlers.RangeBody "daily" "2025-03-07" "2025-03-08"
              "gtfsrt_trip_updates"
              (Api.rows_length data) data)
       /\ Sorted (fun a b => String.leb a b = true) (Handlers.row_dates data)
       /\ Forall
            (fun d =>
               String.leb "2025-03-07" d = true
               /\ String.leb d "2025-03-08" = true)
            (Handlers.row_dates data).
Proof.
  split; [reflexivity|]. split; [reflexivity|].
  exact (handleHistoricalRange_answers_in_date_order three_days None None
           (Some "2025-03-07"%string) (Some "2025-03-08"%string) None None
           eq_refl eq_refl).
Defined.

Lemma handleHistoricalRange_selects_matching_rows_witness :
  Api.truthy (Some "2025-03-07"%string) = true
  /\ Api.truthy (Some "2025-03-08"%string) = true
  /\ exists rows,
       match
         Handlers.resp_body
           (Handlers.handleHistoricalRange three_days None None
              (Some "2025-03-07"%string) (Some "2025-03-08"%string)
              (Some "10"%string) None)
       with
       | Handlers.RangeBody _ _ _ _ _ data => Some data
       | _ => None
       end = Some (Api.DelayRows rows)
       /\ forall r,
            In r rows
            <-> In r (rt_delays_daily (DB three_days))
                /\ d_provider_key r = "stm"%string
                /\ String.leb "2025-03-07" (d_date r) = true
                /\ String.leb (d_date r) "2025-03-08" = true
                /\ (Api.truthy (Some "10"%string) = true ->
                    d_route_id r = Some "10"%string)
                /\ (Api.truthy None = true -> d_stop_id r = None).
Proof.
  split; [reflexivity|]. split; [reflexivity|].
  exact (handleHistoricalRange_selects_matching_rows three_days None None
           (Some "2025-03-07"%string) (Some "2025-03-08"%string)
           (Some "10"%string) None eq_refl eq_refl).
Defined.

Lemma saved_snapshot_is_listed_hot_witness :
  first_save
  = Some (env_after_first_save,
          mkSaveResult false
            (Some "gtfs-rt/stm/gtfsrt_trip_updates/dt=2025-03-09/gtfsrt_trip_updates_2025-03-09T23-59-00.pb"%string))
  /\ Api.getHoursAgo (evening_of_9_march + 1000) 24 <= evening_of_9_march
  /\ Toronto.fmtYMD evening_of_9_march
     = Toronto.fmtYMD (evening_of_9_march + 1000)
  /\ exists k,
       Some "gtfs-rt/stm/gtfsrt_trip_updates/dt=2025-03-09/gtfsrt_trip_updates_2025-03-09T23-59-00.pb"%string
       = Some k
       /\ In (Api.mkHotFile k evening_of_9_march)
            (Api.listHotRTFiles Toronto.fmtYMD env_after_first_save
               (evening_of_9_march + 1000) "stm" "gtfsrt_trip_updates" 24)
       /\ Api.readHotRTFile env_after_first_save k = Some sample_feed.
Proof.
  assert (Hthr : Api.getHoursAgo (evening_of_9_march + 1000) 24
                 <= evening_of_9_march) by (vm_compute; discriminate).
  split; [exact first_save_value|]. split; [exact Hthr|].
  split; [reflexivity|].
  exact (saved_snapshot_is_listed_hot sample_digest Toronto.fmtYMD
           Toronto.fmtISO datetime_utc 100 empty_env evening_of_9_march "stm"
           7 "gtfsrt_trip_updates" sample_feed _ _
           (evening_of_9_march + 1000) first_save_value eq_refl Hthr
           (or_intror eq_refl)).
Defined.

Lemma feed_timestamp_is_the_stored_one_witness :
  Api.parseFeedMessage string_of_list_byte 100 sample_feed
  = Some (Api.Ret
            (Api.mkFeedMessage (Some (Fin 1741579140))
               [Api.mkEntity (Some "e1"%string)
                  (Some (Api.mkTripUpdate
                           (Api.mkTripDescriptor (Some "T1"%string)
                              (Some "10"%string))
                           [Api.mkStopTimeUpdate (Some "S1"%string)
                              (Some (Fin 5))
                              (Some (Api.mkStopTimeEvent (Some (Fin 60)) None))
                              None]))
                  None]))
  /\ parseFeedMeta 100 sample_feed
     = Some (mkFeedMeta (Fin 1) (Some (Fin 1741579140)))
  /\ headerTsSec (mkFeedMeta (Fin 1) (Some (Fin 1741579140)))
     = Some (Fin 1741579140)
  /\ saveRT_on_platform "UTC" 100 empty_env evening_of_9_march "stm" 7
       "gtfsrt_trip_updates" sample_feed
     = Some (env_after_first_save,
             mkSaveResult false
               (Some "gtfs-rt/stm/gtfsrt_trip_updates/dt=2025-03-09/gtfsrt_trip_updates_2025-03-09T23-59-00.pb"%string))
  /\ rt_trip_updates_raw env_after_first_save
     = [mkRawRow "stm" 7 (Some "2025-03-09T23-59-00"%string)
          (datetime_utc evening_of_9_march) (sha256Hex sample_digest sample_feed)
          (Fin 1)].
Proof.
  assert (Hsave : saveRT_on_platform "UTC" 100 empty_env evening_of_9_march
                    "stm" 7 "gtfsrt_trip_updates" sample_feed
                  = Some (env_after_first_save,
                          mkSaveResult false
                            (Some "gtfs-rt/stm/gtfsrt_trip_updates/dt=2025-03-09/gtfsrt_trip_updates_2025-03-09T23-59-00.pb"%string)))
    by (vm_compute; reflexivity).
  destruct (feed_timestamp_is_the_stored_one string_of_list_byte sample_feed
              100 100 _ _ (Fin 1741579140) sample_feed_message
              sample_feed_meta eq_refl) as [Hts Hrow].
  destruct (Hrow sample_digest
              (Montreal.fmtYMD_Montreal sample_toLocaleString "UTC")
              (Montreal.fmtISO_Montreal sample_toLocaleString "UTC")
              datetime_utc empty_env evening_of_9_march "stm"%string 7
              "gtfsrt_trip_updates"%string _ _ Hsave eq_refl)
    as (Hrows & _ & Htext).
  split; [exact sample_feed_message|]. split; [exact sample_feed_meta|].
  split; [exact Hts|]. split; [exact Hsave|].
  rewrite (Htext 1741579140 eq_refl ltac:(lia) ltac:(vm_compute; discriminate))
    in Hrows.
  exact Hrows.
Defined.
